(** * ceracoder: the adaptive bitrate controller, its registry and runner

    A shallow embedding of the bitrate balancer of ceracoder
    (bitrate_control.c, balancer_adaptive.c, balancer_aimd.c,
    balancer_fixed.c, balancer_registry.c, balancer_runner.c, config.c) and
    of the legacy bitrate-file parser of ceracoder.c.

    - C [int], [int64_t] and [uint64_t] values are integers of [Z]; every
      place where the machine reduces a value to its width is written out
      ([to_int], [to_int64], [to_uint64]).  Integer division is C's, which
      truncates toward zero ([Z.quot]).
    - C [double] is IEEE 754 binary64, one rounding per operation: the
      kernel's primitive floats.  [(int)x] truncates toward zero.
    - A function that mutates a struct through a pointer takes the struct
      and returns the updated one. *)

From Stdlib Require Import ZArith List String Ascii Bool Lia Floats.
From Stdlib Require QArith.
Import ListNotations.

Set Warnings "-inexact-float".
Local Open Scope Z_scope.

(** ** Machine integers *)

Module CInt.

Definition INT_MIN : Z := -2147483648.
Definition INT_MAX : Z := 2147483647.
Definition UINT64_MOD : Z := 2 ^ 64.

(** Two's-complement reduction of [z] to a signed integer of [bits] bits. *)
Definition wrap_signed (bits z : Z) : Z :=
  (z + 2 ^ (bits - 1)) mod 2 ^ bits - 2 ^ (bits - 1).

Definition to_int (z : Z) : Z := wrap_signed 32 z.
Definition to_int64 (z : Z) : Z := wrap_signed 64 z.
Definition to_uint64 (z : Z) : Z := z mod UINT64_MOD.

Definition int_range (z : Z) : Prop := INT_MIN <= z <= INT_MAX.
Definition uint64_range (z : Z) : Prop := 0 <= z < UINT64_MOD.

(** [a / b] on C integers. *)
Definition cdiv (a b : Z) : Z := Z.quot a b.

(** GLib's [MIN] and [MAX] on integers:
    [MAX(a, b) = ((a) > (b)) ? (a) : (b)]. *)
Definition MAX (a b : Z) : Z := if b <? a then a else b.
Definition MIN (a b : Z) : Z := if a <? b then a else b.

(** [min_max(a, l, h) = MAX(MIN(a, h), l)] of bitrate_control.c. *)
Definition min_max (a l h : Z) : Z := MAX (MIN a h) l.

End CInt.

(** ** Doubles *)

Module CDouble.

Import CInt.

(** [(double)z] for an integer of at most 63 bits of magnitude. *)
Definition of_int (z : Z) : float :=
  if z <? 0 then PrimFloat.opp (PrimFloat.of_uint63 (Uint63.of_Z (- z)))
  else PrimFloat.of_uint63 (Uint63.of_Z z).

(** The integer part of a finite double, toward zero. *)
Definition trunc (x : float) : option Z :=
  match Prim2SF x with
  | S754_zero _ => Some 0
  | S754_finite s m e =>
      let mag := if 0 <=? e then Z.shiftl (Zpos m) e
                 else Z.shiftr (Zpos m) (- e) in
      Some (if s then - mag else mag)
  | S754_infinity _ => None
  | S754_nan => None
  end.

(** [(int)x].  C leaves the conversion undefined when the integer part does
    not fit (or [x] is not finite); the x86-64 conversion instruction then
    yields [INT_MIN], and so does this model. *)
Definition to_int (x : float) : Z :=
  match trunc x with
  | Some z => if (INT_MIN <=? z) && (z <=? INT_MAX) then z else INT_MIN
  | None => INT_MIN
  end.

(** [a > b], [a < b], [a >= b] and [a == b] on doubles. *)
Definition gt (a b : float) : bool := PrimFloat.ltb b a.
Definition lt (a b : float) : bool := PrimFloat.ltb a b.
Definition ge (a b : float) : bool := PrimFloat.leb b a.
Definition eq (a b : float) : bool := PrimFloat.eqb a b.

(** GLib's [MAX] on doubles. *)
Definition MAX (a b : float) : float := if gt a b then a else b.

End CDouble.

(** ** bitrate_control.h: constants *)

Module BitrateConst.

Definition MIN_BITRATE : Z := 300 * 1000.
Definition ABS_MAX_BITRATE : Z := 30 * 1000 * 1000.
Definition DEF_BITRATE : Z := 6 * 1000 * 1000.

Definition BITRATE_UPDATE_INT : Z := 20.
Definition BITRATE_INCR_INT : Z := 500.
Definition BITRATE_DECR_INT : Z := 200.
Definition BITRATE_DECR_FAST_INT : Z := 250.

Definition BITRATE_INCR_MIN : Z := 30 * 1000.
Definition BITRATE_INCR_SCALE : Z := 30.
Definition BITRATE_DECR_MIN : Z := 100 * 1000.
Definition BITRATE_DECR_SCALE : Z := 10.

Definition EMA_SLOW : float := 0.99.
Definition EMA_FAST : float := 0.01.
Definition EMA_RTT_DELTA : float := 0.8.
Definition EMA_RTT_DELTA_NEW : float := 0.2.
Definition EMA_THROUGHPUT : float := 0.97.
Definition EMA_THROUGHPUT_NEW : float := 0.03.

Definition RTT_MIN_DRIFT : float := 1.001.
Definition RTT_IGNORE_VALUE : Z := 100.
Definition RTT_INITIAL : Z := 300.
Definition RTT_MIN_INITIAL : float := 200.0.

Definition BS_TH3_MULT : Z := 4.
Definition BS_TH2_JITTER_MULT : float := 3.0.
Definition BS_TH1_JITTER_MULT : float := 2.5.
Definition BS_TH_MIN : Z := 50.
Definition RTT_JITTER_MULT : Z := 4.
Definition RTT_AVG_PERCENT : Z := 15.
Definition RTT_STABLE_DELTA : float := 0.01.
Definition RTT_MIN_JITTER : Z := 1.

(** Defined in bitrate_control.c, above [bitrate_update]. *)
Definition LOSS_RATE_THRESHOLD : float := 0.5.
Definition EMA_LOSS : float := 0.9.
Definition EMA_LOSS_NEW : float := 0.1.

(** The rounding step of every algorithm: [x / (100 * 1000) * (100 * 1000)]. *)
Definition round_100k (x : Z) : Z := CInt.cdiv x (100 * 1000) * (100 * 1000).

End BitrateConst.

(** ** balancer.h: the records exchanged with an algorithm *)

Module Balancer.

(** [BalancerConfig], passed to [init]. *)
Record BalancerConfig : Type := mkBalancerConfig {
  min_bitrate : Z;
  max_bitrate : Z;
  srt_latency : Z;
  srt_pkt_size : Z;
  adaptive_incr_step : Z;
  adaptive_decr_step : Z;
  adaptive_incr_interval : Z;
  adaptive_decr_interval : Z;
  aimd_incr_step : Z;
  aimd_decr_mult : float;
  aimd_incr_interval : Z;
  aimd_decr_interval : Z
}.

(** [BalancerInput], passed to [step] on every update cycle. *)
Record BalancerInput : Type := mkBalancerInput {
  buffer_size : Z;
  rtt : float;
  send_rate_mbps : float;
  timestamp : Z;
  pkt_loss_total : Z;
  pkt_retrans_total : Z
}.

(** [BalancerOutput], returned from [step]. *)
Record BalancerOutput : Type := mkBalancerOutput {
  new_bitrate : Z;
  throughput : float;
  out_rtt : Z;
  rtt_th_min : Z;
  rtt_th_max : Z;
  bs : Z;
  bs_th1 : Z;
  bs_th2 : Z;
  bs_th3 : Z
}.

(** [BalancerAlgorithm]: a name, a description and the functions over the
    algorithm's own state, which C hides behind a [void *].  [init] returns
    [None] where the C function returns [NULL]. *)
Record BalancerAlgorithm : Type := mkBalancerAlgorithm {
  state_t : Type;
  name : string;
  description : string;
  init : BalancerConfig -> option state_t;
  step : state_t -> BalancerInput -> state_t * BalancerOutput
}.

End Balancer.

(** ** bitrate_control.c: the adaptive controller *)

Module BitrateControl.

Import CInt BitrateConst.

(** [BitrateContext].  Modelled from the spec: bitrate_control.h declares
    the struct without the five tuning fields and without the loss tracker
    that bitrate_control.c assigns; they are the fields the specification
    lists for the adaptive state, with the types of what
    [bitrate_context_init] and [bitrate_update] store in them ([int] for
    the tuning values, [int64_t] for the counters, [double] for
    [loss_rate]). *)
Record BitrateContext : Type := mkBitrateContext {
  min_bitrate : Z;
  max_bitrate : Z;
  srt_latency : Z;
  srt_pkt_size : Z;
  incr_step : Z;
  decr_step : Z;
  incr_interval : Z;
  decr_interval : Z;
  decr_fast_interval : Z;
  cur_bitrate : Z;
  bs_avg : float;
  bs_jitter : float;
  prev_bs : Z;
  rtt_avg : float;
  rtt_min : float;
  rtt_jitter : float;
  rtt_avg_delta : float;
  prev_rtt : Z;
  throughput : float;
  prev_pkt_loss : Z;
  prev_pkt_retrans : Z;
  loss_rate : float;
  next_bitrate_incr : Z;
  next_bitrate_decr : Z
}.

(** [BitrateResult]. *)
Record BitrateResult : Type := mkBitrateResult {
  new_bitrate : Z;
  res_throughput : float;
  rtt : Z;
  rtt_th_min : Z;
  rtt_th_max : Z;
  bs : Z;
  bs_th1 : Z;
  bs_th2 : Z;
  bs_th3 : Z
}.

Definition bitrate_context_init (min_br max_br latency pkt_size
  incr_step_arg decr_step_arg incr_interval_arg decr_interval_arg : Z)
  : BitrateContext :=
  {| min_bitrate := min_br;
     max_bitrate := max_br;
     srt_latency := latency;
     srt_pkt_size := pkt_size;
     incr_step := if 0 <? incr_step_arg then incr_step_arg else BITRATE_INCR_MIN;
     decr_step := if 0 <? decr_step_arg then decr_step_arg else BITRATE_DECR_MIN;
     incr_interval :=
       if 0 <? incr_interval_arg then incr_interval_arg else BITRATE_INCR_INT;
     decr_interval :=
       if 0 <? decr_interval_arg then decr_interval_arg else BITRATE_DECR_INT;
     decr_fast_interval := BITRATE_DECR_FAST_INT;
     cur_bitrate := max_br;
     bs_avg := 0.0;
     bs_jitter := 0.0;
     prev_bs := 0;
     rtt_avg := 0.0;
     rtt_min := RTT_MIN_INITIAL;
     rtt_jitter := 0.0;
     rtt_avg_delta := 0.0;
     prev_rtt := RTT_INITIAL;
     throughput := 0.0;
     prev_pkt_loss := 0;
     prev_pkt_retrans := 0;
     loss_rate := 0.0;
     next_bitrate_incr := 0;
     next_bitrate_decr := 0 |}.

(** [RTT_TO_BS(ctx, rtt)] with the throughput of this tick. *)
Definition RTT_TO_BS (throughput_now : float) (pkt_size rtt_arg : Z) : float :=
  ((throughput_now / CDouble.of_int 8) * CDouble.of_int rtt_arg
   / CDouble.of_int pkt_size)%float.

(** The four branches of the decision ladder, and the tick that takes none. *)
Inductive Branch : Type := Emergency | Heavy | Light | Grow | Hold.

(** [bitrate_update]: the updated context, the returned bitrate and the
    filled [BitrateResult].  The assignments follow the order of the
    source; a primed name is the field after its update.  The [if]/[else
    if] chain is read in two steps: [branch] is the first arm whose
    condition holds, and [bitrate1], [next_decr'] and [next_incr'] are what
    that arm assigns. *)
Definition bitrate_update (ctx : BitrateContext) (buffer_size : Z)
  (rtt_arg send_rate_mbps : float) (timestamp pkt_loss_total
  pkt_retrans_total : Z) : BitrateContext * Z * BitrateResult :=
  let bs_now := buffer_size in
  let rtt_int := CDouble.to_int rtt_arg in
  (* Packet loss tracking *)
  let loss_delta := to_int64 (pkt_loss_total - prev_pkt_loss ctx) in
  let retrans_delta := to_int64 (pkt_retrans_total - prev_pkt_retrans ctx) in
  let loss_rate' :=
    if (0 <? loss_delta) || (0 <? retrans_delta) then
      let new_loss := CDouble.of_int (to_int64 (loss_delta + retrans_delta)) in
      (loss_rate ctx * EMA_LOSS + new_loss * EMA_LOSS_NEW)%float
    else (loss_rate ctx * EMA_LOSS)%float in
  let pkt_loss_congestion := CDouble.gt loss_rate' LOSS_RATE_THRESHOLD in
  (* Send buffer size stats *)
  let bs_avg' := (bs_avg ctx * EMA_SLOW + CDouble.of_int bs_now * EMA_FAST)%float in
  let bs_jitter0 := (EMA_SLOW * bs_jitter ctx)%float in
  let delta_bs := to_int (bs_now - prev_bs ctx) in
  let bs_jitter' :=
    if CDouble.gt (CDouble.of_int delta_bs) bs_jitter0
    then CDouble.of_int delta_bs else bs_jitter0 in
  (* RTT stats *)
  let rtt_avg' :=
    if CDouble.eq (rtt_avg ctx) 0.0 then rtt_arg
    else (rtt_avg ctx * EMA_SLOW + EMA_FAST * rtt_arg)%float in
  let delta_rtt := (rtt_arg - CDouble.of_int (prev_rtt ctx))%float in
  let rtt_avg_delta' :=
    (rtt_avg_delta ctx * EMA_RTT_DELTA + delta_rtt * EMA_RTT_DELTA_NEW)%float in
  let rtt_min0 := (rtt_min ctx * RTT_MIN_DRIFT)%float in
  let rtt_min' :=
    if negb (rtt_int =? RTT_IGNORE_VALUE) && CDouble.lt rtt_arg rtt_min0
       && CDouble.lt rtt_avg_delta' 1.0
    then rtt_arg else rtt_min0 in
  let rtt_jitter0 := (rtt_jitter ctx * EMA_SLOW)%float in
  let rtt_jitter' :=
    if CDouble.gt delta_rtt rtt_jitter0 then delta_rtt else rtt_jitter0 in
  (* Rolling average of the network throughput *)
  let throughput0 := (throughput ctx * EMA_THROUGHPUT)%float in
  let throughput' :=
    (throughput0
     + (send_rate_mbps * 1000.0 * 1000.0 / 1024.0) * EMA_THROUGHPUT_NEW)%float in
  (* Thresholds *)
  let bs_th3_v :=
    CDouble.to_int ((bs_avg' + bs_jitter') * CDouble.of_int BS_TH3_MULT)%float in
  let bs_th2_0 :=
    CDouble.to_int
      (CDouble.MAX (CDouble.of_int BS_TH_MIN)
         (bs_avg' + CDouble.MAX (bs_jitter' * BS_TH2_JITTER_MULT) bs_avg')%float) in
  let bs_th2_v :=
    MIN bs_th2_0
      (CDouble.to_int
         (RTT_TO_BS throughput' (srt_pkt_size ctx) (cdiv (srt_latency ctx) 2))) in
  let bs_th1_v :=
    CDouble.to_int
      (CDouble.MAX (CDouble.of_int BS_TH_MIN)
         (bs_avg' + bs_jitter' * BS_TH1_JITTER_MULT)%float) in
  let rtt_th_max_v :=
    CDouble.to_int
      (rtt_avg'
       + CDouble.MAX (rtt_jitter' * CDouble.of_int RTT_JITTER_MULT)
           (rtt_avg' * CDouble.of_int RTT_AVG_PERCENT / CDouble.of_int 100))%float in
  let rtt_th_min_v :=
    CDouble.to_int
      (rtt_min'
       + CDouble.MAX (CDouble.of_int RTT_MIN_JITTER)
           (rtt_jitter' * CDouble.of_int 2))%float in
  (* Bitrate decision logic, on an int64_t copy of the current bitrate *)
  let bitrate := cur_bitrate ctx in
  let branch :=
    if (min_bitrate ctx <? bitrate)
       && ((cdiv (srt_latency ctx) 3 <=? rtt_int) || (bs_th3_v <? bs_now))
    then Emergency
    else if (next_bitrate_decr ctx <? timestamp)
       && ((cdiv (srt_latency ctx) 5 <? rtt_int) || (bs_th2_v <? bs_now)
           || pkt_loss_congestion)
    then Heavy
    else if (next_bitrate_decr ctx <? timestamp)
       && ((rtt_th_max_v <? rtt_int) || (bs_th1_v <? bs_now))
    then Light
    else if (next_bitrate_incr ctx <? timestamp)
       && (rtt_int <? rtt_th_min_v)
       && CDouble.lt rtt_avg_delta' RTT_STABLE_DELTA
       && negb pkt_loss_congestion
    then Grow
    else Hold in
  let bitrate1 :=
    match branch with
    | Emergency => min_bitrate ctx
    | Heavy =>
        to_int64
          (bitrate - to_int64 (decr_step ctx + cdiv bitrate BITRATE_DECR_SCALE))
    | Light => to_int64 (bitrate - decr_step ctx)
    | Grow =>
        to_int64
          (bitrate + to_int64 (incr_step ctx + cdiv bitrate BITRATE_INCR_SCALE))
    | Hold => bitrate
    end in
  let next_decr' :=
    match branch with
    | Emergency => to_uint64 (timestamp + decr_interval ctx)
    | Heavy => to_uint64 (timestamp + decr_fast_interval ctx)
    | Light => to_uint64 (timestamp + decr_interval ctx)
    | Grow | Hold => next_bitrate_decr ctx
    end in
  let next_incr' :=
    match branch with
    | Grow => to_uint64 (timestamp + incr_interval ctx)
    | Emergency | Heavy | Light | Hold => next_bitrate_incr ctx
    end in
  (* Clamp to the valid range, round to 100 kbps *)
  let bitrate2 := min_max bitrate1 (min_bitrate ctx) (max_bitrate ctx) in
  let cur_bitrate' := to_int bitrate2 in
  let rounded_br := round_100k cur_bitrate' in
  ({| min_bitrate := min_bitrate ctx;
      max_bitrate := max_bitrate ctx;
      srt_latency := srt_latency ctx;
      srt_pkt_size := srt_pkt_size ctx;
      incr_step := incr_step ctx;
      decr_step := decr_step ctx;
      incr_interval := incr_interval ctx;
      decr_interval := decr_interval ctx;
      decr_fast_interval := decr_fast_interval ctx;
      cur_bitrate := cur_bitrate';
      bs_avg := bs_avg';
      bs_jitter := bs_jitter';
      prev_bs := bs_now;
      rtt_avg := rtt_avg';
      rtt_min := rtt_min';
      rtt_jitter := rtt_jitter';
      rtt_avg_delta := rtt_avg_delta';
      prev_rtt := rtt_int;
      throughput := throughput';
      prev_pkt_loss := pkt_loss_total;
      prev_pkt_retrans := pkt_retrans_total;
      loss_rate := loss_rate';
      next_bitrate_incr := next_incr';
      next_bitrate_decr := next_decr' |},
   rounded_br,
   {| new_bitrate := rounded_br;
      res_throughput := throughput';
      rtt := rtt_int;
      rtt_th_min := rtt_th_min_v;
      rtt_th_max := rtt_th_max_v;
      bs := bs_now;
      bs_th1 := bs_th1_v;
      bs_th2 := bs_th2_v;
      bs_th3 := bs_th3_v |}).

End BitrateControl.


(** ** balancer_adaptive.c: the adaptive algorithm behind the interface *)

Module Adaptive.

Import Balancer.

(** [AdaptiveState] wraps a [BitrateContext]. *)
Record AdaptiveState : Type := mkAdaptiveState {
  ctx : BitrateControl.BitrateContext
}.

(** [adaptive_init].  Modelled from the spec: the call in
    balancer_adaptive.c stops at the packet size, and
    [bitrate_context_init] takes four tuning values after it; they are the
    [adaptive_*] fields that balancer.h declares for this purpose and that
    the runner fills (the specification has the runner copy the
    per-algorithm tunables into the algorithm's configuration).  The
    allocation is taken to succeed. *)
Definition adaptive_init (config : BalancerConfig) : option AdaptiveState :=
  Some {| ctx :=
    BitrateControl.bitrate_context_init
      (min_bitrate config) (max_bitrate config)
      (srt_latency config) (srt_pkt_size config)
      (adaptive_incr_step config) (adaptive_decr_step config)
      (adaptive_incr_interval config) (adaptive_decr_interval config) |}.

(** [adaptive_step]: [bitrate_update] on the wrapped context, fed from the
    input record, its result copied into a [BalancerOutput].  Modelled from
    the spec: the call in balancer_adaptive.c stops at the timestamp, and
    [bitrate_update] takes the two cumulative loss counters after it; they
    are the counters of the sample. *)
Definition adaptive_step (state : AdaptiveState) (input : BalancerInput)
  : AdaptiveState * BalancerOutput :=
  let '(ctx', new_br, result) :=
    BitrateControl.bitrate_update (ctx state)
      (buffer_size input) (rtt input) (send_rate_mbps input)
      (timestamp input) (pkt_loss_total input) (pkt_retrans_total input) in
  ({| ctx := ctx' |},
   {| new_bitrate := new_br;
      throughput := BitrateControl.res_throughput result;
      out_rtt := BitrateControl.rtt result;
      rtt_th_min := BitrateControl.rtt_th_min result;
      rtt_th_max := BitrateControl.rtt_th_max result;
      bs := BitrateControl.bs result;
      bs_th1 := BitrateControl.bs_th1 result;
      bs_th2 := BitrateControl.bs_th2 result;
      bs_th3 := BitrateControl.bs_th3 result |}).

Definition balancer_adaptive : BalancerAlgorithm :=
  {| state_t := AdaptiveState;
     name := "adaptive";
     description := "RTT and buffer-based adaptive control (default)";
     init := adaptive_init;
     step := adaptive_step |}.

End Adaptive.

(** ** balancer_fixed.c: the constant-rate algorithm *)

Module Fixed.

Import CInt BitrateConst Balancer.

Record FixedState : Type := mkFixedState {
  fixed_bitrate : Z
}.

Definition fixed_init (config : BalancerConfig) : option FixedState :=
  Some {| fixed_bitrate := round_100k (max_bitrate config) |}.

Definition fixed_step (state : FixedState) (input : BalancerInput)
  : FixedState * BalancerOutput :=
  (state,
   {| new_bitrate := fixed_bitrate state;
      throughput := 0.0;
      out_rtt := CDouble.to_int (rtt input);
      rtt_th_min := 0;
      rtt_th_max := 0;
      bs := buffer_size input;
      bs_th1 := 0;
      bs_th2 := 0;
      bs_th3 := 0 |}).

Definition balancer_fixed : BalancerAlgorithm :=
  {| state_t := FixedState;
     name := "fixed";
     description := "Constant bitrate, no adaptation";
     init := fixed_init;
     step := fixed_step |}.

End Fixed.

(** ** balancer_aimd.c: additive increase, multiplicative decrease *)

Module Aimd.

Import CInt BitrateConst Balancer.

Definition AIMD_DEF_INCR_RATE : Z := 50 * 1000.
Definition AIMD_DEF_DECR_MULT : float := 0.75.
Definition AIMD_DEF_INCR_INTERVAL : Z := 500.
Definition AIMD_DEF_DECR_INTERVAL : Z := 200.
Definition AIMD_RTT_MULT : float := 1.5.
Definition AIMD_RTT_BASELINE_EMA : float := 0.95.
Definition AIMD_BS_THRESHOLD : Z := 100.

Record AimdState : Type := mkAimdState {
  min_bitrate : Z;
  max_bitrate : Z;
  cur_bitrate : Z;
  srt_latency : Z;
  incr_step : Z;
  decr_mult : float;
  incr_interval : Z;
  decr_interval : Z;
  rtt_baseline : float;
  next_incr : Z;
  next_decr : Z
}.

Definition aimd_init (config : BalancerConfig) : option AimdState :=
  Some
    {| min_bitrate := Balancer.min_bitrate config;
       max_bitrate := Balancer.max_bitrate config;
       cur_bitrate := Balancer.max_bitrate config;
       srt_latency := Balancer.srt_latency config;
       incr_step :=
         if 0 <? aimd_incr_step config then aimd_incr_step config
         else AIMD_DEF_INCR_RATE;
       decr_mult :=
         if CDouble.gt (aimd_decr_mult config) 0.0 then aimd_decr_mult config
         else AIMD_DEF_DECR_MULT;
       incr_interval :=
         if 0 <? aimd_incr_interval config then aimd_incr_interval config
         else AIMD_DEF_INCR_INTERVAL;
       decr_interval :=
         if 0 <? aimd_decr_interval config then aimd_decr_interval config
         else AIMD_DEF_DECR_INTERVAL;
       rtt_baseline := 0.0;
       next_incr := 0;
       next_decr := 0 |}.

(** What the second [if] of [aimd_step] does: the multiplicative decrease,
    the additive increase, or neither. *)
Inductive Action : Type := Decrease | Increase | Keep.

(** [(int)(state->cur_bitrate * state->decr_mult)]. *)
Definition mult_decrease (cur : Z) (mult : float) : Z :=
  CDouble.to_int (CDouble.of_int cur * mult)%float.

(** [aimd_step].  The first [if] of the source is [emergency]: it alone
    assigns [cur_bitrate] and [next_decr] before the second [if] reads
    them ([cur1], [next_decr1]), and it sets [congested] like its [else if]
    arm.  [action] is the arm of the second [if] that is taken. *)
Definition aimd_step (state : AimdState) (input : BalancerInput)
  : AimdState * BalancerOutput :=
  let rtt_in := rtt input in
  let ts := timestamp input in
  (* RTT baseline *)
  let rtt_baseline' :=
    if CDouble.eq (rtt_baseline state) 0.0 then rtt_in
    else if CDouble.lt rtt_in (rtt_baseline state) then rtt_in
    else (rtt_baseline state * AIMD_RTT_BASELINE_EMA
          + rtt_in * (1.0 - AIMD_RTT_BASELINE_EMA))%float in
  let rtt_threshold := CDouble.to_int (rtt_baseline' * AIMD_RTT_MULT)%float in
  (* Detect congestion; the emergency branch acts at once *)
  let emergency :=
    CDouble.ge rtt_in (CDouble.of_int (cdiv (srt_latency state) 3)) in
  let cur1 := if emergency then min_bitrate state else cur_bitrate state in
  let next_decr1 :=
    if emergency then to_uint64 (ts + decr_interval state)
    else next_decr state in
  let congested :=
    emergency
    || CDouble.gt rtt_in (CDouble.of_int rtt_threshold)
    || (AIMD_BS_THRESHOLD <? buffer_size input) in
  let action :=
    if congested && (next_decr1 <? ts) then Decrease
    else if negb congested && (next_incr state <? ts) then Increase
    else Keep in
  let cur2 :=
    match action with
    | Decrease => mult_decrease cur1 (decr_mult state)
    | Increase => to_int (cur1 + incr_step state)
    | Keep => cur1
    end in
  let next_decr2 :=
    match action with
    | Decrease => to_uint64 (ts + decr_interval state)
    | Increase | Keep => next_decr1
    end in
  let next_incr2 :=
    match action with
    | Increase => to_uint64 (ts + incr_interval state)
    | Decrease | Keep => next_incr state
    end in
  (* Clamp to the valid range, round to 100 kbps *)
  let cur3 := MAX (min_bitrate state) (MIN (max_bitrate state) cur2) in
  let rounded_br := round_100k cur3 in
  ({| min_bitrate := min_bitrate state;
      max_bitrate := max_bitrate state;
      cur_bitrate := cur3;
      srt_latency := srt_latency state;
      incr_step := incr_step state;
      decr_mult := decr_mult state;
      incr_interval := incr_interval state;
      decr_interval := decr_interval state;
      rtt_baseline := rtt_baseline';
      next_incr := next_incr2;
      next_decr := next_decr2 |},
   {| new_bitrate := rounded_br;
      throughput := 0.0;
      out_rtt := CDouble.to_int rtt_in;
      rtt_th_min := CDouble.to_int rtt_baseline';
      rtt_th_max := rtt_threshold;
      bs := buffer_size input;
      bs_th1 := AIMD_BS_THRESHOLD;
      bs_th2 := AIMD_BS_THRESHOLD;
      bs_th3 := AIMD_BS_THRESHOLD |}).

Definition balancer_aimd : BalancerAlgorithm :=
  {| state_t := AimdState;
     name := "aimd";
     description := "Additive Increase Multiplicative Decrease (TCP-style)";
     init := aimd_init;
     step := aimd_step |}.

End Aimd.

(** ** balancer_registry.c: the registry *)

Module Registry.

Import Balancer.

(** The [NULL]-terminated array [algorithms], without its sentinel. *)
Definition algorithms : list BalancerAlgorithm :=
  [ Adaptive.balancer_adaptive ].

(** [algorithms[0]]; [None] is the sentinel of an empty registry. *)
Definition balancer_get_default : option BalancerAlgorithm :=
  hd_error algorithms.

(** The loop of [balancer_find] over a registry: the first entry whose name
    compares equal under [strcmp]. *)
Fixpoint find_in (registry : list BalancerAlgorithm) (wanted : string)
  : option BalancerAlgorithm :=
  match registry with
  | [] => None
  | a :: rest => if String.eqb (name a) wanted then Some a else find_in rest wanted
  end.

(** [balancer_find] over a given registry; a [NULL] name is [None]. *)
Definition balancer_find_in (registry : list BalancerAlgorithm)
  (name_ptr : option string) : option BalancerAlgorithm :=
  match name_ptr with
  | None => None
  | Some wanted => find_in registry wanted
  end.

Definition balancer_find (name_ptr : option string) : option BalancerAlgorithm :=
  balancer_find_in algorithms name_ptr.

Definition balancer_list_all : list BalancerAlgorithm := algorithms.

End Registry.

(** ** The registry that is built with the core directory *)

Module CoreRegistry.

Import Balancer.

Local Open Scope string_scope.

(** Modelled from the spec: the table [algorithms] of the registry that is
    linked with the core directory (balancer_runner.c, balancer_fixed.c,
    balancer_aimd.c).  That registry is not among the sources: the only
    balancer_registry.c stands beside the earlier balancer.h and
    balancer_adaptive.c and lists the adaptive algorithm alone
    ([Registry.algorithms]).  The specification has "a compile-time-known
    ordered list of algorithms, each identified by a unique lowercase ASCII
    name", three variants behind one interface, the first of them the
    adaptive one.  The entries are the algorithm records of the sources;
    the order of the second and the third is not given by the
    specification and nothing below depends on it. *)
Definition algorithms : list BalancerAlgorithm :=
  [ Adaptive.balancer_adaptive; Fixed.balancer_fixed; Aimd.balancer_aimd ].

(** The functions of balancer_registry.c over that table. *)
Definition balancer_get_default : option BalancerAlgorithm :=
  hd_error algorithms.

Definition balancer_find (name_ptr : option string) : option BalancerAlgorithm :=
  Registry.balancer_find_in algorithms name_ptr.

Definition balancer_list_all : list BalancerAlgorithm := algorithms.



End CoreRegistry.

(** ** config.h, config.c: the configuration carrier *)

Module Config.

Record AdaptiveConfig : Type := mkAdaptiveConfig {
  incr_step : Z;
  decr_step : Z;
  incr_interval : Z;
  decr_interval : Z;
  loss_threshold : float
}.

Record AimdConfig : Type := mkAimdConfig {
  aimd_incr_step : Z;
  decr_mult : float;
  aimd_incr_interval : Z;
  aimd_decr_interval : Z
}.

(** [BelacoderConfig]; bitrates are in Kbps. *)
Record BelacoderConfig : Type := mkBelacoderConfig {
  min_bitrate : Z;
  max_bitrate : Z;
  balancer : string;
  srt_latency : Z;
  stream_id : string;
  adaptive : AdaptiveConfig;
  aimd : AimdConfig
}.

Definition config_init_defaults : BelacoderConfig :=
  {| min_bitrate := 300;
     max_bitrate := 6000;
     balancer := "adaptive";
     srt_latency := 2000;
     stream_id := "";
     adaptive :=
       {| incr_step := 30; decr_step := 100; incr_interval := 500;
          decr_interval := 200; loss_threshold := 0.5 |};
     aimd :=
       {| aimd_incr_step := 50; decr_mult := 0.75; aimd_incr_interval := 500;
          aimd_decr_interval := 200 |} |}.

(** [config_bitrate_bps]: [kbps * 1000] in [int]. *)
Definition config_bitrate_bps (kbps : Z) : Z := CInt.to_int (kbps * 1000).

End Config.

(** ** balancer_runner.c: the runner *)

Module Runner.

Import Balancer Registry.

(** What [runner->state] can hold: a state of the selected algorithm or
    [NULL]; with no algorithm selected it is [NULL]. *)
Definition state_ptr (algo : option BalancerAlgorithm) : Type :=
  match algo with
  | Some a => option (state_t a)
  | None => unit
  end.

Record BalancerRunner : Type := mkBalancerRunner {
  algo : option BalancerAlgorithm;
  state : state_ptr algo;
  config : BalancerConfig
}.

(** [balancer_runner_init]: the return code and the runner as it leaves it.
    [cfg->balancer] is an array and never [NULL]; the override may be.  An
    unknown override returns -1 before the configuration is touched.  (The
    registry is not empty, so the default exists; the model answers -1 as
    well where C would dereference a [NULL] default.) *)
Definition balancer_runner_init (runner : BalancerRunner)
  (cfg : Config.BelacoderConfig) (algo_name_override : option string)
  (srt_latency_arg srt_pkt_size_arg : Z) : Z * BalancerRunner :=
  let algo_name :=
    match algo_name_override with
    | Some n => n
    | None => Config.balancer cfg
    end in
  let unselected := {| algo := None; state := tt; config := config runner |} in
  let selected :=
    match balancer_find (Some algo_name) with
    | Some a => Some a
    | None =>
        match algo_name_override with
        | Some _ => None
        | None => balancer_get_default
        end
    end in
  match selected with
  | None => (-1, unselected)
  | Some a =>
      let config' :=
        {| min_bitrate := Config.config_bitrate_bps (Config.min_bitrate cfg);
           max_bitrate := Config.config_bitrate_bps (Config.max_bitrate cfg);
           srt_latency := srt_latency_arg;
           srt_pkt_size := srt_pkt_size_arg;
           adaptive_incr_step :=
             Config.config_bitrate_bps (Config.incr_step (Config.adaptive cfg));
           adaptive_decr_step :=
             Config.config_bitrate_bps (Config.decr_step (Config.adaptive cfg));
           adaptive_incr_interval := Config.incr_interval (Config.adaptive cfg);
           adaptive_decr_interval := Config.decr_interval (Config.adaptive cfg);
           aimd_incr_step :=
             Config.config_bitrate_bps (Config.aimd_incr_step (Config.aimd cfg));
           aimd_decr_mult := Config.decr_mult (Config.aimd cfg);
           aimd_incr_interval := Config.aimd_incr_interval (Config.aimd cfg);
           aimd_decr_interval := Config.aimd_decr_interval (Config.aimd cfg) |} in
      let st := init a config' in
      let runner' := {| algo := Some a; state := st; config := config' |} in
      match st with
      | None => (-2, runner')
      | Some _ => (0, runner')
      end
  end.

(** [balancer_runner_step]; [None] where the C function would dereference a
    [NULL] algorithm or hand a [NULL] state to [step]. *)
Definition balancer_runner_step (runner : BalancerRunner)
  (input : BalancerInput) : option (BalancerRunner * BalancerOutput) :=
  match algo runner as a return state_ptr a -> _ with
  | Some a => fun st =>
      match st with
      | Some s =>
          let '(s', out) := step a s input in
          Some ({| algo := Some a; state := Some s'; config := config runner |},
                out)
      | None => None
      end
  | None => fun _ => None
  end (state runner).

Definition set_bounds (c : BalancerConfig) (min_br max_br : Z) : BalancerConfig :=
  {| min_bitrate := min_br;
     max_bitrate := max_br;
     srt_latency := srt_latency c;
     srt_pkt_size := srt_pkt_size c;
     adaptive_incr_step := adaptive_incr_step c;
     adaptive_decr_step := adaptive_decr_step c;
     adaptive_incr_interval := adaptive_incr_interval c;
     adaptive_decr_interval := adaptive_decr_interval c;
     aimd_incr_step := aimd_incr_step c;
     aimd_decr_mult := aimd_decr_mult c;
     aimd_incr_interval := aimd_incr_interval c;
     aimd_decr_interval := aimd_decr_interval c |}.

(** [balancer_runner_update_bounds]: both bounds are stored first; then,
    with an algorithm and a state at hand, the state is released and
    initialised again from the updated configuration. *)
Definition balancer_runner_update_bounds (runner : BalancerRunner)
  (min_br max_br : Z) : BalancerRunner :=
  let config' := set_bounds (config runner) min_br max_br in
  match algo runner as a return state_ptr a -> _ with
  | Some a => fun st =>
      match st with
      | Some _ => {| algo := Some a; state := init a config'; config := config' |}
      | None => {| algo := Some a; state := None; config := config' |}
      end
  | None => fun _ => {| algo := None; state := tt; config := config' |}
  end (state runner).

Definition balancer_runner_get_name (runner : BalancerRunner) : string :=
  match algo runner with
  | Some a => name a
  | None => "none"
  end.

Definition balancer_runner_cleanup (runner : BalancerRunner) : BalancerRunner :=
  match algo runner as a return state_ptr a -> _ with
  | Some a => fun _ => {| algo := Some a; state := None; config := config runner |}
  | None => fun _ => {| algo := None; state := tt; config := config runner |}
  end (state runner).

End Runner.

(** ** ceracoder.c: the legacy bitrate file *)

Module Parse.

Import BitrateConst.

Definition LONG_MIN : Z := - 2 ^ 63.
Definition LONG_MAX : Z := 2 ^ 63 - 1.

Definition NUL : ascii := Ascii.zero.

(** [isspace] in the C locale: space, [\t], [\n], [\v], [\f], [\r]. *)
Definition isspace (c : ascii) : bool :=
  let n := Z.of_nat (nat_of_ascii c) in
  (n =? 32) || ((9 <=? n) && (n <=? 13)).

Definition isdigit (c : ascii) : bool :=
  let n := Z.of_nat (nat_of_ascii c) in
  (48 <=? n) && (n <=? 57).

Definition digit_value (c : ascii) : Z := Z.of_nat (nat_of_ascii c) - 48.

(** The white space [parse_long] itself skips after the number:
    [' '], ['\t'], ['\n'], ['\r']. *)
Definition is_trailing_space (c : ascii) : bool :=
  let n := Z.of_nat (nat_of_ascii c) in
  (n =? 32) || (n =? 9) || (n =? 10) || (n =? 13).

(** A C string is read from a [string]: the end of the [string], or a [NUL]
    inside it, is the terminator. *)
Definition at_terminator (s : string) : bool :=
  match s with
  | EmptyString => true
  | String c _ => Ascii.eqb c NUL
  end.

Fixpoint skip_isspace (s : string) : string :=
  match s with
  | String c rest => if isspace c then skip_isspace rest else s
  | EmptyString => s
  end.

(** The digits at the head of [s], accumulated in base 10 onto [acc]: the
    value, how many digits were read, and what follows them. *)
Fixpoint read_digits (s : string) (acc : Z) (count : nat) : Z * nat * string :=
  match s with
  | String c rest =>
      if isdigit c then read_digits rest (acc * 10 + digit_value c) (S count)
      else (acc, count, s)
  | EmptyString => (acc, count, s)
  end.

(** What [strtol(str, &endptr, 10)] leaves behind. *)
Record strtol_result : Type := mkStrtol {
  value : Z;
  endptr : string;
  converted : bool;  (* [endptr != str] *)
  erange : bool      (* [errno == ERANGE] *)
}.

(** [strtol] in base 10, as ISO C specifies it: leading [isspace] characters
    and one optional sign are skipped, then the longest run of digits is
    converted; without a digit nothing is consumed; a value that does not
    fit a [long] saturates and sets [ERANGE]. *)
Definition strtol (str : string) : strtol_result :=
  let s1 := skip_isspace str in
  let '(negative, s2) :=
    match s1 with
    | String c rest =>
        if Ascii.eqb c "-" then (true, rest)
        else if Ascii.eqb c "+" then (false, rest)
        else (false, s1)
    | EmptyString => (false, s1)
    end in
  let '(magnitude, count, rest) := read_digits s2 0 0%nat in
  match count with
  | O => {| value := 0; endptr := str; converted := false; erange := false |}
  | S _ =>
      let exact := if negative then - magnitude else magnitude in
      if exact <? LONG_MIN then
        {| value := LONG_MIN; endptr := rest; converted := true; erange := true |}
      else if LONG_MAX <? exact then
        {| value := LONG_MAX; endptr := rest; converted := true; erange := true |}
      else
        {| value := exact; endptr := rest; converted := true; erange := false |}
  end.

Fixpoint skip_trailing (s : string) : string :=
  match s with
  | String c rest => if is_trailing_space c then skip_trailing rest else s
  | EmptyString => s
  end.

(** [parse_long]: [Some val] where the C function stores [val] in [*result]
    and returns 0, [None] where it returns -1.  [str] is [None] for a [NULL]
    pointer.  [errno] is saved and restored around the call, so the only
    [errno] the function reads is the one [strtol] sets. *)
Definition parse_long (str : option string) (min_val max_val : Z) : option Z :=
  match str with
  | None => None
  | Some s =>
      if at_terminator s then None
      else
        let r := strtol s in
        if erange r || negb (converted r) then None
        else
          let tail := skip_trailing (endptr r) in
          if negb (at_terminator tail) then None
          else if (value r <? min_val) || (max_val <? value r) then None
          else Some (value r)
  end.

(** [parse_bitrate]: the bitrate, or -1. *)
Definition parse_bitrate (bitrate_string : option string) : Z :=
  match parse_long bitrate_string MIN_BITRATE ABS_MAX_BITRATE with
  | None => -1
  | Some bitrate => CInt.to_int bitrate
  end.

End Parse.


(** ** Runs, scenarios and the vocabulary of the properties *)

Module Trace.

Import Balancer.

(** The outputs of successive [step] calls of algorithm [a], from state [s]. *)
Fixpoint run (a : BalancerAlgorithm) (s : state_t a)
  (inputs : list BalancerInput) : list BalancerOutput :=
  match inputs with
  | [] => []
  | i :: rest => snd (step a s i) :: run a (fst (step a s i)) rest
  end.

(** The state each of those calls leaves. *)
Fixpoint states (a : BalancerAlgorithm) (s : state_t a)
  (inputs : list BalancerInput) : list (state_t a) :=
  match inputs with
  | [] => []
  | i :: rest => fst (step a s i) :: states a (fst (step a s i)) rest
  end.

(** The three algorithm definitions of the sources, registered or not. *)
Definition all_variants : list BalancerAlgorithm :=
  [ Adaptive.balancer_adaptive; Aimd.balancer_aimd; Fixed.balancer_fixed ].

(** A list of integers that never goes down. *)
Fixpoint nondecreasing (l : list Z) : bool :=
  match l with
  | x :: (y :: _) as tail => (x <=? y) && nondecreasing tail
  | _ => true
  end.

(** Timestamps a caller can pass without the deadline sums leaving
    [uint64_t]: each is a [uint64_t] with room for an [int] above it. *)
Definition timestamp_ok (i : BalancerInput) : Prop :=
  0 <= timestamp i /\ timestamp i + CInt.INT_MAX < CInt.UINT64_MOD.

(** The four intervals of a configuration are C [int]s. *)
Definition intervals_fit (cfg : BalancerConfig) : Prop :=
  adaptive_incr_interval cfg <= CInt.INT_MAX
  /\ adaptive_decr_interval cfg <= CInt.INT_MAX
  /\ aimd_incr_interval cfg <= CInt.INT_MAX
  /\ aimd_decr_interval cfg <= CInt.INT_MAX.

(** The deadlines stored in a state of the adaptive algorithm. *)
Definition adaptive_next_incr (s : Adaptive.AdaptiveState) : Z :=
  BitrateControl.next_bitrate_incr (Adaptive.ctx s).
Definition adaptive_next_decr (s : Adaptive.AdaptiveState) : Z :=
  BitrateControl.next_bitrate_decr (Adaptive.ctx s).

(** One output under the bounds [lo] and [hi]: a multiple of 100 000,
    between [lo] rounded down and [hi], and at least [lo] when [lo] is a
    multiple of 100 000 itself. *)
Definition rounded_and_bounded (lo hi : Z) (o : BalancerOutput) : Prop :=
  (100000 | new_bitrate o)
  /\ BitrateConst.round_100k lo <= new_bitrate o <= hi
  /\ ((100000 | lo) -> lo <= new_bitrate o).

(** [ratio_in_percent new prev lo hi]: [lo/100 <= new/prev <= hi/100], for a
    positive [prev]. *)
Definition ratio_in_percent (new prev lo hi : Z) : Prop :=
  lo * prev <= 100 * new /\ 100 * new <= hi * prev.

(** The band of the specification around a multiplier [m], evaluated on
    doubles: [m - 0.15 <= new / prev <= m + 0.10]. *)
Definition ratio_in_band (new prev : Z) (m : float) : bool :=
  let ratio := (CDouble.of_int new / CDouble.of_int prev)%float in
  CDouble.ge ratio (m - 0.15)%float && CDouble.ge (m + 0.10)%float ratio.

End Trace.

Module Scenario.

Import Balancer.

(** The algorithm configuration the runner composes from the defaults of
    config.c with the given bounds (bps) and latency, packets of 1316 bytes. *)
Definition config_with (min_br max_br latency : Z) : BalancerConfig :=
  {| min_bitrate := min_br;
     max_bitrate := max_br;
     srt_latency := latency;
     srt_pkt_size := 1316;
     adaptive_incr_step := 30000;
     adaptive_decr_step := 100000;
     adaptive_incr_interval := 500;
     adaptive_decr_interval := 200;
     aimd_incr_step := 50000;
     aimd_decr_mult := 0.75;
     aimd_incr_interval := 500;
     aimd_decr_interval := 200 |}.

(** The same configuration with another adaptive decrease interval. *)
Definition with_adaptive_decr_interval (cfg : BalancerConfig) (d : Z)
  : BalancerConfig :=
  {| min_bitrate := min_bitrate cfg;
     max_bitrate := max_bitrate cfg;
     srt_latency := srt_latency cfg;
     srt_pkt_size := srt_pkt_size cfg;
     adaptive_incr_step := adaptive_incr_step cfg;
     adaptive_decr_step := adaptive_decr_step cfg;
     adaptive_incr_interval := adaptive_incr_interval cfg;
     adaptive_decr_interval := d;
     aimd_incr_step := aimd_incr_step cfg;
     aimd_decr_mult := aimd_decr_mult cfg;
     aimd_incr_interval := aimd_incr_interval cfg;
     aimd_decr_interval := aimd_decr_interval cfg |}.

(** A host configuration with another [[adaptive] loss_threshold]. *)
Definition with_loss_threshold (cfg : Config.BelacoderConfig) (x : float)
  : Config.BelacoderConfig :=
  {| Config.min_bitrate := Config.min_bitrate cfg;
     Config.max_bitrate := Config.max_bitrate cfg;
     Config.balancer := Config.balancer cfg;
     Config.srt_latency := Config.srt_latency cfg;
     Config.stream_id := Config.stream_id cfg;
     Config.adaptive :=
       {| Config.incr_step := Config.incr_step (Config.adaptive cfg);
          Config.decr_step := Config.decr_step (Config.adaptive cfg);
          Config.incr_interval := Config.incr_interval (Config.adaptive cfg);
          Config.decr_interval := Config.decr_interval (Config.adaptive cfg);
          Config.loss_threshold := x |};
     Config.aimd := Config.aimd cfg |}.

(** A sample with [rtt = 30], [bs = 10] and the given loss counter. *)
Definition lossy_sample (lost : Z) (t : Z) : BalancerInput :=
  {| buffer_size := 10;
     rtt := 30.0;
     send_rate_mbps := 5.0;
     timestamp := t;
     pkt_loss_total := lost;
     pkt_retrans_total := 0 |}.

(** A sample without loss. *)
Definition sample (bs_pkts : Z) (rtt_ms rate : float) (t : Z) : BalancerInput :=
  {| buffer_size := bs_pkts;
     rtt := rtt_ms;
     send_rate_mbps := rate;
     timestamp := t;
     pkt_loss_total := 0;
     pkt_retrans_total := 0 |}.

(** The context [adaptive_init] builds for [config_with]. *)
Definition context_with (min_br max_br latency : Z)
  : BitrateControl.BitrateContext :=
  BitrateControl.bitrate_context_init min_br max_br latency 1316
    30000 100000 500 200.

(** The AIMD state [aimd_init] builds for [config_with]. *)
Definition aimd_state_with (min_br max_br latency : Z) : Aimd.AimdState :=
  {| Aimd.min_bitrate := min_br;
     Aimd.max_bitrate := max_br;
     Aimd.cur_bitrate := max_br;
     Aimd.srt_latency := latency;
     Aimd.incr_step := 50000;
     Aimd.decr_mult := 0.75;
     Aimd.incr_interval := 500;
     Aimd.decr_interval := 200;
     Aimd.rtt_baseline := 0.0;
     Aimd.next_incr := 0;
     Aimd.next_decr := 0 |}.

(** Scenario S4: ten good ticks 500 ms apart, one more reading at the last
    timestamp, then one congested tick 250 ms later. *)
Definition s4_inputs : list BalancerInput :=
  map (fun k => sample 10 30.0 5.0 (1000 + 500 * k)) [1; 2; 3; 4; 5; 6; 7; 8; 9; 10]
  ++ [sample 10 30.0 5.0 6000; sample 200 500.0 5.0 6250].

(** A runner nothing has initialised yet. *)
Definition blank_runner : Runner.BalancerRunner :=
  {| Runner.algo := None;
     Runner.state := tt;
     Runner.config := config_with 0 0 0 |}.

(** The runner [balancer_runner_init] leaves for the configuration
    defaults, latency 2000 ms, packets of 1316 bytes. *)
Definition default_runner : Runner.BalancerRunner :=
  snd (Runner.balancer_runner_init blank_runner Config.config_init_defaults
         None 2000 1316).

End Scenario.

(** ** Doubles as exact numbers *)

Module Exact.

Import QArith_base.

Local Open Scope Q_scope.

(** The rational number that a finite double stands for. *)
Definition to_Q (x : float) : option Q :=
  match Prim2SF x with
  | S754_zero _ => Some 0
  | S754_finite s m e =>
      let mag := if (0 <=? e)%Z then inject_Z (Zpos m * 2 ^ e)
                 else Zpos m # Z.to_pos (2 ^ (- e)) in
      Some (if s then - mag else mag)
  | S754_infinity _ => None
  | S754_nan => None
  end.

(** [x] is finite and stands for the rational [q]. *)
Definition stands_for (x : float) (q : Q) : Prop :=
  match to_Q x with
  | Some v => v == q
  | None => False
  end.

(** [lo <= new / prev <= hi], for a positive [prev]. *)
Definition ratio_between (new prev : Z) (lo hi : Q) : Prop :=
  lo * inject_Z prev <= inject_Z new /\ inject_Z new <= hi * inject_Z prev.

(** The band of the specification around a multiplier [m], on exact
    numbers: [m - 0.15 <= new / prev <= m + 0.10]. *)
Definition ratio_around (new prev : Z) (m : Q) : Prop :=
  ratio_between new prev (m - (15 # 100)) (m + (10 # 100)).

End Exact.

Module DecreaseScenario.

Import Balancer.

(** An algorithm configuration with another [aimd_decr_mult]. *)
Definition with_decr_mult (cfg : BalancerConfig) (x : float) : BalancerConfig :=
  {| min_bitrate := min_bitrate cfg;
     max_bitrate := max_bitrate cfg;
     srt_latency := srt_latency cfg;
     srt_pkt_size := srt_pkt_size cfg;
     adaptive_incr_step := adaptive_incr_step cfg;
     adaptive_decr_step := adaptive_decr_step cfg;
     adaptive_incr_interval := adaptive_incr_interval cfg;
     adaptive_decr_interval := adaptive_decr_interval cfg;
     aimd_incr_step := aimd_incr_step cfg;
     aimd_decr_mult := x;
     aimd_incr_interval := aimd_incr_interval cfg;
     aimd_decr_interval := aimd_decr_interval cfg |}.

(** The state [aimd_init] builds for a configuration. *)
Definition aimd_state_of (cfg : BalancerConfig) : Aimd.AimdState :=
  match Aimd.aimd_init cfg with
  | Some s => s
  | None => Scenario.aimd_state_with 0 0 0
  end.

End DecreaseScenario.

Module Grammar.

Import Parse BitrateConst.

Local Open Scope string_scope.

(** Every character of [s] satisfies [p]. *)
Fixpoint all_chars (p : ascii -> bool) (s : string) : bool :=
  match s with
  | EmptyString => true
  | String c rest => p c && all_chars p rest
  end.

(** The first character of [s] exists and satisfies [p]. *)
Definition starts_with (p : ascii -> bool) (s : string) : bool :=
  match s with
  | String c _ => p c
  | EmptyString => false
  end.

(** The number [acc] becomes when the decimal digits are appended to it. *)
Definition digits_onto (acc : Z) (digits : string) : Z :=
  fold_left (fun a c => a * 10 + digit_value c)
    (list_ascii_of_string digits) acc.

(** The number a string of decimal digits denotes. *)
Definition decimal_value (digits : string) : Z := digits_onto 0 digits.

(** The strings [parse_bitrate] turns into [v]: white space that [strtol]
    skips, an optional ['+'], a non-empty run of digits denoting [v], then
    spaces, tabs, newlines or carriage returns up to the terminator, with
    [v] between [MIN_BITRATE] and [ABS_MAX_BITRATE]. *)
Definition accepted (s : string) (v : Z) : Prop :=
  exists lead plus digits trail rest,
    s = lead ++ plus ++ digits ++ trail ++ rest
    /\ all_chars isspace lead = true
    /\ (plus = "" \/ plus = "+")
    /\ digits <> ""
    /\ all_chars isdigit digits = true
    /\ all_chars is_trailing_space trail = true
    /\ at_terminator rest = true
    /\ v = decimal_value digits
    /\ MIN_BITRATE <= v <= ABS_MAX_BITRATE.

(** The form the specification names: a decimal integer (read generously:
    with an optional sign), optionally followed by white space, with its
    value in range. *)
Definition decimal_then_space (s : string) (v : Z) : Prop :=
  exists sign digits trail,
    s = sign ++ digits ++ trail
    /\ (sign = "" \/ sign = "+" \/ sign = "-")
    /\ digits <> ""
    /\ all_chars isdigit digits = true
    /\ all_chars isspace trail = true
    /\ v = (if String.eqb sign "-" then - decimal_value digits
            else decimal_value digits)
    /\ MIN_BITRATE <= v <= ABS_MAX_BITRATE.

End Grammar.

(** ** The decision ladder of [bitrate_update], read from what a tick leaves *)

Module Ladder.

Import CInt BitrateConst BitrateControl.

(** The arm of the [if]/[else if] chain of [bitrate_update] that a tick
    took, computed from the context before the tick ([ctx]), the context
    after it ([ctx']: its loss rate and RTT delta are the ones the chain
    tests), the numbers the tick publishes in its [BitrateResult] and the
    timestamp. *)
Definition taken (ctx ctx' : BitrateContext) (res : BitrateResult)
  (timestamp : Z) : Branch :=
  let loss := CDouble.gt (loss_rate ctx') LOSS_RATE_THRESHOLD in
  if (min_bitrate ctx <? cur_bitrate ctx)
     && ((cdiv (srt_latency ctx) 3 <=? rtt res) || (bs_th3 res <? bs res))
  then Emergency
  else if (next_bitrate_decr ctx <? timestamp)
     && ((cdiv (srt_latency ctx) 5 <? rtt res) || (bs_th2 res <? bs res) || loss)
  then Heavy
  else if (next_bitrate_decr ctx <? timestamp)
     && ((rtt_th_max res <? rtt res) || (bs_th1 res <? bs res))
  then Light
  else if (next_bitrate_incr ctx <? timestamp)
     && (rtt res <? rtt_th_min res)
     && CDouble.lt (rtt_avg_delta ctx') RTT_STABLE_DELTA
     && negb loss
  then Grow
  else Hold.

(** A context as [bitrate_context_init] and [bitrate_update] keep it when
    the bounds are ordered: the bitrate between non-negative bounds, the
    steps positive, everything a C [int]. *)
Definition well_formed (ctx : BitrateContext) : Prop :=
  0 <= min_bitrate ctx /\ min_bitrate ctx <= cur_bitrate ctx
  /\ cur_bitrate ctx <= max_bitrate ctx /\ max_bitrate ctx <= INT_MAX
  /\ 0 < incr_step ctx <= INT_MAX /\ 0 < decr_step ctx <= INT_MAX.


End Ladder.

(** ** cli_options.c, ceracoder.c: what [parse_long] accepts *)

Module LongGrammar.

Import Parse Grammar.

Local Open Scope string_scope.
Local Open Scope Z_scope.

(** The number a sign and a string of decimal digits denote. *)
Definition signed_value (sign digits : string) : Z :=
  if String.eqb sign "-" then - decimal_value digits else decimal_value digits.

(** The strings [parse_long] turns into [v] under the bounds [lo] and [hi]:
    white space that [strtol] skips, an optional sign, a non-empty run of
    digits, then spaces, tabs, newlines or carriage returns up to the
    terminator; the number fits a [long] and lies within the bounds. *)
Definition parsed (s : string) (lo hi v : Z) : Prop :=
  exists lead sign digits trail rest,
    s = lead ++ sign ++ digits ++ trail ++ rest
    /\ all_chars isspace lead = true
    /\ (sign = "" \/ sign = "+" \/ sign = "-")
    /\ digits <> ""
    /\ all_chars isdigit digits = true
    /\ all_chars is_trailing_space trail = true
    /\ at_terminator rest = true
    /\ v = signed_value sign digits
    /\ LONG_MIN <= v <= LONG_MAX
    /\ lo <= v <= hi.

(** What [strtol] answers once it has read a number: the number, or the
    end of the range of [long] that it passes, with [ERANGE]. *)
Definition strtol_answer (exact : Z) (tail : string) : strtol_result :=
  if exact <? LONG_MIN then
    {| value := LONG_MIN; endptr := tail; converted := true; erange := true |}
  else if LONG_MAX <? exact then
    {| value := LONG_MAX; endptr := tail; converted := true; erange := true |}
  else
    {| value := exact; endptr := tail; converted := true; erange := false |}.

(** The ranges of cli_options.c. *)
Definition MAX_AV_DELAY : Z := 10000.
Definition MIN_SRT_LATENCY : Z := 100.
Definition MAX_SRT_LATENCY : Z := 10000.
Definition DEF_SRT_LATENCY : Z := 2000.

End LongGrammar.

(** ** gst/encoder_control.c: the encoder's bitrate property *)

Module EncoderControl.

Import CInt.

(** A pipeline, as far as this module looks into it: the names of its
    elements. *)
Definition GstPipeline : Type := list string.

(** [gst_bin_get_by_name] followed by [GST_IS_ELEMENT]: the element of that
    name, if the pipeline has one. *)
Definition gst_bin_get_by_name (pipeline : GstPipeline) (wanted : string)
  : option string :=
  if existsb (String.eqb wanted) pipeline then Some wanted else None.

Record EncoderControl : Type := mkEncoderControl {
  element : option string;
  bitrate_div : Z;
  current_bitrate : Z
}.

(** [encoder_control_init]: the return code and the structure it fills. *)
Definition encoder_control_init (pipeline : GstPipeline)
  : Z * EncoderControl :=
  match gst_bin_get_by_name pipeline "venc_bps" with
  | Some e =>
      (0, {| element := Some e; bitrate_div := 1; current_bitrate := 0 |})
  | None =>
      match gst_bin_get_by_name pipeline "venc_kbps" with
      | Some e =>
          (0, {| element := Some e; bitrate_div := 1000; current_bitrate := 0 |})
      | None =>
          (-1, {| element := None; bitrate_div := 1000; current_bitrate := 0 |})
      end
  end.

(** [encoder_control_set_bitrate]: the return code, the structure after the
    call and the value [g_object_set] writes to the element's ["bps"]
    property, if the call writes one. *)
Definition encoder_control_set_bitrate (enc : EncoderControl) (bitrate_bps : Z)
  : Z * EncoderControl * option Z :=
  match element enc with
  | None => (-1, enc, None)
  | Some _ =>
      if negb (bitrate_bps =? current_bitrate enc) then
        (0,
         {| element := element enc;
            bitrate_div := bitrate_div enc;
            current_bitrate := bitrate_bps |},
         Some (cdiv bitrate_bps (bitrate_div enc)))
      else (0, enc, None)
  end.

Definition encoder_control_available (enc : EncoderControl) : Z :=
  match element enc with
  | Some _ => 1
  | None => 0
  end.

(** Successive [encoder_control_set_bitrate] calls: the structure they
    leave and the values written, in order. *)
Fixpoint set_bitrates (enc : EncoderControl) (requests : list Z)
  : EncoderControl * list Z :=
  match requests with
  | [] => (enc, [])
  | b :: rest =>
      let '(_, enc', written) := encoder_control_set_bitrate enc b in
      let '(enc'', later) := set_bitrates enc' rest in
      (enc'',
       match written with
       | Some w => w :: later
       | None => later
       end)
  end.

(** The requests that differ from the one before them, [prev] standing
    before the first. *)
Fixpoint changes (prev : Z) (requests : list Z) : list Z :=
  match requests with
  | [] => []
  | b :: rest => if b =? prev then changes prev rest else b :: changes b rest
  end.

(** No two neighbours of the list are equal. *)
Fixpoint no_repeat (l : list Z) : bool :=
  match l with
  | x :: (y :: _) as tail => negb (x =? y) && no_repeat tail
  | _ => true
  end.

End EncoderControl.

(** ** config.c: the configuration file *)

Module ConfigFile.

Import CInt Parse Config.

Definition newline : ascii := "010"%char.

(** The C string a buffer holds: its bytes up to the first [NUL]. *)
Fixpoint c_str (buffer : string) : string :=
  match buffer with
  | EmptyString => EmptyString
  | String c rest => if Ascii.eqb c NUL then EmptyString else String c (c_str rest)
  end.

(** [fgets(line, size, f)] on what is left of the stream: at most [room]
    characters, the newline that ends them included; and what it leaves. *)
Fixpoint fgets_read (room : nat) (stream : string) : string * string :=
  match room with
  | O => (EmptyString, stream)
  | S room' =>
      match stream with
      | EmptyString => (EmptyString, EmptyString)
      | String c rest =>
          if Ascii.eqb c newline then (String c EmptyString, rest)
          else
            let '(line, remaining) := fgets_read room' rest in
            (String c line, remaining)
      end
  end.

(** [fgets]: [None] at the end of the stream, where the C function returns
    [NULL]. *)
Definition fgets (size : nat) (stream : string) : option (string * string) :=
  match stream with
  | EmptyString => None
  | String _ _ => Some (fgets_read (size - 1) stream)
  end.

(** The second loop of [trim], from the character after the first: trailing
    white space goes. *)
Fixpoint strip_end (s : string) : string :=
  match s with
  | EmptyString => EmptyString
  | String c rest =>
      match strip_end rest with
      | EmptyString => if isspace c then EmptyString else String c EmptyString
      | String _ _ as kept => String c kept
      end
  end.

(** [trim]: leading white space is skipped; of what is left, the loop from
    the end stops at the first character at the latest. *)
Definition trim (str : string) : string :=
  match skip_isspace str with
  | EmptyString => EmptyString
  | String c rest => String c (strip_end rest)
  end.

(** [strchr(s, c)] followed by [*p = '\0']: the text before the first [c]
    and the text after it. *)
Fixpoint split_at (c : ascii) (s : string) : option (string * string) :=
  match s with
  | EmptyString => None
  | String d rest =>
      if Ascii.eqb d c then Some (EmptyString, rest)
      else
        match split_at c rest with
        | Some (before, after) => Some (String d before, after)
        | None => None
        end
  end.

(** What [strncpy(dst, src, n)] makes of a destination whose byte [n] is
    [NUL]: the first [n] characters of [src].  Both destinations of config.c
    are such: [section] is initialised as a whole, [cfg->balancer] is
    cleared by [config_init_defaults], and no copy reaches the last byte. *)
Fixpoint strncpy (n : nat) (src : string) : string :=
  match n, src with
  | S n', String c rest => String c (strncpy n' rest)
  | _, _ => EmptyString
  end.

(** [atoi], as the C library implements it: [(int) strtol(nptr, NULL, 10)]. *)
Definition atoi (nptr : string) : Z := to_int (value (strtol nptr)).

Definition set_adaptive (cfg : BelacoderConfig) (a : AdaptiveConfig)
  : BelacoderConfig :=
  {| min_bitrate := min_bitrate cfg;
     max_bitrate := max_bitrate cfg;
     balancer := balancer cfg;
     srt_latency := srt_latency cfg;
     stream_id := stream_id cfg;
     adaptive := a;
     aimd := aimd cfg |}.

Definition set_aimd (cfg : BelacoderConfig) (a : AimdConfig) : BelacoderConfig :=
  {| min_bitrate := min_bitrate cfg;
     max_bitrate := max_bitrate cfg;
     balancer := balancer cfg;
     srt_latency := srt_latency cfg;
     stream_id := stream_id cfg;
     adaptive := adaptive cfg;
     aimd := a |}.

Section Libc.

(** [atof] of the C library; the model leaves open what it makes of a
    string. *)
Variable atof : string -> float.

Local Open Scope string_scope.

(** [parse_line]: one [key = value] pair within a section. *)
Definition parse_line (cfg : BelacoderConfig) (section key val : string)
  : BelacoderConfig :=
  if String.eqb section "general" then
    if String.eqb key "min_bitrate" then
      {| min_bitrate := atoi val;
         max_bitrate := max_bitrate cfg;
         balancer := balancer cfg;
         srt_latency := srt_latency cfg;
         stream_id := stream_id cfg;
         adaptive := adaptive cfg;
         aimd := aimd cfg |}
    else if String.eqb key "max_bitrate" then
      {| min_bitrate := min_bitrate cfg;
         max_bitrate := atoi val;
         balancer := balancer cfg;
         srt_latency := srt_latency cfg;
         stream_id := stream_id cfg;
         adaptive := adaptive cfg;
         aimd := aimd cfg |}
    else if String.eqb key "balancer" then
      {| min_bitrate := min_bitrate cfg;
         max_bitrate := max_bitrate cfg;
         balancer := strncpy 31 val;
         srt_latency := srt_latency cfg;
         stream_id := stream_id cfg;
         adaptive := adaptive cfg;
         aimd := aimd cfg |}
    else cfg
  else if String.eqb section "srt" then
    if String.eqb key "latency" then
      {| min_bitrate := min_bitrate cfg;
         max_bitrate := max_bitrate cfg;
         balancer := balancer cfg;
         srt_latency := atoi val;
         stream_id := stream_id cfg;
         adaptive := adaptive cfg;
         aimd := aimd cfg |}
    else cfg
  else if String.eqb section "adaptive" then
    let a := adaptive cfg in
    if String.eqb key "incr_step" then
      set_adaptive cfg
        {| incr_step := atoi val;
           decr_step := decr_step a;
           incr_interval := incr_interval a;
           decr_interval := decr_interval a;
           loss_threshold := loss_threshold a |}
    else if String.eqb key "decr_step" then
      set_adaptive cfg
        {| incr_step := incr_step a;
           decr_step := atoi val;
           incr_interval := incr_interval a;
           decr_interval := decr_interval a;
           loss_threshold := loss_threshold a |}
    else if String.eqb key "incr_interval" then
      set_adaptive cfg
        {| incr_step := incr_step a;
           decr_step := decr_step a;
           incr_interval := atoi val;
           decr_interval := decr_interval a;
           loss_threshold := loss_threshold a |}
    else if String.eqb key "decr_interval" then
      set_adaptive cfg
        {| incr_step := incr_step a;
           decr_step := decr_step a;
           incr_interval := incr_interval a;
           decr_interval := atoi val;
           loss_threshold := loss_threshold a |}
    else if String.eqb key "loss_threshold" then
      set_adaptive cfg
        {| incr_step := incr_step a;
           decr_step := decr_step a;
           incr_interval := incr_interval a;
           decr_interval := decr_interval a;
           loss_threshold := atof val |}
    else cfg
  else if String.eqb section "aimd" then
    let a := aimd cfg in
    if String.eqb key "incr_step" then
      set_aimd cfg
        {| aimd_incr_step := atoi val;
           decr_mult := decr_mult a;
           aimd_incr_interval := aimd_incr_interval a;
           aimd_decr_interval := aimd_decr_interval a |}
    else if String.eqb key "decr_mult" then
      set_aimd cfg
        {| aimd_incr_step := aimd_incr_step a;
           decr_mult := atof val;
           aimd_incr_interval := aimd_incr_interval a;
           aimd_decr_interval := aimd_decr_interval a |}
    else if String.eqb key "incr_interval" then
      set_aimd cfg
        {| aimd_incr_step := aimd_incr_step a;
           decr_mult := decr_mult a;
           aimd_incr_interval := atoi val;
           aimd_decr_interval := aimd_decr_interval a |}
    else if String.eqb key "decr_interval" then
      set_aimd cfg
        {| aimd_incr_step := aimd_incr_step a;
           decr_mult := decr_mult a;
           aimd_incr_interval := aimd_incr_interval a;
           aimd_decr_interval := atoi val |}
    else cfg
  else cfg.

(** The body of the loop of [config_load] on one buffer that [fgets]
    filled: the configuration and the current section after it. *)
Definition config_line (cfg : BelacoderConfig) (section line : string)
  : BelacoderConfig * string :=
  let trimmed := trim (c_str line) in
  match trimmed with
  | EmptyString => (cfg, section)
  | String first after_first =>
      if Ascii.eqb first "#" || Ascii.eqb first ";" then (cfg, section)
      else if Ascii.eqb first "[" then
        (* the first ']' of [trimmed] lies after its first character *)
        match split_at "]" after_first with
        | Some (inside, _) => (cfg, strncpy 63 inside)
        | None => (cfg, section)
        end
      else
        match split_at "=" trimmed with
        | Some (before, after) =>
            (parse_line cfg section (trim before) (trim after), section)
        | None => (cfg, section)
        end
  end.

(** The loop of [config_load] over what is left of the file.  Every turn
    takes at least one character, so [fuel] as large as the file never runs
    out. *)
Fixpoint config_load_loop (fuel : nat) (cfg : BelacoderConfig)
  (section stream : string) : option BelacoderConfig :=
  match fgets 512 stream with
  | None => Some cfg
  | Some (line, remaining) =>
      match fuel with
      | O => None
      | S fuel' =>
          let '(cfg', section') := config_line cfg section line in
          config_load_loop fuel' cfg' section' remaining
      end
  end.

(** [config_load]: the return code and the configuration after the call.
    [file] is [None] where [fopen] fails, and the content of the file
    otherwise. *)
Definition config_load (cfg : BelacoderConfig) (file : option string)
  : option (Z * BelacoderConfig) :=
  match file with
  | None => Some (-1, cfg)
  | Some content =>
      match config_load_loop (length content) cfg "general" content with
      | Some cfg' => Some (0, cfg')
      | None => None
      end
  end.

End Libc.

(** No character of [s] is [c]. *)
Fixpoint free_of (c : ascii) (s : string) : bool :=
  match s with
  | EmptyString => true
  | String d rest => negb (Ascii.eqb d c) && free_of c rest
  end.

(** The fields of the configuration that a file assigns, each with the
    value it ends up with; [stream_id] has no key. *)
Record Overrides : Type := mkOverrides {
  o_min_bitrate : option Z;
  o_max_bitrate : option Z;
  o_balancer : option string;
  o_srt_latency : option Z;
  o_adaptive_incr_step : option Z;
  o_adaptive_decr_step : option Z;
  o_adaptive_incr_interval : option Z;
  o_adaptive_decr_interval : option Z;
  o_loss_threshold : option float;
  o_aimd_incr_step : option Z;
  o_decr_mult : option float;
  o_aimd_incr_interval : option Z;
  o_aimd_decr_interval : option Z
}.

Definition pick {A : Type} (assigned : option A) (old : A) : A :=
  match assigned with
  | Some v => v
  | None => old
  end.

(** A configuration with the assigned fields replaced. *)
Definition assign (ov : Overrides) (cfg : BelacoderConfig) : BelacoderConfig :=
  {| min_bitrate := pick (o_min_bitrate ov) (min_bitrate cfg);
     max_bitrate := pick (o_max_bitrate ov) (max_bitrate cfg);
     balancer := pick (o_balancer ov) (balancer cfg);
     srt_latency := pick (o_srt_latency ov) (srt_latency cfg);
     stream_id := stream_id cfg;
     adaptive :=
       {| incr_step := pick (o_adaptive_incr_step ov) (incr_step (adaptive cfg));
          decr_step := pick (o_adaptive_decr_step ov) (decr_step (adaptive cfg));
          incr_interval :=
            pick (o_adaptive_incr_interval ov) (incr_interval (adaptive cfg));
          decr_interval :=
            pick (o_adaptive_decr_interval ov) (decr_interval (adaptive cfg));
          loss_threshold :=
            pick (o_loss_threshold ov) (loss_threshold (adaptive cfg)) |};
     aimd :=
       {| aimd_incr_step := pick (o_aimd_incr_step ov) (aimd_incr_step (aimd cfg));
          decr_mult := pick (o_decr_mult ov) (decr_mult (aimd cfg));
          aimd_incr_interval :=
            pick (o_aimd_incr_interval ov) (aimd_incr_interval (aimd cfg));
          aimd_decr_interval :=
            pick (o_aimd_decr_interval ov) (aimd_decr_interval (aimd cfg)) |} |}.

(** [F] determines the field [p]: it leaves it alone, or gives it a value
    that does not depend on the configuration it starts from. *)
Definition determines {A : Type} (p : BelacoderConfig -> A)
  (F : BelacoderConfig -> BelacoderConfig) : Prop :=
  exists o : option A, forall cfg, p (F cfg) = pick o (p cfg).

(** [F] determines every field and keeps the stream id. *)
Definition fieldwise (F : BelacoderConfig -> BelacoderConfig) : Prop :=
  determines min_bitrate F /\ determines max_bitrate F
  /\ determines balancer F /\ determines srt_latency F
  /\ determines (fun c => incr_step (adaptive c)) F
  /\ determines (fun c => decr_step (adaptive c)) F
  /\ determines (fun c => incr_interval (adaptive c)) F
  /\ determines (fun c => decr_interval (adaptive c)) F
  /\ determines (fun c => loss_threshold (adaptive c)) F
  /\ determines (fun c => aimd_incr_step (aimd c)) F
  /\ determines (fun c => decr_mult (aimd c)) F
  /\ determines (fun c => aimd_incr_interval (aimd c)) F
  /\ determines (fun c => aimd_decr_interval (aimd c)) F
  /\ (forall c, stream_id (F c) = stream_id c).

(** The keys that [parse_line] reads with [atoi]: section, key and the
    field that takes the number. *)
Definition integer_keys : list (string * string * (BelacoderConfig -> Z)) :=
  [ ("general", "min_bitrate", min_bitrate);
    ("general", "max_bitrate", max_bitrate);
    ("srt", "latency", srt_latency);
    ("adaptive", "incr_step", fun c => incr_step (adaptive c));
    ("adaptive", "decr_step", fun c => decr_step (adaptive c));
    ("adaptive", "incr_interval", fun c => incr_interval (adaptive c));
    ("adaptive", "decr_interval", fun c => decr_interval (adaptive c));
    ("aimd", "incr_step", fun c => aimd_incr_step (aimd c));
    ("aimd", "incr_interval", fun c => aimd_incr_interval (aimd c));
    ("aimd", "decr_interval", fun c => aimd_decr_interval (aimd c)) ]%string.

(** The first character of [s] is none of ['#'], [';'] and ['[']. *)
Definition plain_start (s : string) : bool :=
  match s with
  | EmptyString => false
  | String c _ =>
      negb (Ascii.eqb c "#" || Ascii.eqb c ";" || Ascii.eqb c "[")
  end.

Definition no_overrides : Overrides :=
  {| o_min_bitrate := None; o_max_bitrate := None; o_balancer := None;
     o_srt_latency := None; o_adaptive_incr_step := None;
     o_adaptive_decr_step := None; o_adaptive_incr_interval := None;
     o_adaptive_decr_interval := None; o_loss_threshold := None;
     o_aimd_incr_step := None; o_decr_mult := None;
     o_aimd_incr_interval := None; o_aimd_decr_interval := None |}.

Definition later_of {A : Type} (first second : option A) : option A :=
  match second with
  | Some v => Some v
  | None => first
  end.

(** The assignments of [first] followed by those of [second]. *)
Definition followed_by (first second : Overrides) : Overrides :=
  {| o_min_bitrate := later_of (o_min_bitrate first) (o_min_bitrate second);
     o_max_bitrate := later_of (o_max_bitrate first) (o_max_bitrate second);
     o_balancer := later_of (o_balancer first) (o_balancer second);
     o_srt_latency := later_of (o_srt_latency first) (o_srt_latency second);
     o_adaptive_incr_step :=
       later_of (o_adaptive_incr_step first) (o_adaptive_incr_step second);
     o_adaptive_decr_step :=
       later_of (o_adaptive_decr_step first) (o_adaptive_decr_step second);
     o_adaptive_incr_interval :=
       later_of (o_adaptive_incr_interval first) (o_adaptive_incr_interval second);
     o_adaptive_decr_interval :=
       later_of (o_adaptive_decr_interval first) (o_adaptive_decr_interval second);
     o_loss_threshold :=
       later_of (o_loss_threshold first) (o_loss_threshold second);
     o_aimd_incr_step :=
       later_of (o_aimd_incr_step first) (o_aimd_incr_step second);
     o_decr_mult := later_of (o_decr_mult first) (o_decr_mult second);
     o_aimd_incr_interval :=
       later_of (o_aimd_incr_interval first) (o_aimd_incr_interval second);
     o_aimd_decr_interval :=
       later_of (o_aimd_decr_interval first) (o_aimd_decr_interval second) |}.

End ConfigFile.

(** ** ceracoder.c: the bitrate file, the housekeeping timer, start-up *)

Module BitrateFile.

Import Parse Runner.

(** [getline] on what is left of the stream: the text up to and including
    the first newline, or up to the end of the file, and what it leaves;
    [None] at the end of the file, where the C function returns -1. *)
Fixpoint getline (stream : string) : option (string * string) :=
  match stream with
  | EmptyString => None
  | String c rest =>
      if Ascii.eqb c ConfigFile.newline then Some (String c EmptyString, rest)
      else
        match getline rest with
        | Some (line, remaining) => Some (String c line, remaining)
        | None => Some (String c EmptyString, EmptyString)
        end
  end.

(** [read_bitrate_file]: the return code and the runner after the call.
    [file] is [None] where [fopen] fails, and the content of the file
    otherwise. *)
Definition read_bitrate_file (file : option string) (runner : BalancerRunner)
  : Z * BalancerRunner :=
  match file with
  | None => (-1, runner)
  | Some content =>
      match getline content with
      | None => (-2, runner)
      | Some (line0, rest0) =>
          let br0 := parse_bitrate (Some line0) in
          if br0 <? 0 then (-2, runner)
          else
            match getline rest0 with
            | None => (-2, runner)
            | Some (line1, _) =>
                let br1 := parse_bitrate (Some line1) in
                if br1 <? 0 then (-2, runner)
                else (0, balancer_runner_update_bounds runner br0 br1)
            end
      end
  end.

End BitrateFile.

Module Host.

Import CInt Balancer Runner EncoderControl.

Definition SRT_ACK_TIMEOUT : Z := 6000.
Definition TS_PKT_SIZE : Z := 188.
Definition REDUCED_SRT_PKT_SIZE : Z := TS_PKT_SIZE * 6.
Definition DEFAULT_SRT_PKT_SIZE : Z := TS_PKT_SIZE * 7.

(** The fields of [SRT_TRACEBSTATS] that ceracoder.c reads. *)
Record SRT_TRACEBSTATS : Type := mkStats {
  msRTT : float;
  mbpsSendRate : float;
  pktSndLossTotal : Z;
  pktRetransTotal : Z;
  pktRecvACKTotal : Z
}.

(** What the environment hands to one run of [connection_housekeeping]:
    the clock, the statistics ([None] where [srt_client_get_stats] fails),
    and the answer to the [SRTO_SNDDATA] query: its return value and [bs]
    after it (-1 where the call did not write it). *)
Record Tick : Type := mkTick {
  now : Z;
  bstats : option SRT_TRACEBSTATS;
  snddata_ret : Z;
  snddata : Z
}.

(** The globals and function statics that the housekeeping timer works on. *)
Record Globals : Type := mkGlobals {
  encoder_ctrl : EncoderControl;
  balancer_runner : BalancerRunner;
  quit : Z;
  prev_ack_ts : Z;
  prev_ack_count : Z
}.

(** What one run shows to the outside: the decision handed to
    [overlay_ui_update] and the value written to the encoder. *)
Record Effects : Type := mkEffects {
  overlay : option BalancerOutput;
  encoder_write : option Z
}.

Definition no_effects : Effects := {| overlay := None; encoder_write := None |}.

(** [do_bitrate_update]; [None] where [balancer_runner_step] would
    dereference a [NULL] pointer. *)
Definition do_bitrate_update (g : Globals) (stats : SRT_TRACEBSTATS)
  (ctime ret bs_now : Z) : option (Globals * Effects) :=
  if negb (ret =? 0) || (bs_now <? 0) then Some (g, no_effects)
  else
    let input :=
      {| buffer_size := bs_now;
         rtt := msRTT stats;
         send_rate_mbps := mbpsSendRate stats;
         timestamp := ctime;
         pkt_loss_total := pktSndLossTotal stats;
         pkt_retrans_total := pktRetransTotal stats |} in
    match balancer_runner_step (balancer_runner g) input with
    | None => None
    | Some (runner', output) =>
        let '(_, enc', written) :=
          encoder_control_set_bitrate (encoder_ctrl g) (new_bitrate output) in
        Some ({| encoder_ctrl := enc';
                 balancer_runner := runner';
                 quit := quit g;
                 prev_ack_ts := prev_ack_ts g;
                 prev_ack_count := prev_ack_count g |},
              {| overlay := Some output; encoder_write := written |})
    end.

(** [stop]: the first call raises [quit]. *)
Definition stop (quit_now : Z) : Z := if quit_now =? 0 then 1 else quit_now.

(** [connection_housekeeping]. *)
Definition connection_housekeeping (g : Globals) (tick : Tick)
  : option (Globals * Effects) :=
  let ctime := now tick in
  match bstats tick with
  | None => Some (g, no_effects)
  | Some stats =>
      let acks := to_uint64 (pktRecvACKTotal stats) in
      let changed := negb (acks =? prev_ack_count g) in
      let ack_count' := if changed then acks else prev_ack_count g in
      let ack_ts' := if changed then ctime else prev_ack_ts g in
      let timed_out :=
        negb (ack_count' =? 0)
        && (SRT_ACK_TIMEOUT <? to_uint64 (ctime - ack_ts')) in
      let g1 :=
        {| encoder_ctrl := encoder_ctrl g;
           balancer_runner := balancer_runner g;
           quit := if timed_out then stop (quit g) else quit g;
           prev_ack_ts := ack_ts';
           prev_ack_count := ack_count' |} in
      if negb (encoder_control_available (encoder_ctrl g1) =? 0) then
        do_bitrate_update g1 stats ctime (snddata_ret tick) (snddata tick)
      else Some (g1, no_effects)
  end.

(** The timer firing once per tick: the globals at the end and what each
    run showed. *)
Fixpoint housekeeping (g : Globals) (ticks : list Tick)
  : option (Globals * list Effects) :=
  match ticks with
  | [] => Some (g, [])
  | tick :: rest =>
      match connection_housekeeping g tick with
      | None => None
      | Some (g', e) =>
          match housekeeping g' rest with
          | None => None
          | Some (g'', later) => Some (g'', e :: later)
          end
      end
  end.

(** The sample a tick feeds to the balancer, if it feeds one: the
    statistics are at hand and the [SRTO_SNDDATA] query gave a buffer size. *)
Definition sample_of (tick : Tick) : option BalancerInput :=
  match bstats tick with
  | None => None
  | Some stats =>
      if negb (snddata_ret tick =? 0) || (snddata tick <? 0) then None
      else
        Some {| buffer_size := snddata tick;
                rtt := msRTT stats;
                send_rate_mbps := mbpsSendRate stats;
                timestamp := now tick;
                pkt_loss_total := pktSndLossTotal stats;
                pkt_retrans_total := pktRetransTotal stats |}
  end.

Fixpoint samples (ticks : list Tick) : list BalancerInput :=
  match ticks with
  | [] => []
  | tick :: rest =>
      match sample_of tick with
      | Some i => i :: samples rest
      | None => samples rest
      end
  end.

(** The values written to the encoder, in order. *)
Fixpoint encoder_writes (effects : list Effects) : list Z :=
  match effects with
  | [] => []
  | e :: rest =>
      match encoder_write e with
      | Some w => w :: encoder_writes rest
      | None => encoder_writes rest
      end
  end.

(** The static [balancer_runner] before anything has touched it. *)
Definition zero_runner : BalancerRunner :=
  {| algo := None;
     state := tt;
     config :=
       {| min_bitrate := 0;
          max_bitrate := 0;
          srt_latency := 0;
          srt_pkt_size := 0;
          adaptive_incr_step := 0;
          adaptive_decr_step := 0;
          adaptive_incr_interval := 0;
          adaptive_decr_interval := 0;
          aimd_incr_step := 0;
          aimd_decr_mult := 0.0;
          aimd_incr_interval := 0;
          aimd_decr_interval := 0 |} |}.

(** What [main] has set up when it reaches the overlay. *)
Record Started : Type := mkStarted {
  g_config : Config.BelacoderConfig;
  runner : BalancerRunner;
  chosen_latency : Z;
  chosen_pkt_size : Z;
  encoder : EncoderControl;
  first_write : option Z
}.

(** The SRT latency [main] settles on from the command line and the
    configuration. *)
Definition choose_latency (opts_srt_latency cfg_srt_latency : Z) : Z :=
  if negb (opts_srt_latency =? 2000) then opts_srt_latency
  else if 0 <? cfg_srt_latency then cfg_srt_latency else 2000.

Section Libc.

Variable atof : string -> float.

(** [main], from [config_init_defaults] to the first encoder bitrate;
    [None] where it exits.  A file argument is [None] where the option is
    absent, [Some None] where the file cannot be opened. *)
Definition main_configure (opts_srt_latency : Z)
  (opts_balancer_name : option string) (opts_reduced_pkt_size : Z)
  (config_file bitrate_file : option (option string))
  (pipeline : GstPipeline) : option Started :=
  let pkt_size :=
    if negb (opts_reduced_pkt_size =? 0) then REDUCED_SRT_PKT_SIZE
    else DEFAULT_SRT_PKT_SIZE in
  let loaded :=
    match config_file with
    | None => Some Config.config_init_defaults
    | Some f =>
        match ConfigFile.config_load atof Config.config_init_defaults f with
        | Some (ret, cfg) => if ret =? 0 then Some cfg else None
        | None => None
        end
    end in
  match loaded with
  | None => None
  | Some cfg =>
      let after_file :=
        match bitrate_file with
        | None => Some zero_runner
        | Some f =>
            let '(ret, r) := BitrateFile.read_bitrate_file f zero_runner in
            if ret =? 0 then Some r else None
        end in
      match after_file with
      | None => None
      | Some r =>
          let latency :=
            choose_latency opts_srt_latency (Config.srt_latency cfg) in
          let '(ret, r') :=
            balancer_runner_init r cfg opts_balancer_name latency pkt_size in
          if negb (ret =? 0) then None
          else
            let '(_, enc) := encoder_control_init pipeline in
            let '(enc', written) :=
              if negb (encoder_control_available enc =? 0) then
                let '(_, e, w) :=
                  encoder_control_set_bitrate enc
                    (Config.config_bitrate_bps (Config.max_bitrate cfg)) in
                (e, w)
              else (enc, None) in
            Some {| g_config := cfg;
                    runner := r';
                    chosen_latency := latency;
                    chosen_pkt_size := pkt_size;
                    encoder := enc';
                    first_write := written |}
      end
  end.

(** The reload that [stall_check] performs after a [SIGHUP]: the
    configuration and the runner it leaves; [None] never ([config_load]
    returns). *)
Definition reload (cfg : Config.BelacoderConfig) (r : BalancerRunner)
  (config_file bitrate_file : option (option string))
  : option (Config.BelacoderConfig * BalancerRunner) :=
  let after_config :=
    match config_file with
    | None => Some (cfg, r, false)
    | Some f =>
        match ConfigFile.config_load atof cfg f with
        | Some (ret, cfg') =>
            if ret =? 0 then
              Some (cfg',
                    balancer_runner_update_bounds r
                      (Config.config_bitrate_bps (Config.min_bitrate cfg'))
                      (Config.config_bitrate_bps (Config.max_bitrate cfg')),
                    true)
            else Some (cfg', r, false)
        | None => None
        end
    end in
  match after_config with
  | None => None
  | Some (cfg', r', reloaded) =>
      match bitrate_file with
      | Some f =>
          if negb reloaded then
            Some (cfg', snd (BitrateFile.read_bitrate_file f r'))
          else Some (cfg', r')
      | None => Some (cfg', r')
      end
  end.

End Libc.

End Host.

(** ** ceracoder.c: the appsink callback *)

Module Packetizer.

Import CInt.

Inductive GstFlowReturn : Type := GST_FLOW_OK | GST_FLOW_ERROR.

(** The statics of [new_buf_cb] and the sender's side of the connection:
    [pkt] holds the [pkt_len] bytes gathered so far; [calls] lists the
    packets handed to [srt_client_send], each with what the call returned. *)
Record Sender : Type := mkSender {
  pkt : list Byte.byte;
  calls : list (list Byte.byte * Z);
  quit : Z
}.

(** The [do]/[while] loop of [new_buf_cb] on a mapped sample [data] of which
    [sample_sz] bytes remain to be taken.  [net k] is what the call number
    [k] of [srt_client_send] returns.  [None] where [memcpy] would be given
    a negative size, or where the loop does not end within [fuel] turns. *)
Fixpoint send_loop (fuel : nat) (srt_pkt_size : Z) (net : nat -> Z)
  (data : list Byte.byte) (sample_sz : Z) (st : Sender)
  : option (GstFlowReturn * Sender) :=
  match fuel with
  | O => None
  | S fuel' =>
      let pkt_len := Z.of_nat (List.length (pkt st)) in
      let copy_sz := MIN (srt_pkt_size - pkt_len) sample_sz in
      if copy_sz <? 0 then None
      else
        let pkt1 := pkt st ++ firstn (Z.to_nat copy_sz) data in
        let pkt_len1 := pkt_len + copy_sz in
        if pkt_len1 =? srt_pkt_size then
          let nb := net (List.length (calls st)) in
          let calls1 := calls st ++ [(pkt1, nb)] in
          if negb (nb =? srt_pkt_size) then
            Some (GST_FLOW_ERROR,
                  {| pkt := pkt1; calls := calls1; quit := Host.stop (quit st) |})
          else
            let st2 := {| pkt := []; calls := calls1; quit := quit st |} in
            if sample_sz - copy_sz =? 0 then Some (GST_FLOW_OK, st2)
            else send_loop fuel' srt_pkt_size net data (sample_sz - copy_sz) st2
        else
          let st2 := {| pkt := pkt1; calls := calls st; quit := quit st |} in
          if sample_sz - copy_sz =? 0 then Some (GST_FLOW_OK, st2)
          else send_loop fuel' srt_pkt_size net data (sample_sz - copy_sz) st2
  end.

(** [new_buf_cb]; [sample] is [None] where [gst_app_sink_pull_sample]
    returns [NULL].  The loop takes at least one byte in every turn but the
    first, so the fuel given is enough whenever the packet size is
    positive. *)
Definition new_buf_cb (srt_pkt_size : Z) (net : nat -> Z) (st : Sender)
  (sample : option (list Byte.byte)) : option (GstFlowReturn * Sender) :=
  match sample with
  | None => Some (GST_FLOW_ERROR, st)
  | Some data =>
      send_loop (S (S (List.length data))) srt_pkt_size net data
        (to_int (Z.of_nat (List.length data))) st
  end.

(** The packets that [srt_client_send] took whole. *)
Definition delivered (srt_pkt_size : Z) (st : Sender) : list (list Byte.byte) :=
  map fst (filter (fun c => snd c =? srt_pkt_size) (calls st)).

(** A network that takes every packet. *)
Definition reliable (srt_pkt_size : Z) : nat -> Z := fun _ => srt_pkt_size.

End Packetizer.

(** ** ceracoder.c: the PTS fix-up *)

Module PtsFixup.

Import CInt.

Definition GST_SECOND : Z := 1000000000.
Definition AVG_MULT : Z := 1000.
Definition AVG_WEIGHT : Z := 3.
Definition AVG_PREV : Z := AVG_MULT - AVG_WEIGHT.
Definition AVG_ROUNDING : Z := cdiv AVG_MULT 2.

(** The global [pts] ([unsigned long]) and the statics [period] and
    [prev_pts] ([long]) of [cb_ptsfixup]. *)
Record PtsState : Type := mkPtsState {
  pts : Z;
  period : Z;
  prev_pts : Z
}.

(** What the callback leaves on the buffer: its PTS, and whether it is
    flagged droppable.  (The DTS is always set to 0.) *)
Record Stamped : Type := mkStamped {
  buffer_pts : Z;
  droppable : bool
}.

(** The rolling average of the frame period. *)
Definition average_period (period_now input_pts prev : Z) : Z :=
  to_int64
    (cdiv (to_int64 (to_int64 (period_now * AVG_PREV) + AVG_ROUNDING)) AVG_MULT
     + cdiv (to_int64 (to_int64 (to_int64 (input_pts - prev) * AVG_WEIGHT)
                       + AVG_ROUNDING)) AVG_MULT).

(** [cb_ptsfixup] on a buffer whose PTS is [pts_in].  [framerate] is what
    [get_sink_framerate] would answer: the numerator and the denominator,
    or [None] where it fails.  [None] where the C code divides by zero.
    Where a [long] operation leaves its range the model wraps. *)
Definition cb_ptsfixup (st : PtsState) (pts_in : Z) (framerate : option (Z * Z))
  : option (PtsState * Stamped) :=
  let input_pts := to_int64 pts_in in
  if pts st =? 0 then
    match framerate with
    | Some (fr_numerator, fr_denominator) =>
        if fr_numerator =? 0 then None
        else
          Some ({| pts := to_uint64 input_pts;
                   period :=
                     to_int64 (cdiv (to_int64 (GST_SECOND * fr_denominator))
                                 fr_numerator);
                   prev_pts := input_pts |},
                {| buffer_pts := pts_in; droppable := false |})
    | None =>
        Some ({| pts := pts st; period := period st; prev_pts := input_pts |},
              {| buffer_pts := pts_in; droppable := false |})
    end
  else
    let period' := average_period (period st) input_pts (prev_pts st) in
    let diff := to_int64 (input_pts - pts st) in
    if period' =? 0 then None
    else
      let incr :=
        to_int64 (to_int64 (cdiv (to_int64 (cdiv diff 2 + period')) period')
                  * period') in
      if 0 <? incr then
        let pts' := to_uint64 (pts st + incr) in
        Some ({| pts := pts'; period := period'; prev_pts := input_pts |},
              {| buffer_pts := pts'; droppable := false |})
      else
        Some ({| pts := pts st; period := period'; prev_pts := input_pts |},
              {| buffer_pts := pts_in; droppable := true |}).

End PtsFixup.

(** ** Inputs for the examples *)

Module Samples.

Import Balancer Runner EncoderControl Host.

Local Open Scope string_scope.

(** An encoder element that counts in kbps, as [encoder_control_init]
    leaves it. *)
Definition kbps_encoder : EncoderControl :=
  {| element := Some "venc_kbps"; bitrate_div := 1000; current_bitrate := 0 |}.

(** A tick with statistics: RTT 30 ms, 5 Mbps, no loss, the given ACK
    counter, and 10 packets in the send buffer. *)
Definition tick_at (t acks : Z) : Tick :=
  {| now := t;
     bstats :=
       Some {| msRTT := 30.0; mbpsSendRate := 5.0; pktSndLossTotal := 0;
               pktRetransTotal := 0; pktRecvACKTotal := acks |};
     snddata_ret := 0;
     snddata := 10 |}.

(** The globals around a runner, before the first tick. *)
Definition globals_with (enc : EncoderControl) (r : BalancerRunner) : Globals :=
  {| encoder_ctrl := enc;
     balancer_runner := r;
     quit := 0;
     prev_ack_ts := 0;
     prev_ack_count := 0 |}.

(** An encoder without an element. *)
Definition no_encoder : EncoderControl :=
  {| element := None; bitrate_div := 1000; current_bitrate := 0 |}.

(** [n] times the character [c]. *)
Fixpoint filler (n : nat) (c : ascii) : string :=
  match n with
  | O => EmptyString
  | S n' => String c (filler n' c)
  end.

(** An [atof] for the examples: none of them reads a floating-point key. *)
Definition atof_unused : string -> float := fun _ => 0.5%float.

(** Six bytes. *)
Definition six_bytes : list Byte.byte :=
  [Byte.x01; Byte.x02; Byte.x03; Byte.x04; Byte.x05; Byte.x06].

End Samples.

(** Names the four conditions of the decision ladder of [bitrate_update] in
    a goal where the function is unfolded. *)
Ltac name_ladder :=
  match goal with
  | |- context [if ?c then BitrateControl.Emergency else _] => set (c_emergency := c) in *
  end;
  match goal with
  | |- context [if ?c then BitrateControl.Heavy else _] => set (c_heavy := c) in *
  end;
  match goal with
  | |- context [if ?c then BitrateControl.Light else _] => set (c_light := c) in *
  end;
  match goal with
  | |- context [if ?c then BitrateControl.Grow else _] => set (c_grow := c) in *
  end.

(** ** Arithmetic of the clamp and of the rounding *)

Module Facts.

Import CInt BitrateConst.

Lemma min_max_bounds a l h : l <= h -> l <= min_max a l h <= h.
Proof.
  intros Hlh. unfold min_max, MAX, MIN.
  destruct (a <? h) eqn:E1; destruct (l <? _) eqn:E2;
    rewrite ?Z.ltb_lt, ?Z.ltb_ge in *; lia.
Qed.

Lemma min_max_floor a l h : l <= min_max a l h.
Proof.
  unfold min_max, MAX. destruct (l <? MIN a h) eqn:E;
    rewrite ?Z.ltb_lt, ?Z.ltb_ge in *; lia.
Qed.

Lemma min_max_at_min l h : min_max l l h = l.
Proof.
  unfold min_max, MAX, MIN.
  repeat match goal with
         | |- context [if ?b then _ else _] => destruct b eqn:?
         end;
    rewrite ?Z.ltb_lt, ?Z.ltb_ge in *; lia.
Qed.

Lemma MAX_MIN_bounds a l h : l <= h -> l <= MAX l (MIN h a) <= h.
Proof.
  intros Hlh. unfold MAX, MIN.
  destruct (h <? a) eqn:E1; destruct (_ <? l) eqn:E2;
    rewrite ?Z.ltb_lt, ?Z.ltb_ge in *; lia.
Qed.

Lemma MAX_MIN_inside a l h : l <= a <= h -> MAX l (MIN h a) = a.
Proof.
  intros H. unfold MAX, MIN.
  destruct (h <? a) eqn:E1; destruct (_ <? l) eqn:E2;
    rewrite ?Z.ltb_lt, ?Z.ltb_ge in *; lia.
Qed.

Lemma to_int_id z : int_range z -> to_int z = z.
Proof.
  unfold int_range, INT_MIN, INT_MAX, to_int, wrap_signed. intros H.
  change (2 ^ (32 - 1)) with 2147483648. change (2 ^ 32) with 4294967296.
  rewrite Z.mod_small; lia.
Qed.

Lemma to_uint64_id z : 0 <= z < UINT64_MOD -> to_uint64 z = z.
Proof. intros H. unfold to_uint64. apply Z.mod_small. exact H. Qed.

Lemma round_100k_divide x : (100000 | round_100k x).
Proof. unfold round_100k. exists (cdiv x (100 * 1000)). reflexivity. Qed.

Lemma round_100k_nonneg x : 0 <= x -> round_100k x = 100000 * (x / 100000).
Proof.
  intros H. unfold round_100k, cdiv. change (100 * 1000) with 100000.
  rewrite Z.quot_div_nonneg by lia. lia.
Qed.

Lemma round_100k_le x : 0 <= x -> x - 100000 < round_100k x <= x.
Proof.
  intros H. rewrite round_100k_nonneg by exact H.
  pose proof (Z.mod_pos_bound x 100000 ltac:(lia)).
  pose proof (Z.div_mod x 100000 ltac:(lia)). lia.
Qed.

Lemma round_100k_mono x y : 0 <= x <= y -> round_100k x <= round_100k y.
Proof.
  intros H. rewrite !round_100k_nonneg by lia.
  pose proof (Z.div_le_mono x y 100000 ltac:(lia) ltac:(lia)). lia.
Qed.

Lemma round_100k_fix x : (100000 | x) -> round_100k x = x.
Proof.
  intros [k ->]. unfold round_100k, cdiv. change (100 * 1000) with 100000.
  rewrite Z.quot_mul by lia. reflexivity.
Qed.

(** What every algorithm's output satisfies once its set-point is clamped
    between non-negative bounds. *)
Lemma rounded_in_bounds lo hi cur :
  0 <= lo -> lo <= cur <= hi ->
  (100000 | round_100k cur)
  /\ round_100k lo <= round_100k cur <= hi
  /\ ((100000 | lo) -> lo <= round_100k cur).
Proof.
  intros Hlo Hcur.
  assert (Hm : round_100k lo <= round_100k cur) by (apply round_100k_mono; lia).
  pose proof (round_100k_le cur ltac:(lia)) as Hle.
  split; [apply round_100k_divide|]. split; [lia|].
  intros Hd. rewrite (round_100k_fix lo Hd) in Hm. exact Hm.
Qed.

End Facts.

(** ** Every decision is rounded and bounded *)

Section Runs.

Import Balancer Trace.

Variable a : BalancerAlgorithm.
Variable Inv : state_t a -> Prop.
Variable P : BalancerOutput -> Prop.
Hypothesis step_ok :
  forall s i, Inv s -> Inv (fst (step a s i)) /\ P (snd (step a s i)).

Lemma run_Forall inputs : forall s, Inv s -> Forall P (run a s inputs).
Proof.
  induction inputs as [|i rest IH]; intros s Hs; cbn [run].
  - constructor.
  - destruct (step_ok s i Hs) as [Hinv Hout]. constructor; [exact Hout|].
    apply IH. exact Hinv.
Qed.

End Runs.

Module AdaptiveFacts.

Import CInt BitrateConst BitrateControl Facts.

(** [bitrate_update] leaves the configuration part of the context alone. *)
Lemma bitrate_update_bounds_kept ctx bs_now r sr ts l rt :
  let ctx' := fst (fst (bitrate_update ctx bs_now r sr ts l rt)) in
  min_bitrate ctx' = min_bitrate ctx /\ max_bitrate ctx' = max_bitrate ctx.
Proof. split; reflexivity. Qed.

Lemma bitrate_update_tuning_kept ctx bs_now r sr ts l rt :
  let ctx' := fst (fst (bitrate_update ctx bs_now r sr ts l rt)) in
  incr_interval ctx' = incr_interval ctx
  /\ decr_interval ctx' = decr_interval ctx
  /\ decr_fast_interval ctx' = decr_fast_interval ctx.
Proof. repeat split; reflexivity. Qed.

(** The returned bitrate is the result's, and is the committed set-point
    rounded down. *)
Lemma bitrate_update_returns ctx bs_now r sr ts l rt :
  let out := bitrate_update ctx bs_now r sr ts l rt in
  snd (fst out) = new_bitrate (snd out)
  /\ new_bitrate (snd out) = round_100k (cur_bitrate (fst (fst out))).
Proof. split; reflexivity. Qed.

Lemma bitrate_update_cur_bounds ctx bs_now r sr ts l rt :
  int_range (min_bitrate ctx) -> int_range (max_bitrate ctx) ->
  min_bitrate ctx <= max_bitrate ctx ->
  min_bitrate ctx
  <= cur_bitrate (fst (fst (bitrate_update ctx bs_now r sr ts l rt)))
  <= max_bitrate ctx.
Proof.
  intros Hmin Hmax Hle. unfold bitrate_update. cbv zeta.
  cbn [fst snd cur_bitrate].
  match goal with
  | |- context [min_max ?x ?lo ?hi] =>
      pose proof (min_max_bounds x lo hi Hle) as Hb; set (v := min_max x lo hi) in *
  end.
  rewrite to_int_id; [lia|]. unfold int_range in *. lia.
Qed.

Lemma adaptive_step_ctx s i :
  Adaptive.ctx (fst (Adaptive.adaptive_step s i))
  = fst (fst (bitrate_update (Adaptive.ctx s)
                (Balancer.buffer_size i) (Balancer.rtt i)
                (Balancer.send_rate_mbps i) (Balancer.timestamp i)
                (Balancer.pkt_loss_total i) (Balancer.pkt_retrans_total i))).
Proof.
  unfold Adaptive.adaptive_step.
  destruct (bitrate_update _ _ _ _ _ _ _) as [[c n] res]. reflexivity.
Qed.

Lemma adaptive_step_new_bitrate s i :
  Balancer.new_bitrate (snd (Adaptive.adaptive_step s i))
  = new_bitrate
      (snd (bitrate_update (Adaptive.ctx s)
              (Balancer.buffer_size i) (Balancer.rtt i)
              (Balancer.send_rate_mbps i) (Balancer.timestamp i)
              (Balancer.pkt_loss_total i) (Balancer.pkt_retrans_total i))).
Proof. reflexivity. Qed.

End AdaptiveFacts.

Module AimdFacts.

Import CInt BitrateConst Aimd Facts.

Lemma aimd_step_bounds_kept s i :
  min_bitrate (fst (aimd_step s i)) = min_bitrate s
  /\ max_bitrate (fst (aimd_step s i)) = max_bitrate s.
Proof. split; reflexivity. Qed.

Lemma aimd_step_new_bitrate s i :
  Balancer.new_bitrate (snd (aimd_step s i))
  = round_100k (cur_bitrate (fst (aimd_step s i))).
Proof. reflexivity. Qed.

Lemma aimd_step_cur_bounds s i :
  min_bitrate s <= max_bitrate s ->
  min_bitrate s <= cur_bitrate (fst (aimd_step s i)) <= max_bitrate s.
Proof.
  intros Hle. unfold aimd_step. cbv zeta. cbn [fst cur_bitrate].
  apply MAX_MIN_bounds. exact Hle.
Qed.

End AimdFacts.

Section Bounded.

Import Balancer Trace CInt BitrateConst Facts.

Lemma adaptive_rounded_and_bounded cfg s0 inputs :
  Adaptive.adaptive_init cfg = Some s0 ->
  0 <= min_bitrate cfg <= max_bitrate cfg -> max_bitrate cfg <= INT_MAX ->
  Forall (rounded_and_bounded (min_bitrate cfg) (max_bitrate cfg))
    (run Adaptive.balancer_adaptive s0 inputs).
Proof.
  intros Hinit Hb Hmax.
  apply run_Forall with
    (Inv := fun s : Adaptive.AdaptiveState =>
              BitrateControl.min_bitrate (Adaptive.ctx s) = min_bitrate cfg
              /\ BitrateControl.max_bitrate (Adaptive.ctx s) = max_bitrate cfg).
  - intros s i [Hlo Hhi]. cbn [step Adaptive.balancer_adaptive].
    unfold rounded_and_bounded.
    rewrite AdaptiveFacts.adaptive_step_ctx, AdaptiveFacts.adaptive_step_new_bitrate.
    split; [split; [rewrite <- Hlo|rewrite <- Hhi]; reflexivity|].
    set (out := BitrateControl.bitrate_update _ _ _ _ _ _ _).
    destruct (AdaptiveFacts.bitrate_update_returns (Adaptive.ctx s)
                (buffer_size i) (rtt i) (send_rate_mbps i) (timestamp i)
                (pkt_loss_total i) (pkt_retrans_total i)) as [_ Hnew].
    fold out in Hnew. rewrite Hnew.
    pose proof (AdaptiveFacts.bitrate_update_cur_bounds (Adaptive.ctx s)
                  (buffer_size i) (rtt i) (send_rate_mbps i) (timestamp i)
                  (pkt_loss_total i) (pkt_retrans_total i)) as Hcur.
    fold out in Hcur. rewrite Hlo, Hhi in Hcur.
    apply rounded_in_bounds; [lia|].
    apply Hcur; unfold int_range, INT_MIN, INT_MAX in *; lia.
  - unfold Adaptive.adaptive_init in Hinit. injection Hinit as <-.
    split; reflexivity.
Qed.

Lemma aimd_rounded_and_bounded cfg s0 inputs :
  Aimd.aimd_init cfg = Some s0 ->
  0 <= min_bitrate cfg <= max_bitrate cfg ->
  Forall (rounded_and_bounded (min_bitrate cfg) (max_bitrate cfg))
    (run Aimd.balancer_aimd s0 inputs).
Proof.
  intros Hinit Hb.
  apply run_Forall with
    (Inv := fun s : Aimd.AimdState =>
              Aimd.min_bitrate s = min_bitrate cfg
              /\ Aimd.max_bitrate s = max_bitrate cfg).
  - intros s i [Hlo Hhi]. cbn [step Aimd.balancer_aimd].
    split; [split; [rewrite <- Hlo|rewrite <- Hhi]; reflexivity|].
    unfold rounded_and_bounded. rewrite AimdFacts.aimd_step_new_bitrate.
    pose proof (AimdFacts.aimd_step_cur_bounds s i) as Hcur.
    rewrite Hlo, Hhi in Hcur.
    apply rounded_in_bounds; [lia|]. apply Hcur. lia.
  - unfold Aimd.aimd_init in Hinit. injection Hinit as <-.
    split; reflexivity.
Qed.

Lemma fixed_rounded_and_bounded cfg s0 inputs :
  Fixed.fixed_init cfg = Some s0 ->
  0 <= min_bitrate cfg <= max_bitrate cfg ->
  Forall (rounded_and_bounded (min_bitrate cfg) (max_bitrate cfg))
    (run Fixed.balancer_fixed s0 inputs).
Proof.
  intros Hinit Hb.
  apply run_Forall with
    (Inv := fun s : Fixed.FixedState =>
              Fixed.fixed_bitrate s = round_100k (max_bitrate cfg)).
  - intros s i Hs. cbn [step Fixed.balancer_fixed Fixed.fixed_step fst snd].
    split; [exact Hs|]. unfold rounded_and_bounded. cbn [new_bitrate].
    rewrite Hs. apply rounded_in_bounds; lia.
  - unfold Fixed.fixed_init in Hinit. injection Hinit as <-. reflexivity.
Qed.

(** C2, as amended.  For each of the three algorithms, every configuration
    with [0 <= min_bitrate <= max_bitrate] and every sequence of samples,
    each [new_bitrate] that [step] returns is a multiple of 100 000 and lies
    between [min_bitrate] rounded down to a multiple of 100 000 and
    [max_bitrate]; it is at least [min_bitrate] when [min_bitrate] is itself
    a multiple of 100 000. *)
Theorem decisions_rounded_and_bounded :
  forall (a : BalancerAlgorithm) (cfg : BalancerConfig) (s0 : state_t a)
         (inputs : list BalancerInput),
    In a all_variants ->
    init a cfg = Some s0 ->
    0 <= min_bitrate cfg <= max_bitrate cfg ->
    max_bitrate cfg <= INT_MAX ->
    Forall (fun o =>
              (100000 | new_bitrate o)
              /\ round_100k (min_bitrate cfg) <= new_bitrate o <= max_bitrate cfg
              /\ ((100000 | min_bitrate cfg) -> min_bitrate cfg <= new_bitrate o))
      (run a s0 inputs).
Proof.
  intros a cfg s0 inputs Hin Hinit Hb Hmax.
  destruct Hin as [<-|[<-|[<-|[]]]].
  - exact (adaptive_rounded_and_bounded cfg s0 inputs Hinit Hb Hmax).
  - exact (aimd_rounded_and_bounded cfg s0 inputs Hinit Hb).
  - exact (fixed_rounded_and_bounded cfg s0 inputs Hinit Hb).
Qed.

End Bounded.

Section BoundedExamples.

Import Balancer Trace Scenario CInt BitrateConst.

Lemma decisions_rounded_and_bounded_witness :
  Forall (fun o =>
            (100000 | new_bitrate o)
            /\ round_100k 500000 <= new_bitrate o <= 6000000
            /\ ((100000 | 500000) -> 500000 <= new_bitrate o))
    (run Adaptive.balancer_adaptive
       {| Adaptive.ctx := context_with 500000 6000000 2000 |}
       [sample 50 700.0 2.0 1000]).
Proof.
  apply (decisions_rounded_and_bounded Adaptive.balancer_adaptive
           (config_with 500000 6000000 2000)).
  - left. reflexivity.
  - reflexivity.
  - cbn. lia.
  - cbn. unfold INT_MAX. lia.
Defined.

(** C2 as stated fails.  With [min_bitrate = 350 000 <= max_bitrate] the
    adaptive algorithm answers the first sample with 300 000, below
    [min_bitrate]: the set-point is clamped first and rounded down after.
    With negative bounds the rounding, which goes toward zero, leaves the
    range at the top: the fixed algorithm answers 0 for
    [max_bitrate = -50 000]. *)
Lemma decision_below_min_bitrate :
  (350000 <= 6000000
   /\ init Adaptive.balancer_adaptive (config_with 350000 6000000 2000)
      = Some {| Adaptive.ctx := context_with 350000 6000000 2000 |}
   /\ map new_bitrate
        (run Adaptive.balancer_adaptive
           {| Adaptive.ctx := context_with 350000 6000000 2000 |}
           [sample 50 700.0 2.0 1000])
      = [300000]
   /\ 300000 < 350000)
  /\ (-250000 <= -50000
      /\ init Fixed.balancer_fixed (config_with (-250000) (-50000) 2000)
         = Some {| Fixed.fixed_bitrate := 0 |}
      /\ map new_bitrate
           (run Fixed.balancer_fixed {| Fixed.fixed_bitrate := 0 |}
              [sample 50 700.0 2.0 1000])
         = [0]
      /\ -50000 < 0).
Proof.
  split; (split; [lia|]); (split; [reflexivity|]);
    (split; [vm_compute; reflexivity|lia]).
Qed.

End BoundedExamples.

(** ** The emergency branch of the adaptive algorithm *)

Section Emergency.

Import Balancer Trace Scenario CInt BitrateConst BitrateControl Facts.

(** C4, as amended.  In any state whose [cur_bitrate] is above
    [min_bitrate], a step whose sample has [(int)rtt >= srt_latency / 3] or
    [buffer_size] above that tick's [bs_th3] commits [min_bitrate] and
    returns it rounded down to a multiple of 100 000: [min_bitrate] itself
    when it is such a multiple.  Scenario S2 (min 500 kbps, max 6000 kbps,
    latency 2000 ms, sample bs=50 rtt=700 rate=2 t=1000) returns 500 000. *)
Theorem emergency_commits_min_bitrate :
  (forall ctx bs_now r sr ts l rt,
     int_range (min_bitrate ctx) ->
     min_bitrate ctx < cur_bitrate ctx ->
     cdiv (srt_latency ctx) 3 <= CDouble.to_int r
     \/ bs_th3 (snd (bitrate_update ctx bs_now r sr ts l rt)) < bs_now ->
     cur_bitrate (fst (fst (bitrate_update ctx bs_now r sr ts l rt)))
     = min_bitrate ctx
     /\ new_bitrate (snd (bitrate_update ctx bs_now r sr ts l rt))
        = round_100k (min_bitrate ctx)
     /\ ((100000 | min_bitrate ctx) ->
         new_bitrate (snd (bitrate_update ctx bs_now r sr ts l rt))
         = min_bitrate ctx))
  /\ map Balancer.new_bitrate
       (run Adaptive.balancer_adaptive
          {| Adaptive.ctx := context_with 500000 6000000 2000 |}
          [sample 50 700.0 2.0 1000])
     = [500000].
Proof.
  split; [|vm_compute; reflexivity].
  intros ctx bs_now r sr ts l rt Hmin Hcur Hcond.
  assert (Hc : cur_bitrate (fst (fst (bitrate_update ctx bs_now r sr ts l rt)))
               = min_bitrate ctx).
  { unfold bitrate_update in *. cbv zeta in *.
    cbn [fst snd cur_bitrate bs_th3] in *.
    match goal with
    | |- context [if ?c then Emergency else _] =>
        assert (Hem : c = true)
    end.
    { apply andb_true_iff. split; [apply Z.ltb_lt; exact Hcur|].
      apply orb_true_iff. destruct Hcond as [Hr|Hb].
      - left. apply Z.leb_le. exact Hr.
      - right. apply Z.ltb_lt. exact Hb. }
    rewrite Hem. rewrite min_max_at_min. apply to_int_id. exact Hmin. }
  destruct (AdaptiveFacts.bitrate_update_returns ctx bs_now r sr ts l rt)
    as [_ Hnew].
  cbv zeta in Hnew. rewrite Hnew, Hc.
  split; [reflexivity|]. split; [reflexivity|].
  intros Hd. apply round_100k_fix. exact Hd.
Qed.

Lemma emergency_commits_min_bitrate_witness :
  new_bitrate
    (snd (bitrate_update (context_with 500000 6000000 2000)
            50 700.0 2.0 1000 0 0))
  = 500000.
Proof.
  apply (proj1 emergency_commits_min_bitrate
           (context_with 500000 6000000 2000) 50 700.0%float 2.0%float 1000 0 0).
  - unfold int_range, INT_MIN, INT_MAX. cbn. lia.
  - cbn. lia.
  - left. vm_compute. discriminate.
  - exists 5. reflexivity.
Defined.

(** C4 as stated fails in two ways.  (a) From the initial state with
    [min_bitrate = 350 000], the sample of S2 takes the emergency branch
    and the decision is 300 000, not [min_bitrate].  (b) With
    [srt_latency = 600] and [min_bitrate = 3 000 000], two samples with
    [rtt = 200] 20 ms apart: both have [(int)rtt >= srt_latency / 3]; the
    first drops the set-point to [min_bitrate], so on the second the guard
    [bitrate > min_bitrate] skips the emergency branch, the decrease
    branches wait for [next_bitrate_decr], the increase branch fires, and
    the decision is 3 100 000. *)
Lemma emergency_sample_not_at_min_bitrate :
  ((cdiv 2000 3 <=? CDouble.to_int 700.0) = true
   /\ map Balancer.new_bitrate
        (run Adaptive.balancer_adaptive
           {| Adaptive.ctx := context_with 350000 6000000 2000 |}
           [sample 50 700.0 2.0 1000])
      = [300000]
   /\ 300000 <> 350000)
  /\ ((cdiv 600 3 <=? CDouble.to_int 200.0) = true
      /\ map Balancer.new_bitrate
           (run Adaptive.balancer_adaptive
              {| Adaptive.ctx := context_with 3000000 6000000 600 |}
              [sample 0 200.0 5.0 1000; sample 0 200.0 5.0 1020])
         = [3000000; 3100000]
      /\ 3100000 <> 3000000).
Proof.
  split; (split; [vm_compute; reflexivity|]);
    (split; [vm_compute; reflexivity|discriminate]).
Qed.

End Emergency.

(** ** The minimum-RTT tracker and the ignored RTT value *)

Section RttIgnore.

Import Scenario CInt BitrateConst BitrateControl.

(** C8.  The test against [RTT_IGNORE_VALUE] reads the truncated RTT: on a
    sample with [(int)rtt = 100] the tracked minimum only drifts upward,
    [rtt_min * RTT_MIN_DRIFT], whatever [rtt], [rtt_min] and
    [rtt_avg_delta] are. *)
Theorem rtt_ignore_tests_truncated_rtt :
  forall ctx bs_now r sr ts l rt,
    CDouble.to_int r = RTT_IGNORE_VALUE ->
    rtt_min (fst (fst (bitrate_update ctx bs_now r sr ts l rt)))
    = (rtt_min ctx * RTT_MIN_DRIFT)%float.
Proof.
  intros ctx bs_now r sr ts l rt Hr.
  unfold bitrate_update. cbv zeta. cbn [fst rtt_min].
  rewrite Hr, Z.eqb_refl. reflexivity.
Qed.

(** At the initial state a sample with [rtt = 100.5] is below the drifted
    minimum (200.2) and leaves [rtt_avg_delta] below 1.0 (it is -39.9), and
    still the minimum is not lowered. *)
Lemma rtt_ignore_tests_truncated_rtt_witness :
  CDouble.to_int 100.5 = RTT_IGNORE_VALUE
  /\ CDouble.lt 100.5 (rtt_min (context_with 500000 6000000 2000)
                       * RTT_MIN_DRIFT)%float = true
  /\ CDouble.lt
       (rtt_avg_delta
          (fst (fst (bitrate_update (context_with 500000 6000000 2000)
                       10 100.5 5.0 1000 0 0))))
       1.0 = true
  /\ rtt_min
       (fst (fst (bitrate_update (context_with 500000 6000000 2000)
                    10 100.5 5.0 1000 0 0)))
     = (rtt_min (context_with 500000 6000000 2000) * RTT_MIN_DRIFT)%float.
Proof.
  split; [vm_compute; reflexivity|].
  split; [vm_compute; reflexivity|].
  split; [vm_compute; reflexivity|].
  apply (rtt_ignore_tests_truncated_rtt (context_with 500000 6000000 2000)).
  vm_compute. reflexivity.
Defined.

End RttIgnore.

(** ** The registry *)

Section RegistryFacts.

Import Balancer Registry Scenario.

Local Open Scope string_scope.

Lemma find_in_sound registry wanted a :
  find_in registry wanted = Some a -> In a registry /\ name a = wanted.
Proof.
  induction registry as [|b rest IH]; cbn [find_in]; [discriminate|].
  destruct (String.eqb (name b) wanted) eqn:E.
  - intros [= <-]. split; [left; reflexivity|]. apply String.eqb_eq. exact E.
  - intros H. destruct (IH H) as [Hin Hn]. split; [right; exact Hin|exact Hn].
Qed.

(** C10.  Whatever the registry holds, [balancer_find] answers a [NULL]
    name with [NULL]; and on every input it answers, with [NULL] or with an
    entry of the registry that bears the name asked for. *)
Theorem balancer_find_null_name :
  forall registry : list BalancerAlgorithm,
    balancer_find_in registry None = None
    /\ balancer_find None = None
    /\ forall name_ptr,
         balancer_find_in registry name_ptr = None
         \/ exists a, balancer_find_in registry name_ptr = Some a
                      /\ In a registry /\ name_ptr = Some (name a).
Proof.
  intros registry. split; [reflexivity|]. split; [reflexivity|].
  intros [wanted|]; [|left; reflexivity].
  cbn [balancer_find_in]. destruct (find_in registry wanted) as [a|] eqn:E.
  - right. exists a. destruct (find_in_sound _ _ _ E) as [Hin <-].
    repeat split. exact Hin.
  - left. reflexivity.
Qed.

End RegistryFacts.

Section CoreRegistryFacts.

Import Balancer Registry CoreRegistry.

Local Open Scope string_scope.


End CoreRegistryFacts.

(** ** The runner *)

Section RunnerFacts.

Import Balancer Runner Scenario.

(** C3, as amended.  [balancer_runner_update_bounds] validates nothing:
    for all bounds, [min > max] included, it stores both in the runner's
    configuration, leaving the other settings alone, and a runner that
    holds an algorithm and a state gets a state initialised afresh from
    the updated configuration. *)
Theorem update_bounds_stores_and_reinitialises :
  forall (cfg : BalancerConfig) (min_br max_br : Z),
    (forall (a : BalancerAlgorithm) (s : state_t a),
        balancer_runner_update_bounds
          {| algo := Some a; state := Some s; config := cfg |} min_br max_br
        = {| algo := Some a;
             state := init a (set_bounds cfg min_br max_br);
             config := set_bounds cfg min_br max_br |})
    /\ (forall a : BalancerAlgorithm,
          balancer_runner_update_bounds
            {| algo := Some a; state := None; config := cfg |} min_br max_br
          = {| algo := Some a; state := None;
               config := set_bounds cfg min_br max_br |})
    /\ balancer_runner_update_bounds
         {| algo := None; state := tt; config := cfg |} min_br max_br
       = {| algo := None; state := tt;
            config := set_bounds cfg min_br max_br |}
    /\ min_bitrate (set_bounds cfg min_br max_br) = min_br
    /\ max_bitrate (set_bounds cfg min_br max_br) = max_br.
Proof. intros cfg min_br max_br. repeat split. Qed.

(** C3 as stated fails.  The default runner (adaptive, 300 to 6000 kbps),
    asked for the bounds [min = 3 000 000 > max = 1 000 000], takes them:
    its configuration changes, its state is the initial state for the new
    bounds, and its next decision is 3 000 000, above the new maximum. *)
Lemma update_bounds_takes_inverted_bounds :
  fst (balancer_runner_init blank_runner Config.config_init_defaults
         None 2000 1316) = 0
  /\ min_bitrate (config default_runner) = 300000
  /\ max_bitrate (config default_runner) = 6000000
  /\ balancer_runner_update_bounds default_runner 3000000 1000000
     = {| algo := Some Adaptive.balancer_adaptive;
          state := Some {| Adaptive.ctx :=
                             context_with 3000000 1000000 2000 |};
          config := config_with 3000000 1000000 2000 |}
  /\ option_map (fun r => new_bitrate (snd r))
       (balancer_runner_step default_runner (sample 10 30.0 5.0 1000))
     = Some 6000000
  /\ option_map (fun r => new_bitrate (snd r))
       (balancer_runner_step
          (balancer_runner_update_bounds default_runner 3000000 1000000)
          (sample 10 30.0 5.0 1000))
     = Some 3000000.
Proof.
  split; [reflexivity|]. split; [reflexivity|]. split; [reflexivity|].
  split; [reflexivity|]. split; vm_compute; reflexivity.
Qed.

End RunnerFacts.


(** ** The rate-limit deadlines *)

Section Chain.
Import Balancer Trace.
Variable a : BalancerAlgorithm.
Variable f : state_t a -> Z.
Variable Inv : state_t a -> Z -> Prop.
Hypothesis step_ok :
  forall s last i,
    Inv s last -> last <= timestamp i -> timestamp_ok i ->
    f s <= f (fst (step a s i)) /\ Inv (fst (step a s i)) (timestamp i).

Lemma nondecreasing_cons x l :
  nondecreasing (x :: l) = true <->
  match l with [] => True | y :: _ => x <= y /\ nondecreasing l = true end.
Proof.
  destruct l as [|y l']; cbn [nondecreasing]; [tauto|].
  rewrite andb_true_iff, Z.leb_le. tauto.
Qed.

Lemma nondecreasing_along_run inputs :
  forall s last,
    Inv s last ->
    nondecreasing (last :: map timestamp inputs) = true ->
    Forall timestamp_ok inputs ->
    nondecreasing (f s :: map f (states a s inputs)) = true.
Proof.
  induction inputs as [|i rest IH]; intros s last Hinv Hsorted Hok.
  - reflexivity.
  - cbn [states map] in *. apply nondecreasing_cons in Hsorted.
    destruct Hsorted as [Hle Hsorted]. inversion Hok as [|? ? Hi Hrest]; subst.
    destruct (step_ok s last i Hinv Hle Hi) as [Hf Hinv'].
    apply nondecreasing_cons. split; [exact Hf|].
    apply (IH _ (timestamp i)); assumption.
Qed.
End Chain.

Lemma nondecreasing_from_zero inputs :
  Forall Trace.timestamp_ok inputs ->
  Trace.nondecreasing (map Balancer.timestamp inputs) = true ->
  Trace.nondecreasing (0 :: map Balancer.timestamp inputs) = true.
Proof.
  intros Hok Hs. apply nondecreasing_cons. destruct inputs as [|i rest]; [exact I|].
  cbn [map]. split; [|exact Hs]. inversion Hok as [|? ? [H0 _] _]. exact H0.
Qed.

Module AdaptiveDeadlines.
Import CInt BitrateConst BitrateControl Facts Trace.

Lemma deadline_sum ts d :
  0 <= ts -> ts + INT_MAX < UINT64_MOD -> 0 <= d <= INT_MAX ->
  to_uint64 (ts + d) = ts + d.
Proof. intros. apply to_uint64_id. lia. Qed.

Lemma adaptive_next_incr_step ctx bs_now r sr ts l rt :
  0 <= ts -> ts + INT_MAX < UINT64_MOD -> 0 <= incr_interval ctx <= INT_MAX ->
  next_bitrate_incr ctx
  <= next_bitrate_incr (fst (fst (bitrate_update ctx bs_now r sr ts l rt))).
Proof.
  intros H0 Hts Hi. unfold bitrate_update. cbv zeta. cbn [fst next_bitrate_incr].
  name_ladder.
  destruct c_emergency; [lia|]. destruct c_heavy; [lia|]. destruct c_light; [lia|].
  destruct c_grow eqn:E; [|lia].
  rewrite deadline_sum by assumption.
  subst c_grow. rewrite !andb_true_iff in E. destruct E as [[[E _] _] _].
  apply Z.ltb_lt in E. lia.
Qed.

Lemma adaptive_next_decr_step ctx bs_now r sr ts l rt last :
  0 <= ts -> ts + INT_MAX < UINT64_MOD -> last <= ts ->
  0 <= decr_fast_interval ctx <= decr_interval ctx ->
  decr_interval ctx <= INT_MAX ->
  next_bitrate_decr ctx <= last + decr_interval ctx ->
  let ctx' := fst (fst (bitrate_update ctx bs_now r sr ts l rt)) in
  next_bitrate_decr ctx <= next_bitrate_decr ctx'
  /\ next_bitrate_decr ctx' <= ts + decr_interval ctx.
Proof.
  intros H0 Hts Hlast Hd Hmax Hinv. unfold bitrate_update. cbv zeta.
  cbn [fst next_bitrate_decr].
  name_ladder.
  destruct c_emergency; [rewrite deadline_sum by lia; lia|].
  destruct c_heavy eqn:E.
  { rewrite deadline_sum by lia. subst c_heavy. apply andb_true_iff in E.
    destruct E as [E _]. apply Z.ltb_lt in E. lia. }
  destruct c_light eqn:E'.
  { rewrite deadline_sum by lia. subst c_light. apply andb_true_iff in E'.
    destruct E' as [E' _]. apply Z.ltb_lt in E'. lia. }
  destruct c_grow; lia.
Qed.
End AdaptiveDeadlines.

Module AimdDeadlines.
Import CInt BitrateConst Aimd Facts Trace.
Import Balancer.

Lemma aimd_next_incr_step s i :
  timestamp_ok i -> 0 <= incr_interval s <= INT_MAX ->
  next_incr s <= next_incr (fst (aimd_step s i)).
Proof.
  intros [H0 Hts] Hi. unfold aimd_step. cbv zeta. cbn [fst next_incr].
  match goal with
  | |- context [if ?c then Decrease else _] => destruct c; [lia|]
  end.
  match goal with
  | |- context [if ?c then Increase else _] => destruct c eqn:E; [|lia]
  end.
  rewrite AdaptiveDeadlines.deadline_sum by assumption.
  apply andb_true_iff in E. destruct E as [_ E]. apply Z.ltb_lt in E. lia.
Qed.

Lemma aimd_next_decr_step s i last :
  timestamp_ok i -> last <= timestamp i ->
  0 <= decr_interval s <= INT_MAX ->
  next_decr s <= last + decr_interval s ->
  next_decr s <= next_decr (fst (aimd_step s i))
  /\ next_decr (fst (aimd_step s i)) <= timestamp i + decr_interval s.
Proof.
  intros [H0 Hts] Hlast Hd Hinv. unfold aimd_step. cbv zeta.
  cbn [fst next_decr].
  rewrite !AdaptiveDeadlines.deadline_sum by assumption.
  destruct (CDouble.ge (rtt i) _) eqn:Eem.
  - cbn [orb andb negb].
    assert (Hgate : (timestamp i + decr_interval s <? timestamp i) = false)
      by (apply Z.ltb_ge; lia).
    rewrite Hgate. lia.
  - cbn [orb].
    match goal with
    | |- context [if ?c then Decrease else _] => destruct c eqn:E
    end.
    + apply andb_true_iff in E. destruct E as [_ E]. apply Z.ltb_lt in E. lia.
    + match goal with
      | |- context [if ?c then Increase else _] => destruct c
      end; lia.
Qed.
End AimdDeadlines.

Section Deadlines.
Import Balancer Trace Scenario CInt BitrateConst.

Lemma effective_interval arg def :
  arg <= INT_MAX -> 0 < def <= INT_MAX ->
  0 < (if 0 <? arg then arg else def) <= INT_MAX.
Proof. intros Ha Hd. destruct (0 <? arg) eqn:E; [apply Z.ltb_lt in E|]; lia. Qed.

(** C7, as amended.  Along any run with non-decreasing timestamps (each a
    [uint64_t] with room for an [int] above it), [next_incr] never goes
    down in the AIMD and in the adaptive algorithm, and [next_decr] never
    goes down in the AIMD algorithm; in the adaptive algorithm
    [next_bitrate_decr] never goes down when the decrease interval in force
    is at least [BITRATE_DECR_FAST_INT] (250 ms).  The fixed algorithm
    keeps no deadline. *)
Theorem deadlines_nondecreasing :
  forall (cfg : BalancerConfig) (inputs : list BalancerInput),
    intervals_fit cfg ->
    Forall timestamp_ok inputs ->
    nondecreasing (map timestamp inputs) = true ->
    (forall s0, Aimd.aimd_init cfg = Some s0 ->
       nondecreasing
         (map Aimd.next_incr (s0 :: states Aimd.balancer_aimd s0 inputs)) = true
       /\ nondecreasing
            (map Aimd.next_decr (s0 :: states Aimd.balancer_aimd s0 inputs))
          = true)
    /\ (forall s0, Adaptive.adaptive_init cfg = Some s0 ->
          nondecreasing
            (map adaptive_next_incr
               (s0 :: states Adaptive.balancer_adaptive s0 inputs)) = true
          /\ (BITRATE_DECR_FAST_INT
              <= BitrateControl.decr_interval (Adaptive.ctx s0) ->
              nondecreasing
                (map adaptive_next_decr
                   (s0 :: states Adaptive.balancer_adaptive s0 inputs))
              = true)).
Proof.
  intros cfg inputs (Hai & Had & Hmi & Hmd) Hok Hsorted.
  pose proof (nondecreasing_from_zero inputs Hok Hsorted) as Hsorted0.
  split.
  - intros s0 Hinit. unfold Aimd.aimd_init in Hinit. injection Hinit as <-.
    split; cbn [map].
    + apply (nondecreasing_along_run Aimd.balancer_aimd Aimd.next_incr
               (fun s _ => 0 <= Aimd.incr_interval s <= INT_MAX)) with (last := 0);
        try assumption.
      * intros s last i Hs _ Hi. split.
        -- apply AimdDeadlines.aimd_next_incr_step; assumption.
        -- exact Hs.
      * cbn [Aimd.incr_interval].
        pose proof (effective_interval (aimd_incr_interval cfg)
                      Aimd.AIMD_DEF_INCR_INTERVAL Hmi) as H.
        unfold Aimd.AIMD_DEF_INCR_INTERVAL, INT_MAX in *. lia.
    + apply (nondecreasing_along_run Aimd.balancer_aimd Aimd.next_decr
               (fun s last =>
                  0 <= Aimd.decr_interval s <= INT_MAX
                  /\ Aimd.next_decr s <= last + Aimd.decr_interval s))
        with (last := 0); try assumption.
      * intros s last i [Hd Hinv] Hlast Hi.
        destruct (AimdDeadlines.aimd_next_decr_step s i last Hi Hlast Hd Hinv)
          as [Hle Hnew].
        split; [exact Hle|]. split; [exact Hd|exact Hnew].
      * cbn [Aimd.decr_interval Aimd.next_decr].
        pose proof (effective_interval (aimd_decr_interval cfg)
                      Aimd.AIMD_DEF_DECR_INTERVAL Hmd) as H.
        unfold Aimd.AIMD_DEF_DECR_INTERVAL, INT_MAX in *. lia.
  - intros s0 Hinit. unfold Adaptive.adaptive_init in Hinit.
    injection Hinit as <-. split; cbn [map].
    + apply (nondecreasing_along_run Adaptive.balancer_adaptive adaptive_next_incr
               (fun s _ =>
                  0 <= BitrateControl.incr_interval (Adaptive.ctx s) <= INT_MAX))
        with (last := 0); try assumption.
      * intros s last i Hs _ [H0 Hts]. unfold adaptive_next_incr.
        cbn [step Adaptive.balancer_adaptive].
        rewrite AdaptiveFacts.adaptive_step_ctx. split.
        -- apply AdaptiveDeadlines.adaptive_next_incr_step; assumption.
        -- exact Hs.
      * cbn [Adaptive.ctx BitrateControl.bitrate_context_init
               BitrateControl.incr_interval].
        pose proof (effective_interval (adaptive_incr_interval cfg)
                      BITRATE_INCR_INT Hai) as H.
        unfold BITRATE_INCR_INT, INT_MAX in *. lia.
    + intros Hfast.
      apply (nondecreasing_along_run Adaptive.balancer_adaptive adaptive_next_decr
               (fun s last =>
                  0 <= BitrateControl.decr_fast_interval (Adaptive.ctx s)
                    <= BitrateControl.decr_interval (Adaptive.ctx s)
                  /\ BitrateControl.decr_interval (Adaptive.ctx s) <= INT_MAX
                  /\ BitrateControl.next_bitrate_decr (Adaptive.ctx s)
                     <= last + BitrateControl.decr_interval (Adaptive.ctx s)))
        with (last := 0); try assumption.
      * intros s last i (Hd & Hmax & Hinv) Hlast [H0 Hts].
        unfold adaptive_next_decr. cbn [step Adaptive.balancer_adaptive].
        rewrite AdaptiveFacts.adaptive_step_ctx.
        destruct (AdaptiveDeadlines.adaptive_next_decr_step (Adaptive.ctx s)
                    (buffer_size i) (rtt i) (send_rate_mbps i) (timestamp i)
                    (pkt_loss_total i) (pkt_retrans_total i) last
                    H0 Hts Hlast Hd Hmax Hinv) as [Hle Hnew].
        split; [exact Hle|]. split; [exact Hd|]. split; [exact Hmax|exact Hnew].
      * cbn [Adaptive.ctx BitrateControl.bitrate_context_init
               BitrateControl.decr_interval BitrateControl.decr_fast_interval
               BitrateControl.next_bitrate_decr] in *.
        pose proof (effective_interval (adaptive_decr_interval cfg)
                      BITRATE_DECR_INT Had) as H.
        unfold BITRATE_DECR_INT, BITRATE_DECR_FAST_INT, INT_MAX in *. lia.
Qed.
End Deadlines.

Section DeadlineExamples.

Import Balancer Trace Scenario CInt BitrateConst.

(** With a decrease interval of 300 ms, a heavy decrease at 1000 ms and an
    emergency at 1020 ms: the deadlines only move forward. *)
Lemma deadlines_nondecreasing_witness :
  nondecreasing
    (map adaptive_next_decr
       (states Adaptive.balancer_adaptive
          {| Adaptive.ctx :=
               BitrateControl.bitrate_context_init 500000 6000000 2000 1316
                 30000 100000 500 300 |}
          [sample 0 500.0 5.0 1000; sample 0 700.0 5.0 1020]))
  = true
  /\ nondecreasing
       (map Aimd.next_decr
          (states Aimd.balancer_aimd (aimd_state_with 500000 6000000 2000)
             [sample 0 500.0 5.0 1000; sample 0 700.0 5.0 1020]))
     = true.
Proof.
  assert (Hfit : intervals_fit
                   (with_adaptive_decr_interval
                      (config_with 500000 6000000 2000) 300)).
  { unfold intervals_fit, INT_MAX. cbn. lia. }
  assert (Hok : Forall timestamp_ok
                  [sample 0 500.0 5.0 1000; sample 0 700.0 5.0 1020]).
  { repeat constructor; unfold INT_MAX, UINT64_MOD; cbn; lia. }
  destruct (deadlines_nondecreasing _ _ Hfit Hok eq_refl) as [Haimd Hadaptive].
  destruct (Haimd _ eq_refl) as [_ Hd].
  destruct (Hadaptive _ eq_refl) as [_ Hd'].
  split.
  - assert (Hfast : BITRATE_DECR_FAST_INT <= 300) by (unfold BITRATE_DECR_FAST_INT; lia).
    specialize (Hd' Hfast). cbn [map] in Hd'. apply nondecreasing_cons in Hd'.
    apply Hd'.
  - cbn [map] in Hd. apply nondecreasing_cons in Hd. apply Hd.
Defined.

(** C7 as stated fails for the adaptive algorithm with its default
    intervals.  The sample at 1000 ms ([rtt = 500]) takes the heavy branch
    and sets [next_bitrate_decr = 1000 + 250]; the sample at 1020 ms
    ([rtt = 700]) takes the emergency branch, which is not gated by the
    deadline, and sets it to [1020 + 200]. *)
Lemma adaptive_next_decr_goes_back :
  nondecreasing
    (map timestamp [sample 0 500.0 5.0 1000; sample 0 700.0 5.0 1020]) = true
  /\ Forall timestamp_ok [sample 0 500.0 5.0 1000; sample 0 700.0 5.0 1020]
  /\ map adaptive_next_decr
       ({| Adaptive.ctx := context_with 500000 6000000 2000 |}
          :: states Adaptive.balancer_adaptive
               {| Adaptive.ctx := context_with 500000 6000000 2000 |}
               [sample 0 500.0 5.0 1000; sample 0 700.0 5.0 1020])
     = [0; 1250; 1220]
  /\ nondecreasing [0; 1250; 1220] = false.
Proof.
  split; [reflexivity|].
  split; [repeat constructor; unfold INT_MAX, UINT64_MOD; cbn; lia|].
  split; [vm_compute; reflexivity|reflexivity].
Qed.

End DeadlineExamples.

(** ** Doubles that are computed without rounding error *)

Module DoubleFacts.

Lemma digits2_pos_size p : digits2_pos p = Pos.size p.
Proof. induction p as [p IH|p IH|]; cbn; [rewrite IH|rewrite IH|]; reflexivity. Qed.

Lemma Zdigits2_log2 m : 0 < m -> Zdigits2 m = Z.log2 m + 1.
Proof.
  destruct m as [|p|p]; try lia. intros _. cbn [Zdigits2].
  rewrite digits2_pos_size. destruct p as [p|p|]; cbn [Pos.size Z.log2];
    rewrite ?Pos2Z.inj_succ; lia.
Qed.

Lemma iter_xO p k : Zpos (Pos.iter xO p k) = Zpos p * 2 ^ Zpos k.
Proof.
  induction k as [|k IH] using Pos.peano_ind.
  - cbn [Pos.iter]. lia.
  - rewrite Pos.iter_succ, Pos2Z.inj_xO, IH, Pos2Z.inj_succ, Z.pow_succ_r by lia.
    lia.
Qed.

Lemma shr_1_even m :
  0 <= m -> (2 | m) ->
  shr_1 {| shr_m := m; shr_r := false; shr_s := false |}
  = {| shr_m := m / 2; shr_r := false; shr_s := false |}.
Proof.
  intros Hm [k Hk]. destruct m as [|[p|p|]|p]; cbn [shr_1 orb]; try lia.
  - reflexivity.
  - f_equal. rewrite Pos2Z.inj_xO, Z.mul_comm, Z.div_mul by lia. reflexivity.
Qed.

Lemma divide_half m n :
  0 <= n -> (2 ^ (n + 1) | m) -> (2 | m) /\ (2 ^ n | m / 2).
Proof.
  intros Hn [k Hk]. rewrite Z.pow_add_r, Z.pow_1_r in Hk by lia. split.
  - exists (k * 2 ^ n). lia.
  - exists k. replace m with (k * 2 ^ n * 2) by lia.
    rewrite Z.div_mul by lia. reflexivity.
Qed.

Lemma divide_part m a b :
  0 <= a -> 0 <= b -> (2 ^ (a + b) | m) -> (2 ^ a | m) /\ (2 ^ b | m / 2 ^ a).
Proof.
  intros Ha Hb [k Hk]. rewrite Z.pow_add_r in Hk by lia.
  assert (0 < 2 ^ a) by (apply Z.pow_pos_nonneg; lia). split.
  - exists (k * 2 ^ b). lia.
  - exists k. replace m with (k * 2 ^ b * 2 ^ a) by lia.
    rewrite Z.div_mul by lia. reflexivity.
Qed.

Lemma iter_shr_1_exact n :
  forall m,
    0 <= m -> (2 ^ Zpos n | m) ->
    iter_pos shr_1 n {| shr_m := m; shr_r := false; shr_s := false |}
    = {| shr_m := m / 2 ^ Zpos n; shr_r := false; shr_s := false |}.
Proof.
  induction n as [n IH|n IH|]; intros m Hm Hd; cbn [iter_pos].
  - replace (Zpos n~1) with (1 + (Zpos n + Zpos n)) in * by lia.
    destruct (divide_part m 1 (Zpos n + Zpos n) ltac:(lia) ltac:(lia) Hd)
      as [H2 Hrest].
    rewrite Z.pow_1_r in *.
    destruct (divide_part (m / 2) (Zpos n) (Zpos n) ltac:(lia) ltac:(lia) Hrest)
      as [Ha Hb].
    assert (0 < 2 ^ Zpos n) by (apply Z.pow_pos_nonneg; lia).
    assert (H0 : 0 <= m / 2) by (apply Z.div_pos; lia).
    assert (H1 : 0 <= m / 2 / 2 ^ Zpos n) by (apply Z.div_pos; lia).
    rewrite shr_1_even by assumption.
    rewrite (IH _ H0 Ha), (IH _ H1 Hb).
    f_equal. rewrite !Z.div_div by lia. f_equal.
    rewrite !Z.pow_add_r, Z.pow_1_r by lia. lia.
  - replace (Zpos n~0) with (Zpos n + Zpos n) in * by lia.
    destruct (divide_part m (Zpos n) (Zpos n) ltac:(lia) ltac:(lia) Hd)
      as [Ha Hb].
    assert (0 < 2 ^ Zpos n) by (apply Z.pow_pos_nonneg; lia).
    assert (H1 : 0 <= m / 2 ^ Zpos n) by (apply Z.div_pos; lia).
    rewrite (IH _ Hm Ha), (IH _ H1 Hb).
    f_equal. rewrite !Z.div_div by lia. f_equal.
    rewrite !Z.pow_add_r by lia. lia.
  - rewrite Z.pow_1_r in *. apply shr_1_even; assumption.
Qed.

(** Rounding a number that needs none: [q] fills the 53 bits of the
    mantissa, and the [n] bits below it are zero. *)
Lemma binary_round_aux_exact q n e :
  Z.log2 q = 52 -> 0 <= n -> -1074 <= e + n <= 971 ->
  binary_round_aux prec emax false (q * 2 ^ n) e loc_Exact
  = S754_finite false (Z.to_pos q) (e + n).
Proof.
  intros Hq Hn He.
  assert (Hqpos : 0 < q).
  { destruct (Z.lt_trichotomy q 0) as [H|[H|H]]; [|subst q; discriminate|exact H].
    rewrite Z.log2_nonpos in Hq by lia. discriminate. }
  assert (Hpow : 0 < 2 ^ n) by (apply Z.pow_pos_nonneg; lia).
  assert (Hdig : Zdigits2 (q * 2 ^ n) = 53 + n).
  { rewrite Zdigits2_log2 by lia. rewrite Z.log2_mul_pow2 by lia. lia. }
  assert (Hdigq : Zdigits2 q = 53) by (rewrite Zdigits2_log2 by lia; lia).
  unfold binary_round_aux, shr_fexp. rewrite Hdig.
  assert (Hf : fexp prec emax (53 + n + e) - e = n).
  { unfold fexp, emin, prec, emax. lia. }
  rewrite Hf.
  assert (Hshr : shr (shr_record_of_loc (q * 2 ^ n) loc_Exact) e n
                 = ({| shr_m := q; shr_r := false; shr_s := false |}, e + n)).
  { unfold shr, shr_record_of_loc. destruct n as [|p|p]; [| |lia].
    - rewrite Z.pow_0_r, Z.mul_1_r, Z.add_0_r. reflexivity.
    - rewrite iter_shr_1_exact;
        [rewrite Z.div_mul by lia; reflexivity|lia|exists q; reflexivity]. }
  rewrite Hshr. cbn [shr_m loc_of_shr_record round_nearest_even].
  rewrite Hdigq.
  assert (Hf' : fexp prec emax (53 + (e + n)) - (e + n) = 0).
  { unfold fexp, emin, prec, emax. lia. }
  rewrite Hf'. cbn [shr shr_record_of_loc shr_m].
  destruct q as [|p|p]; try lia. cbn [Z.to_pos].
  assert (Hle : (e + n <=? emax - prec) = true)
    by (apply Z.leb_le; unfold emax, prec; lia).
  rewrite Hle. reflexivity.
Qed.

(** [(double)c] for a positive integer below [2 ^ 53]. *)
Lemma binary_normalize_small c :
  0 < c < 2 ^ 53 ->
  binary_normalize prec emax c 0 false
  = S754_finite false (Z.to_pos (c * 2 ^ (52 - Z.log2 c))) (Z.log2 c - 52).
Proof.
  intros Hc. assert (Hl : 0 <= Z.log2 c < 53).
  { split; [apply Z.log2_nonneg|]. apply Z.log2_lt_pow2; lia. }
  destruct c as [|p|p]; try lia. cbn [binary_normalize]. unfold binary_round.
  change (Zpos (digits2_pos p)) with (Zdigits2 (Zpos p)).
  rewrite Zdigits2_log2 by lia.
  assert (Hf : fexp prec emax (Z.log2 (Zpos p) + 1 + 0) = Z.log2 (Zpos p) - 52).
  { unfold fexp, emin, prec, emax. lia. }
  rewrite Hf. unfold shl_align.
  destruct (Z.log2 (Zpos p) - 52 - 0) as [|k|k] eqn:Ek; try lia.
  - pose proof (binary_round_aux_exact (Zpos p) 0 (Z.log2 (Zpos p) - 52)
                  ltac:(lia) ltac:(lia) ltac:(lia)) as H.
    rewrite Z.pow_0_r, Z.mul_1_r, Z.add_0_r in H.
    replace (52 - Z.log2 (Zpos p)) with 0 by lia.
    replace (Z.log2 (Zpos p) - 52) with 0 in * by lia.
    rewrite Z.pow_0_r, Z.mul_1_r. exact H.
  - assert (Hlog : Z.log2 (Zpos p * 2 ^ Zpos k) = 52)
      by (rewrite Z.log2_mul_pow2 by lia; lia).
    pose proof (binary_round_aux_exact (Zpos p * 2 ^ Zpos k) 0
                  (Z.log2 (Zpos p) - 52) Hlog ltac:(lia) ltac:(lia)) as H.
    rewrite Z.pow_0_r, Z.mul_1_r, Z.add_0_r in H.
    rewrite iter_xO. replace (52 - Z.log2 (Zpos p)) with (Zpos k) by lia.
    exact H.
Qed.


(** The product of the multiplicative decrease with the default multiplier
    is exact: [(int)(c * 0.75)] is [3 * c / 4] for every non-negative
    [int]. *)
Lemma mult_decrease_three_quarters c :
  0 <= c <= CInt.INT_MAX -> Aimd.mult_decrease c 0.75 = 3 * c / 4.
Proof.
  unfold CInt.INT_MAX. intros Hc.
  unfold Aimd.mult_decrease, CDouble.to_int, CDouble.trunc, CDouble.of_int.
  assert (Hneg : (c <? 0) = false) by (apply Z.ltb_ge; lia).
  rewrite Hneg, mul_spec, of_uint63_spec, Uint63.of_Z_spec.
  rewrite Z.mod_small by (unfold Uint63.wB; cbn; lia).
  replace (Prim2SF 0.75) with (S754_finite false 6755399441055744 (-53))
    by (vm_compute; reflexivity).
  destruct (Z.eq_dec c 0) as [->|Hnz]; [reflexivity|].
  assert (Hl : 0 <= Z.log2 c < 31).
  { split; [apply Z.log2_nonneg|]. apply Z.log2_lt_pow2; lia. }
  assert (Hl3 : Z.log2 c <= Z.log2 (3 * c) < 33).
  { split; [apply Z.log2_le_mono; lia|]. apply Z.log2_lt_pow2; lia. }
  rewrite binary_normalize_small by lia.
  unfold SF64mul, SFmul. cbn [xorb].
  assert (Hk : 0 < 2 ^ (52 - Z.log2 c)) by (apply Z.pow_pos_nonneg; lia).
  assert (Hk3 : 0 < 2 ^ (52 - Z.log2 (3 * c))) by (apply Z.pow_pos_nonneg; lia).
  rewrite Pos2Z.inj_mul, Z2Pos.id by lia.
  assert (Hsplit : c * 2 ^ (52 - Z.log2 c) * 6755399441055744
                   = 3 * c * 2 ^ (52 - Z.log2 (3 * c))
                     * 2 ^ (51 + Z.log2 (3 * c) - Z.log2 c)).
  { replace (52 - Z.log2 c)
      with ((52 - Z.log2 (3 * c)) + (Z.log2 (3 * c) - Z.log2 c)) by lia.
    replace (51 + Z.log2 (3 * c) - Z.log2 c)
      with (51 + (Z.log2 (3 * c) - Z.log2 c)) by lia.
    rewrite !Z.pow_add_r by lia. change (2 ^ 51) with 2251799813685248. ring. }
  rewrite Hsplit.
  rewrite binary_round_aux_exact;
    [|rewrite Z.log2_mul_pow2 by lia; lia|lia|lia].
  replace (Z.log2 c - 52 + -53 + (51 + Z.log2 (3 * c) - Z.log2 c))
    with (- (54 - Z.log2 (3 * c))) by lia.
  assert (Hsign : (0 <=? - (54 - Z.log2 (3 * c))) = false)
    by (apply Z.leb_gt; lia).
  rewrite Hsign, Z.opp_involutive, Z2Pos.id by lia.
  rewrite Z.shiftr_div_pow2 by lia.
  replace (2 ^ (54 - Z.log2 (3 * c))) with (4 * 2 ^ (52 - Z.log2 (3 * c))).
  2:{ replace (54 - Z.log2 (3 * c)) with (2 + (52 - Z.log2 (3 * c))) by lia.
      rewrite Z.pow_add_r by lia. reflexivity. }
  rewrite Z.div_mul_cancel_r by lia.
  assert (Hq : 0 <= 3 * c / 4 <= c).
  { pose proof (Z.div_mod (3 * c) 4 ltac:(lia)).
    pose proof (Z.mod_pos_bound (3 * c) 4 ltac:(lia)). lia. }
  assert (Hin : (CInt.INT_MIN <=? 3 * c / 4) && (3 * c / 4 <=? CInt.INT_MAX) = true).
  { unfold CInt.INT_MIN, CInt.INT_MAX. apply andb_true_iff.
    split; apply Z.leb_le; lia. }
  rewrite Hin. reflexivity.
Qed.

End DoubleFacts.

(** ** Doubles that are computed with one rounding *)

Module RoundingFacts.

Import DoubleFacts.

Lemma shr_1_m mrs : 0 <= shr_m mrs -> shr_m (shr_1 mrs) = shr_m mrs / 2.
Proof.
  destruct mrs as [m r s]. cbn [shr_m]. intros Hm.
  destruct m as [|[p|p|]|p]; cbn [shr_1 shr_m]; try lia.
  - reflexivity.
  - rewrite Pos2Z.inj_xI. apply (Z.div_unique _ 2 _ 1); lia.
  - rewrite Pos2Z.inj_xO. apply (Z.div_unique _ 2 _ 0); lia.
  - reflexivity.
Qed.

(** [n] shifts to the right divide the mantissa by [2 ^ n], whatever the
    round and sticky bits. *)
Lemma iter_shr_1_m n :
  forall mrs,
    0 <= shr_m mrs ->
    shr_m (iter_pos shr_1 n mrs) = shr_m mrs / 2 ^ Zpos n.
Proof.
  assert (Hpos : forall k, 0 < 2 ^ Zpos k)
    by (intros k; apply Z.pow_pos_nonneg; lia).
  induction n as [n IH|n IH|]; intros mrs Hm; cbn [iter_pos].
  - assert (H1 : 0 <= shr_m (shr_1 mrs))
      by (rewrite shr_1_m by exact Hm; apply Z.div_pos; lia).
    assert (H2 : 0 <= shr_m (iter_pos shr_1 n (shr_1 mrs))).
    { rewrite IH by exact H1. apply Z.div_pos; [lia|apply Hpos]. }
    rewrite (IH _ H2), (IH _ H1), shr_1_m by exact Hm.
    pose proof (Hpos n).
    rewrite !Z.div_div by lia. f_equal.
    replace (Zpos n~1) with (1 + (Zpos n + Zpos n)) by lia.
    rewrite !Z.pow_add_r, Z.pow_1_r by lia. lia.
  - assert (H1 : 0 <= shr_m (iter_pos shr_1 n mrs)).
    { rewrite IH by exact Hm. apply Z.div_pos; [lia|apply Hpos]. }
    rewrite (IH _ H1), (IH _ Hm).
    pose proof (Hpos n).
    rewrite !Z.div_div by lia. f_equal.
    replace (Zpos n~0) with (Zpos n + Zpos n) by lia.
    rewrite !Z.pow_add_r by lia. lia.
  - rewrite Z.pow_1_r. apply shr_1_m. exact Hm.
Qed.

Lemma round_nearest_even_bounds q l :
  q <= round_nearest_even q l <= q + 1.
Proof.
  destruct l as [|[| |]]; cbn [round_nearest_even]; try lia.
  destruct (Z.even q); lia.
Qed.

(** The integer part of a rounded double.  [m * 2 ^ e] is rounded to a
    mantissa that stands at the exponent [e1 > e]; what comes out has an
    integer part between those of [q * 2 ^ e1] and [(q + 1) * 2 ^ e1], where
    [q] is the mantissa cut off at [e1]. *)
Lemma trunc_binary_round_aux (x : float) m e :
  0 < m ->
  let e1 := fexp prec emax (Zdigits2 m + e) in
  e < e1 -> e1 < 0 ->
  Prim2SF x = binary_round_aux prec emax false m e loc_Exact ->
  exists t,
    CDouble.trunc x = Some t
    /\ m / 2 ^ (e1 - e) / 2 ^ (- e1) <= t
    /\ t <= (m / 2 ^ (e1 - e) + 1) / 2 ^ (- e1).
Proof.
  intros Hm e1 He He1 Hx.
  assert (Hd : Zdigits2 m = Z.log2 m + 1) by (apply Zdigits2_log2; exact Hm).
  assert (Hfexp : Z.log2 m + 1 + e - 53 <= e1 /\ -1074 <= e1).
  { subst e1. rewrite Hd. unfold fexp, emin, prec, emax. lia. }
  destruct Hfexp as [Hf1 Hf2].
  remember (e1 - e) as n eqn:En.
  assert (Hn : 0 < n) by lia.
  assert (Hpn : 0 < 2 ^ n) by (apply Z.pow_pos_nonneg; lia).
  assert (Hpe : 0 < 2 ^ (- e1)) by (apply Z.pow_pos_nonneg; lia).
  set (q := m / 2 ^ n) in *.
  assert (Hq : 0 <= q < 2 ^ 53).
  { split; [apply Z.div_pos; lia|].
    apply Z.div_lt_upper_bound; [lia|].
    rewrite <- Z.pow_add_r by lia.
    apply Z.log2_lt_pow2; [lia|]. lia. }
  assert (Hshr : exists mrs,
            shr (shr_record_of_loc m loc_Exact) e n = (mrs, e1)
            /\ shr_m mrs = q).
  { unfold shr, q. destruct n as [|pn|pn]; try lia.
    eexists. split; [f_equal; lia|].
    rewrite iter_shr_1_m by (cbn; lia). reflexivity. }
  destruct Hshr as (mrs & Hshr & Hmrs).
  unfold CDouble.trunc. rewrite Hx.
  unfold binary_round_aux, shr_fexp. fold e1. rewrite <- En, Hshr.
  set (q' := round_nearest_even (shr_m mrs) (loc_of_shr_record mrs)).
  assert (Hq' : q <= q' <= q + 1).
  { unfold q'. rewrite <- Hmrs. apply round_nearest_even_bounds. }
  destruct (Z.eq_dec q' 0) as [H0|Hn0].
  - (* the mantissa is rounded to nothing *)
    rewrite H0. cbn [Zdigits2 Z.add].
    assert (Hs : fexp prec emax e1 - e1 <= 0)
      by (unfold fexp, emin, prec, emax; lia).
    unfold shr. destruct (fexp prec emax e1 - e1) as [|p|p]; try lia;
      cbn [shr_record_of_loc shr_m];
      (exists 0; split; [reflexivity|]);
      (split; [|apply Z.div_pos; lia]);
      (assert (q = 0) by lia);
      (replace q with 0 by lia); reflexivity.
  - destruct (Z.eq_dec q' (2 ^ 53)) as [Hc|Hnc].
    + (* the mantissa is rounded up to [2 ^ 53] *)
      rewrite Hc. change (Zdigits2 (2 ^ 53)) with 54.
      assert (Hs : fexp prec emax (54 + e1) - e1 = 1)
        by (unfold fexp, emin, prec, emax; lia).
      rewrite Hs. cbn [shr shr_record_of_loc iter_pos].
      change (shr_1 {| shr_m := 2 ^ 53; shr_r := false; shr_s := false |})
        with {| shr_m := 2 ^ 52; shr_r := false; shr_s := false |}.
      cbn [shr_m]. change (2 ^ 52) with (Zpos (Z.to_pos (2 ^ 52))).
      assert (Hle : (e1 + 1 <=? emax - prec) = true)
        by (apply Z.leb_le; unfold emax, prec; lia).
      rewrite Hle.
      assert (Hneg : (0 <=? e1 + 1) = false \/ e1 = -1) by lia.
      exists (2 ^ 53 / 2 ^ (- e1)).
      split.
      * f_equal. destruct (0 <=? e1 + 1) eqn:Es.
        -- apply Z.leb_le in Es. assert (e1 = -1) by lia. subst e1.
           replace (fexp prec emax (Zdigits2 m + e)) with (-1) by lia.
           reflexivity.
        -- apply Z.leb_gt in Es. rewrite Z.shiftr_div_pow2 by lia.
           change (Zpos (Z.to_pos (2 ^ 52))) with (2 ^ 52).
           replace (- e1) with (1 + - (e1 + 1)) by lia.
           rewrite Z.pow_add_r, Z.pow_1_r by lia.
           change (2 ^ 53) with (2 * 2 ^ 52).
           assert (0 < 2 ^ (- (e1 + 1))) by (apply Z.pow_pos_nonneg; lia).
           rewrite Z.div_mul_cancel_l by lia. reflexivity.
      * rewrite <- Hc. split; apply Z.div_le_mono; lia.
    + (* the mantissa fits *)
      assert (Hr : 0 < q' < 2 ^ 53) by lia.
      assert (Hdq : Zdigits2 q' <= 53).
      { rewrite Zdigits2_log2 by lia.
        assert (Z.log2 q' < 53) by (apply Z.log2_lt_pow2; lia). lia. }
      assert (Hs : fexp prec emax (Zdigits2 q' + e1) - e1 <= 0)
        by (unfold fexp, emin, prec, emax; lia).
      unfold shr. destruct (fexp prec emax (Zdigits2 q' + e1) - e1) as [|p|p];
        try lia; cbn [shr_record_of_loc shr_m];
        destruct q' as [|pq|pq] eqn:Eq; try lia;
        (assert (Hle : (e1 <=? emax - prec) = true)
           by (apply Z.leb_le; unfold emax, prec; lia));
        rewrite Hle;
        (assert (Hneg : (0 <=? e1) = false) by (apply Z.leb_gt; lia));
        rewrite Hneg; rewrite Z.shiftr_div_pow2 by lia;
        (exists (Zpos pq / 2 ^ (- e1)); split; [reflexivity|]);
        split; apply Z.div_le_mono; lia.
Qed.

End RoundingFacts.

Module DecreaseFacts.

Import DoubleFacts RoundingFacts.

(** The mantissa of a double has 53 bits unless it stands at the lowest
    exponent. *)
Lemma double_shape (m : float) s mm em :
  Prim2SF m = S754_finite s mm em ->
  Z.log2 (Zpos mm) = 52 \/ em = -1074.
Proof.
  intros Hm. pose proof (Prim2SF_valid m) as Hv. rewrite Hm in Hv.
  cbn [valid_binary] in Hv. unfold bounded, canonical_mantissa in Hv.
  apply andb_true_iff in Hv. destruct Hv as [Hc _]. apply Z.eqb_eq in Hc.
  change (Zpos (digits2_pos mm)) with (Zdigits2 (Zpos mm)) in Hc.
  rewrite Zdigits2_log2 in Hc by lia.
  unfold fexp, emin, prec, emax in Hc. lia.
Qed.

(** [(int)(c * m)] for a multiplier of at most 1, [m = mm / 2 ^ k]: the
    product is rounded once, by less than [2 ^ -22], and then cut off. *)
Lemma mult_decrease_bounds c (m : float) mm em :
  0 <= c <= CInt.INT_MAX ->
  Prim2SF m = S754_finite false mm em ->
  em < 0 -> Zpos mm <= 2 ^ (- em) ->
  let p := Aimd.mult_decrease c m in
  0 <= p <= c
  /\ c * Zpos mm < (p + 1) * 2 ^ (- em)
  /\ p * 2 ^ (- em) * 2 ^ 22 <= c * Zpos mm * 2 ^ 22 + 2 ^ (- em).
Proof.
  unfold CInt.INT_MAX. intros Hc Hm Hem Hmm.
  pose proof (double_shape m false mm em Hm) as Hshape.
  set (k := - em) in *.
  assert (Hk : 0 < k) by (unfold k; lia).
  assert (Hpk : 0 < 2 ^ k) by (apply Z.pow_pos_nonneg; lia).
  cbv zeta.
  unfold Aimd.mult_decrease, CDouble.to_int.
  destruct (Z.eq_dec c 0) as [->|Hnz].
  { (* nothing to decrease *)
    assert (Hx : Prim2SF (CDouble.of_int 0 * m) = S754_zero false).
    { rewrite mul_spec, Hm. reflexivity. }
    unfold CDouble.trunc. rewrite Hx. cbv iota beta.
    change ((CInt.INT_MIN <=? 0) && (0 <=? CInt.INT_MAX)) with true.
    cbv iota. rewrite !Z.mul_0_l. lia. }
  assert (Hl : 0 <= Z.log2 c < 31).
  { split; [apply Z.log2_nonneg|]. apply Z.log2_lt_pow2; lia. }
  set (lc := Z.log2 c) in *.
  assert (Hps : 0 < 2 ^ (52 - lc)) by (apply Z.pow_pos_nonneg; lia).
  set (M := c * 2 ^ (52 - lc) * Zpos mm).
  set (E := lc - 52 + em).
  assert (Hx : Prim2SF (CDouble.of_int c * m)
               = binary_round_aux prec emax false M E loc_Exact).
  { unfold CDouble.of_int.
    assert (Hneg : (c <? 0) = false) by (apply Z.ltb_ge; lia).
    rewrite Hneg, mul_spec, of_uint63_spec, Uint63.of_Z_spec, Hm.
    rewrite Z.mod_small by (unfold Uint63.wB; cbn; lia).
    rewrite binary_normalize_small by lia. fold lc.
    unfold SF64mul, SFmul. cbn [xorb].
    rewrite Pos2Z.inj_mul, Z2Pos.id by lia. reflexivity. }
  assert (HM : 0 < M) by (unfold M; nia).
  (* the size of the exact product *)
  assert (Hlc : 2 ^ lc <= c < 2 ^ (lc + 1)).
  { unfold lc. apply Z.log2_spec. lia. }
  assert (Hcm : 2 ^ 52 <= c * 2 ^ (52 - lc) < 2 ^ 53).
  { assert (H52 : 2 ^ 52 = 2 ^ lc * 2 ^ (52 - lc)).
    { rewrite <- Z.pow_add_r by lia. f_equal. lia. }
    assert (H53 : 2 ^ 53 = 2 ^ (lc + 1) * 2 ^ (52 - lc)).
    { rewrite <- Z.pow_add_r by lia. f_equal. lia. }
    rewrite H52, H53. split.
    - apply Z.mul_le_mono_nonneg_r; lia.
    - apply Z.mul_lt_mono_pos_r; lia. }
  assert (Hlm : 2 ^ Z.log2 (Zpos mm) <= Zpos mm < 2 ^ (Z.log2 (Zpos mm) + 1)).
  { apply Z.log2_spec. lia. }
  assert (Hlm0 : 0 <= Z.log2 (Zpos mm)) by apply Z.log2_nonneg.
  assert (Hlow : 52 + Z.log2 (Zpos mm) <= Z.log2 M).
  { apply Z.log2_le_pow2; [lia|]. rewrite Z.pow_add_r by lia. unfold M.
    assert (0 < 2 ^ Z.log2 (Zpos mm)) by (apply Z.pow_pos_nonneg; lia). nia. }
  assert (Hhigh : Z.log2 M < 83 - lc + k).
  { apply Z.log2_lt_pow2; [lia|]. unfold M.
    replace (83 - lc + k) with (31 + (52 - lc) + k) by lia.
    rewrite !Z.pow_add_r by lia.
    assert (c < 2 ^ 31) by lia. nia. }
  pose proof (trunc_binary_round_aux (CDouble.of_int c * m) M E HM) as Hround.
  cbv zeta in Hround.
  rewrite Zdigits2_log2 in Hround by exact HM.
  set (e1 := fexp prec emax (Z.log2 M + 1 + E)) in *.
  assert (He1 : E < e1 /\ em <= e1 /\ e1 <= -22).
  { unfold e1, fexp, emin, prec, emax, E, k in *. lia. }
  destruct He1 as (HE & Hlo & Hhi).
  destruct (Hround HE ltac:(lia) Hx) as (t & Ht & Ht1 & Ht2).
  rewrite Ht.
  (* everything at the scale [2 ^ k] *)
  set (j := e1 - em).
  assert (Hj : 0 <= j /\ j + 22 <= k /\ k = j + - e1) by (unfold j, k; lia).
  destruct Hj as (Hj0 & Hj22 & Hkj).
  assert (Hpj : 0 < 2 ^ j) by (apply Z.pow_pos_nonneg; lia).
  assert (Hpe : 0 < 2 ^ (- e1)) by (apply Z.pow_pos_nonneg; lia).
  assert (Hq : M / 2 ^ (e1 - E) = c * Zpos mm / 2 ^ j).
  { unfold M. replace (e1 - E) with (j + (52 - lc)) by (unfold j, E; lia).
    rewrite Z.pow_add_r by lia.
    replace (c * 2 ^ (52 - lc) * Zpos mm)
      with (c * Zpos mm * 2 ^ (52 - lc)) by ring.
    rewrite Z.div_mul_cancel_r by lia. reflexivity. }
  rewrite Hq in Ht1, Ht2.
  set (N := c * Zpos mm) in *.
  set (q := N / 2 ^ j) in *.
  assert (HN : 0 <= N) by (unfold N; nia).
  assert (Hqs : 2 ^ j * q <= N < 2 ^ j * (q + 1)).
  { unfold q. pose proof (Z.mul_div_le N (2 ^ j) Hpj).
    pose proof (Z.mul_succ_div_gt N (2 ^ j) Hpj). lia. }
  assert (Hpow : 2 ^ k = 2 ^ j * 2 ^ (- e1)).
  { rewrite Hkj, Z.pow_add_r by lia. reflexivity. }
  assert (Hq0 : 0 <= q) by (apply Z.div_pos; lia).
  assert (Ht1' : 2 ^ (- e1) * (t + 1) > q).
  { pose proof (Z.mul_succ_div_gt q (2 ^ (- e1)) Hpe). nia. }
  assert (Ht2' : 2 ^ (- e1) * t <= q + 1).
  { pose proof (Z.mul_div_le (q + 1) (2 ^ (- e1)) Hpe). nia. }
  assert (Hlowt : N < (t + 1) * 2 ^ k).
  { rewrite Hpow. nia. }
  assert (Hupt : t * 2 ^ k <= N + 2 ^ j).
  { rewrite Hpow. nia. }
  assert (H22 : 2 ^ j * 2 ^ 22 <= 2 ^ k).
  { rewrite <- Z.pow_add_r by lia. apply Z.pow_le_mono_r; lia. }
  assert (Ht0 : 0 <= t).
  { assert (0 <= q / 2 ^ (- e1)) by (apply Z.div_pos; lia). lia. }
  assert (Htc : t <= c).
  { assert (HNc : N <= c * 2 ^ k) by (unfold N; nia).
    assert (t * 2 ^ k < (c + 1) * 2 ^ k) by nia.
    nia. }
  assert (Hin : (CInt.INT_MIN <=? t) && (t <=? CInt.INT_MAX) = true).
  { unfold CInt.INT_MIN, CInt.INT_MAX. apply andb_true_iff.
    split; apply Z.leb_le; lia. }
  rewrite Hin. repeat split; lia.
Qed.

End DecreaseFacts.

Module BandFacts.

Import QArith_base Exact.

Local Open Scope Z_scope.

(** The band around [n / d] without fractions. *)
Lemma ratio_around_fraction new prev n d :
  0 < d ->
  (100 * n - 15 * d) * prev <= 100 * d * new ->
  100 * d * new <= (100 * n + 10 * d) * prev ->
  ratio_around new prev (n # Z.to_pos d).
Proof.
  intros Hd Hlo Hhi. unfold ratio_around, ratio_between, Qle.
  cbn [Qminus Qplus Qopp Qmult Qnum Qden inject_Z].
  rewrite !Pos2Z.inj_mul, !Z2Pos.id by lia.
  split; nia.
Qed.

Lemma ratio_around_compat new prev p q :
  (p == q)%Q -> ratio_around new prev p -> ratio_around new prev q.
Proof.
  intros Heq [Hlo Hhi]. unfold ratio_around, ratio_between.
  rewrite <- Heq. split; assumption.
Qed.

(** The multipliers of at most 1. *)
Lemma to_Q_small (m : float) mu :
  to_Q m = Some mu -> (0 < mu)%Q -> (mu <= 1)%Q ->
  exists mm em,
    Prim2SF m = S754_finite false mm em
    /\ em < 0 /\ Zpos mm <= 2 ^ (- em)
    /\ mu = (Zpos mm # Z.to_pos (2 ^ (- em))).
Proof.
  unfold to_Q. intros Hm Hpos Hle.
  destruct (Prim2SF m) as [s|s| |s mm em] eqn:E; try discriminate.
  - assert (Hmu : mu = 0%Q) by congruence. subst mu. discriminate.
  - cbv zeta in Hm.
    pose proof (Z.pow_nonneg 2 em ltac:(lia)) as Hp.
    destruct s.
    + exfalso. destruct (0 <=? em).
      * assert (Hmu : mu = (- inject_Z (Zpos mm * 2 ^ em))%Q) by congruence.
        subst mu. unfold Qlt in Hpos. cbn [Qnum Qden Qopp inject_Z] in Hpos.
        nia.
      * assert (Hmu : mu = (- (Zpos mm # Z.to_pos (2 ^ (- em))))%Q)
          by congruence.
        subst mu. unfold Qlt in Hpos. cbn [Qnum Qden Qopp inject_Z] in Hpos.
        lia.
    + destruct (0 <=? em) eqn:Ee.
      * exfalso. apply Z.leb_le in Ee.
        assert (Hmu : mu = inject_Z (Zpos mm * 2 ^ em)) by congruence.
        subst mu. unfold Qle in Hle. cbn [Qnum Qden Qopp inject_Z] in Hle.
        assert (0 < 2 ^ em) by (apply Z.pow_pos_nonneg; lia).
        assert (Hone : Zpos mm = 1) by nia.
        destruct (DecreaseFacts.double_shape m false mm em E) as [Hl|He];
          [|lia].
        rewrite Hone in Hl. discriminate.
      * apply Z.leb_gt in Ee. exists mm, em.
        assert (Hmu : mu = (Zpos mm # Z.to_pos (2 ^ (- em)))) by congruence.
        subst mu.
        split; [reflexivity|]. split; [exact Ee|]. split; [|reflexivity].
        assert (0 < 2 ^ (- em)) by (apply Z.pow_pos_nonneg; lia).
        unfold Qle in Hle. cbn [Qnum Qden Qopp inject_Z] in Hle.
        rewrite Z2Pos.id in Hle by lia. lia.
Qed.

End BandFacts.

Module BandArith.

(** The band around [n / d] for decisions of [a] and [b] hundred thousand,
    [b] coming from a product [p] of [c] and [n / d] that was rounded by at
    most [2 ^ -22] before it was cut off. *)
Lemma band_from_product c p a b n d :
  0 < n <= d ->
  0 <= p <= c ->
  100000 * a <= c < 100000 * (a + 1) ->
  100000 * b <= p < 100000 * (b + 1) ->
  c * n < (p + 1) * d ->
  p * d * 2 ^ 22 <= c * n * 2 ^ 22 + d ->
  9 <= a ->
  (100 * n - 15 * d) * (100000 * a) <= 100 * d * (100000 * b)
  /\ 100 * d * (100000 * b) <= (100 * n + 10 * d) * (100000 * a).
Proof.
  change (2 ^ 22) with 4194304.
  intros Hn Hp Ha Hb Hlow Hup H9. split.
  - (* new / prev is at least n / d - 0.15 *)
    assert (H1 : a * n < (b + 1) * d) by nia.
    nia.
  - (* new / prev is at most n / d + 0.10 *)
    assert (H1 : 100000 * b * d * 4194304
                 <= (100000 * a + 99999) * n * 4194304 + d) by nia.
    destruct (Z.eq_dec a 9) as [->|Hne].
    + assert (Hb9 : b <= 9) by lia.
      assert (Hbd : b * d <= 9 * d) by nia.
      nia.
    + assert (H10 : 10 <= a) by lia.
      assert (H2 : 99999 * n * 4194304 + d <= 10000 * d * a * 4194304) by nia.
      nia.
Qed.

End BandArith.

(** ** The multiplicative decrease of the AIMD algorithm *)

Section AimdDecrease.

Import Balancer Trace Scenario CInt BitrateConst Aimd Facts.
Import QArith_base Exact DecreaseScenario.

Local Open Scope Z_scope.

(** The second [if] of [aimd_step] on a congested tick that is not an
    emergency and comes after [next_decr]. *)
Lemma aimd_decrease_taken s i :
  CDouble.ge (rtt i) (CDouble.of_int (cdiv (srt_latency s) 3)) = false ->
  CDouble.gt (rtt i) (CDouble.of_int (rtt_th_max (snd (aimd_step s i)))) = true
  \/ AIMD_BS_THRESHOLD < buffer_size i ->
  next_decr s < timestamp i ->
  cur_bitrate (fst (aimd_step s i))
  = MAX (min_bitrate s)
      (MIN (max_bitrate s) (mult_decrease (cur_bitrate s) (decr_mult s)))
  /\ next_decr (fst (aimd_step s i))
     = to_uint64 (timestamp i + decr_interval s).
Proof.
  intros Hem Hcong Hgate. unfold aimd_step in *. cbv zeta in *.
  cbn [fst snd cur_bitrate next_decr rtt_th_max] in *.
  rewrite Hem. cbn [orb].
  match goal with
  | |- context [if ?c then Decrease else _] => assert (Hc : c = true)
  end.
  { apply andb_true_iff. split; [|apply Z.ltb_lt; exact Hgate].
    apply orb_true_iff. destruct Hcong as [Hr|Hb].
    - left. exact Hr.
    - right. apply Z.ltb_lt. exact Hb. }
  rewrite Hc. split; reflexivity.
Qed.

Lemma three_quarters_ratio c p :
  300000 <= c -> p = 3 * c / 4 ->
  ratio_in_percent (round_100k p) (round_100k c) 60 85.
Proof.
  intros Hc ->. unfold ratio_in_percent.
  assert (Hp : 0 <= 3 * c / 4) by (apply Z.div_pos; lia).
  rewrite !round_100k_nonneg by lia.
  pose proof (Z.div_mod (3 * c) 4 ltac:(lia)).
  pose proof (Z.mod_pos_bound (3 * c) 4 ltac:(lia)).
  pose proof (Z.div_mod c 100000 ltac:(lia)).
  pose proof (Z.mod_pos_bound c 100000 ltac:(lia)).
  pose proof (Z.div_mod (3 * c / 4) 100000 ltac:(lia)).
  pose proof (Z.mod_pos_bound (3 * c / 4) 100000 ltac:(lia)).
  lia.
Qed.

(** The decision after a product that is not clamped, against the decision
    before, for a multiplier of at most 1. *)
Lemma any_multiplier_ratio c (m : float) mu :
  to_Q m = Some mu -> (0 < mu)%Q -> (mu <= 1)%Q ->
  900000 <= c <= INT_MAX ->
  ratio_around (round_100k (mult_decrease c m)) (round_100k c) mu.
Proof.
  intros Hm Hpos Hle Hc.
  destruct (BandFacts.to_Q_small m mu Hm Hpos Hle)
    as (mm & em & Hsf & Hem & Hmm & ->).
  destruct (DecreaseFacts.mult_decrease_bounds c m mm em ltac:(lia) Hsf Hem Hmm)
    as (Hp & Hlow & Hup).
  set (p := mult_decrease c m) in *.
  assert (Hd : 0 < 2 ^ (- em)) by (apply Z.pow_pos_nonneg; lia).
  rewrite !round_100k_nonneg by lia.
  apply BandFacts.ratio_around_fraction; [exact Hd| |];
    apply (BandArith.band_from_product c p (c / 100000) (p / 100000)
             (Zpos mm) (2 ^ (- em)));
    try lia.
  all: try (pose proof (Z.div_mod c 100000 ltac:(lia));
            pose proof (Z.mod_pos_bound c 100000 ltac:(lia)); lia).
  all: try (pose proof (Z.div_mod p 100000 ltac:(lia));
            pose proof (Z.mod_pos_bound p 100000 ltac:(lia)); lia).
Qed.

(** C5, as amended.  A congested AIMD step that is not an emergency
    ([rtt < srt_latency / 3]) and comes after [next_decr] commits
    [(int)(cur_bitrate * decr_mult)] clamped into the bounds, returns it
    rounded down to a multiple of 100 000 and moves [next_decr] to
    [timestamp + decr_interval].  When the product is not clamped (it lies
    between [min_bitrate] and [max_bitrate]), the decision against the
    previous one, which is the set-point of the state rounded down, is
    within [decr_mult - 0.15, decr_mult + 0.10]
    - for every multiplier [0 < decr_mult <= 1], from a set-point of
      900 000 on;
    - for the default multiplier 0.75, from a set-point of 300 000 on.
    Scenario S4 goes from 6 000 000 to 4 500 000, inside the band. *)
Theorem aimd_congested_step_decreases :
  (forall s i,
     CDouble.ge (rtt i) (CDouble.of_int (cdiv (srt_latency s) 3)) = false ->
     CDouble.gt (rtt i) (CDouble.of_int (rtt_th_max (snd (aimd_step s i))))
     = true
     \/ AIMD_BS_THRESHOLD < buffer_size i ->
     next_decr s < timestamp i ->
     (cur_bitrate (fst (aimd_step s i))
      = MAX (min_bitrate s)
          (MIN (max_bitrate s) (mult_decrease (cur_bitrate s) (decr_mult s)))
      /\ new_bitrate (snd (aimd_step s i))
         = round_100k (cur_bitrate (fst (aimd_step s i)))
      /\ next_decr (fst (aimd_step s i))
         = to_uint64 (timestamp i + decr_interval s))
     /\ (forall mu,
           stands_for (decr_mult s) mu -> (0 < mu)%Q -> (mu <= 1)%Q ->
           900000 <= cur_bitrate s <= INT_MAX ->
           min_bitrate s <= mult_decrease (cur_bitrate s) (decr_mult s)
           <= max_bitrate s ->
           ratio_around (new_bitrate (snd (aimd_step s i)))
             (round_100k (cur_bitrate s)) mu)
     /\ (decr_mult s = 0.75%float ->
         300000 <= cur_bitrate s <= INT_MAX ->
         min_bitrate s <= 3 * cur_bitrate s / 4 <= max_bitrate s ->
         ratio_in_percent (new_bitrate (snd (aimd_step s i)))
           (round_100k (cur_bitrate s)) 60 85))
  /\ (map new_bitrate
        (run balancer_aimd (aimd_state_with 500000 6000000 2000) s4_inputs)
      = [6000000; 6000000; 6000000; 6000000; 6000000; 6000000; 6000000;
         6000000; 6000000; 6000000; 6000000; 4500000]
      /\ ratio_in_band 4500000 6000000 0.75 = true).
Proof.
  split; [|split; vm_compute; reflexivity].
  intros s i Hem Hcong Hgate.
  destruct (aimd_decrease_taken s i Hem Hcong Hgate) as [Hcur Hnext].
  split; [split; [exact Hcur|split; [reflexivity|exact Hnext]]|].
  split.
  - intros mu' Hst Hpos' Hle' Hc Hmin. unfold stands_for in Hst.
    destruct (to_Q (decr_mult s)) as [mu|] eqn:Hmu; [|contradiction].
    assert (Hpos : (0 < mu)%Q) by (rewrite Hst; exact Hpos').
    assert (Hle : (mu <= 1)%Q) by (rewrite Hst; exact Hle').
    apply (BandFacts.ratio_around_compat _ _ mu mu' Hst).
    rewrite AimdFacts.aimd_step_new_bitrate, Hcur.
    rewrite MAX_MIN_inside by exact Hmin.
    apply any_multiplier_ratio; [exact Hmu|exact Hpos|exact Hle|exact Hc].
  - intros Hmult Hc Hmin.
    rewrite AimdFacts.aimd_step_new_bitrate, Hcur, Hmult.
    rewrite DoubleFacts.mult_decrease_three_quarters by lia.
    rewrite MAX_MIN_inside by exact Hmin.
    apply three_quarters_ratio; [lia|reflexivity].
Qed.

(** The last tick of S4, from the state the good ticks leave; and the same
    tick under a multiplier of 0.5, from 6 000 000 to 3 000 000. *)
Lemma aimd_congested_step_decreases_witness :
  ratio_in_percent
    (new_bitrate
       (snd (aimd_step
               (fst (aimd_step (aimd_state_with 500000 6000000 2000)
                       (sample 10 30.0 5.0 6000)))
               (sample 200 500.0 5.0 6250))))
    (round_100k 6000000) 60 85
  /\ ratio_around
       (new_bitrate
          (snd (aimd_step
                  (fst (aimd_step
                          (aimd_state_of
                             (with_decr_mult (config_with 500000 6000000 2000)
                                0.5))
                          (sample 10 30.0 5.0 6000)))
                  (sample 200 500.0 5.0 6250))))
       (round_100k 6000000) (1 # 2).
Proof.
  split.
  - apply (proj1 aimd_congested_step_decreases
             (fst (aimd_step (aimd_state_with 500000 6000000 2000)
                     (sample 10 30.0 5.0 6000)))
             (sample 200 500.0 5.0 6250)).
    + vm_compute. reflexivity.
    + right. vm_compute. reflexivity.
    + vm_compute. reflexivity.
    + reflexivity.
    + vm_compute. split; discriminate.
    + vm_compute. split; discriminate.
  - apply (proj1 aimd_congested_step_decreases
             (fst (aimd_step
                     (aimd_state_of
                        (with_decr_mult (config_with 500000 6000000 2000) 0.5))
                     (sample 10 30.0 5.0 6000)))
             (sample 200 500.0 5.0 6250)).
    + vm_compute. reflexivity.
    + right. vm_compute. reflexivity.
    + vm_compute. reflexivity.
    + vm_compute. reflexivity.
    + reflexivity.
    + discriminate.
    + vm_compute. split; discriminate.
    + vm_compute. split; discriminate.
Defined.

(** C5 as stated fails.  From the initial state (500 to 6000 kbps, latency
    2000 ms): a good tick at 1000 ms decides 6 000 000; the tick at 1500 ms
    with [rtt = 700] is congested and comes after [next_decr = 0], but it
    is an emergency and decides 500 000, a ratio of 0.083; the tick at
    2000 ms ([bs = 200]) is congested and comes after [next_decr = 1700],
    the product 375 000 is clamped up to [min_bitrate], and the ratio is 1.
    Below the set-points of the amended claim the rounding to 100 000
    alone leaves the band, with neither emergency nor clamping: under the
    default multiplier, 299 000 leads to 224 250 and both decisions are
    200 000; under a multiplier of 0.89, 899 000 leads to 800 110 and both
    decisions are 800 000, a ratio of 1 against a band that ends at 0.99.
    The last four lines say the same of the band on exact numbers. *)
Lemma aimd_ratio_outside_band :
  map new_bitrate
    (run balancer_aimd (aimd_state_with 500000 6000000 2000)
       [sample 10 30.0 5.0 1000; sample 200 700.0 5.0 1500;
        sample 200 500.0 5.0 2000])
  = [6000000; 500000; 500000]
  /\ map next_decr
       (states balancer_aimd (aimd_state_with 500000 6000000 2000)
          [sample 10 30.0 5.0 1000; sample 200 700.0 5.0 1500;
           sample 200 500.0 5.0 2000])
     = [0; 1700; 2200]
  /\ ratio_in_band 500000 6000000 0.75 = false
  /\ ratio_in_band 500000 500000 0.75 = false
  /\ map new_bitrate
       (run balancer_aimd (aimd_state_with 100000 299000 2000)
          [sample 10 30.0 5.0 1000; sample 200 500.0 5.0 1500])
     = [200000; 200000]
  /\ map cur_bitrate
       (states balancer_aimd (aimd_state_with 100000 299000 2000)
          [sample 10 30.0 5.0 1000; sample 200 500.0 5.0 1500])
     = [299000; 224250]
  /\ ratio_in_band 200000 200000 0.75 = false
  /\ map new_bitrate
       (run balancer_aimd
          (aimd_state_of (with_decr_mult (config_with 300000 899000 2000) 0.89))
          [sample 10 30.0 5.0 1000; sample 200 500.0 5.0 1500])
     = [800000; 800000]
  /\ map cur_bitrate
       (states balancer_aimd
          (aimd_state_of (with_decr_mult (config_with 300000 899000 2000) 0.89))
          [sample 10 30.0 5.0 1000; sample 200 500.0 5.0 1500])
     = [899000; 800110]
  /\ ratio_in_band 800000 800000 0.89 = false
  /\ stands_for 0.75 (3 # 4)
  /\ ~ ratio_around 500000 6000000 (3 # 4)
  /\ ~ ratio_around 200000 200000 (3 # 4)
  /\ (exists mu,
        stands_for 0.89 mu /\ (0 < mu)%Q /\ (mu <= 1)%Q
        /\ ~ ratio_around 800000 800000 mu).
Proof.
  do 10 (split; [vm_compute; reflexivity|]).
  split; [reflexivity|].
  split; [intros [H _]; revert H; vm_compute; intros H; apply H; reflexivity|].
  split; [intros [_ H]; revert H; vm_compute; intros H; apply H; reflexivity|].
  exists (8016407336719483 # 9007199254740992).
  split; [reflexivity|]. split; [reflexivity|].
  split; [vm_compute; discriminate|].
  intros [_ H]. revert H. vm_compute. intros H. apply H. reflexivity.
Qed.

End AimdDecrease.

(** ** The loss threshold of the adaptive algorithm *)

Section LossThreshold.

Import Balancer Trace Scenario CInt BitrateConst.

(** C6, on the code.  [balancer_runner_init] composes the same runner
    whatever [[adaptive] loss_threshold] the configuration carries: the
    value is never copied.  With the threshold set to 2.0, a first sample
    that reports 8 lost packets brings [loss_rate] to 0.8, above
    [LOSS_RATE_THRESHOLD] and below 2.0, and the decision is the heavy
    decrease to 5 300 000; the same sample without loss decides
    6 000 000. *)
Theorem loss_threshold_never_consulted :
  (forall runner cfg x override latency pkt_size,
     Runner.balancer_runner_init runner (with_loss_threshold cfg x)
       override latency pkt_size
     = Runner.balancer_runner_init runner cfg override latency pkt_size)
  /\ (CDouble.gt
        (BitrateControl.loss_rate
           (fst (fst (BitrateControl.bitrate_update
                        (context_with 300000 6000000 2000)
                        10 30.0 5.0 1000 8 0))))
        LOSS_RATE_THRESHOLD = true
      /\ CDouble.gt
           (BitrateControl.loss_rate
              (fst (fst (BitrateControl.bitrate_update
                           (context_with 300000 6000000 2000)
                           10 30.0 5.0 1000 8 0))))
           2.0 = false
      /\ option_map (fun r => new_bitrate (snd r))
           (Runner.balancer_runner_step
              (snd (Runner.balancer_runner_init blank_runner
                      (with_loss_threshold Config.config_init_defaults 2.0)
                      None 2000 1316))
              (lossy_sample 8 1000))
         = Some 5300000
      /\ option_map (fun r => new_bitrate (snd r))
           (Runner.balancer_runner_step
              (snd (Runner.balancer_runner_init blank_runner
                      (with_loss_threshold Config.config_init_defaults 2.0)
                      None 2000 1316))
              (lossy_sample 0 1000))
         = Some 6000000).
Proof.
  split; [intros; reflexivity|].
  repeat split; vm_compute; reflexivity.
Qed.

End LossThreshold.

(** ** The legacy bitrate file: what [parse_bitrate] accepts *)

Section ParseFacts.
Import Parse Grammar BitrateConst CInt.
Local Open Scope string_scope.
Local Open Scope Z_scope.

Lemma skip_isspace_split s :
  exists lead, s = lead ++ skip_isspace s /\ all_chars isspace lead = true.
Proof.
  induction s as [|c s IH]; cbn [skip_isspace].
  - exists "". split; reflexivity.
  - destruct (isspace c) eqn:E.
    + destruct IH as [lead [Hs Hl]]. exists (String c lead). cbn.
      rewrite E, Hl. split; [f_equal; exact Hs|reflexivity].
    + exists "". split; reflexivity.
Qed.

Lemma skip_isspace_app lead body :
  all_chars isspace lead = true -> starts_with isspace body = false ->
  skip_isspace (lead ++ body) = body.
Proof.
  intros Hl Hb. induction lead as [|c lead IH]; cbn in *.
  - destruct body as [|c b]; [reflexivity|]. cbn in *. rewrite Hb. reflexivity.
  - apply andb_true_iff in Hl. destruct Hl as [Hc Hl]. rewrite Hc. apply IH, Hl.
Qed.

Lemma skip_isspace_stops s : starts_with isspace (skip_isspace s) = false.
Proof.
  induction s as [|c s IH]; cbn [skip_isspace]; [reflexivity|].
  destruct (isspace c) eqn:E; [exact IH|]. cbn. exact E.
Qed.

Lemma skip_trailing_split s :
  exists trail, s = trail ++ skip_trailing s
                /\ all_chars is_trailing_space trail = true.
Proof.
  induction s as [|c s IH]; cbn [skip_trailing].
  - exists "". split; reflexivity.
  - destruct (is_trailing_space c) eqn:E.
    + destruct IH as [trail [Hs Hl]]. exists (String c trail). cbn.
      rewrite E, Hl. split; [f_equal; exact Hs|reflexivity].
    + exists "". split; reflexivity.
Qed.

Lemma skip_trailing_app trail rest :
  all_chars is_trailing_space trail = true ->
  starts_with is_trailing_space rest = false ->
  skip_trailing (trail ++ rest) = rest.
Proof.
  intros Hl Hb. induction trail as [|c trail IH]; cbn in *.
  - destruct rest as [|c b]; [reflexivity|]. cbn in *. rewrite Hb. reflexivity.
  - apply andb_true_iff in Hl. destruct Hl as [Hc Hl]. rewrite Hc. apply IH, Hl.
Qed.

Lemma read_digits_split s :
  forall acc n,
  exists digits,
    s = digits ++ snd (read_digits s acc n)
    /\ all_chars isdigit digits = true
    /\ read_digits s acc n
       = (digits_onto acc digits, (n + length digits)%nat,
          snd (read_digits s acc n))
    /\ starts_with isdigit (snd (read_digits s acc n)) = false.
Proof.
  induction s as [|c s IH]; intros acc n; cbn [read_digits].
  - exists "". cbn. rewrite Nat.add_0_r. repeat split.
  - destruct (isdigit c) eqn:E.
    + destruct (IH (acc * 10 + digit_value c) (S n)) as [ds (Hs & Hd & Hr & Hn)].
      exists (String c ds). cbn [append all_chars length].
      rewrite E, Hd. split; [f_equal; exact Hs|]. split; [reflexivity|].
      split; [|exact Hn]. rewrite Hr at 1. unfold digits_onto. cbn.
      rewrite Nat.add_succ_r. reflexivity.
    + exists "". cbn. rewrite E, Nat.add_0_r. repeat split.
Qed.

Lemma read_digits_app digits rest :
  all_chars isdigit digits = true -> starts_with isdigit rest = false ->
  forall acc n,
    read_digits (digits ++ rest) acc n
    = (digits_onto acc digits, (n + length digits)%nat, rest).
Proof.
  intros Hd Hr. induction digits as [|c ds IH]; intros acc n; cbn in *.
  - rewrite Nat.add_0_r. destruct rest as [|c r]; [reflexivity|].
    cbn in *. rewrite Hr. reflexivity.
  - apply andb_true_iff in Hd. destruct Hd as [Hc Hd]. rewrite Hc.
    rewrite (IH Hd). unfold digits_onto. cbn. rewrite Nat.add_succ_r. reflexivity.
Qed.

Lemma digit_value_nonneg c : isdigit c = true -> 0 <= digit_value c.
Proof.
  unfold isdigit, digit_value. intros H. apply andb_true_iff in H.
  destruct H as [H _]. apply Z.leb_le in H. lia.
Qed.

Lemma digits_onto_nonneg digits :
  all_chars isdigit digits = true ->
  forall acc, 0 <= acc -> 0 <= digits_onto acc digits.
Proof.
  unfold digits_onto. induction digits as [|c ds IH]; intros Hd acc Hacc; cbn in *.
  - exact Hacc.
  - apply andb_true_iff in Hd. destruct Hd as [Hc Hd]. apply IH; [exact Hd|].
    pose proof (digit_value_nonneg c Hc). lia.
Qed.

Lemma digits_onto_zero digits : digits_onto 0 digits = decimal_value digits.
Proof. reflexivity. Qed.

(** How the character classes of the parser exclude one another. *)
Lemma char_classes c :
  (isdigit c = true ->
   isspace c = false /\ is_trailing_space c = false
   /\ Ascii.eqb c "-" = false /\ Ascii.eqb c "+" = false
   /\ Ascii.eqb c NUL = false)
  /\ (isspace c = true -> Ascii.eqb c NUL = false)
  /\ (is_trailing_space c = true ->
      isdigit c = false /\ Ascii.eqb c NUL = false)
  /\ (Ascii.eqb c NUL = true ->
      isdigit c = false /\ is_trailing_space c = false)
  /\ (Ascii.eqb c "+" = true ->
      isspace c = false /\ Ascii.eqb c NUL = false /\ c = "+"%char).
Proof.
  destruct c as [b0 b1 b2 b3 b4 b5 b6 b7].
  destruct b0, b1, b2, b3, b4, b5, b6, b7; vm_compute;
    repeat split; intros; try reflexivity; discriminate.
Qed.

Lemma terminator_stops rest :
  at_terminator rest = true ->
  starts_with isdigit rest = false
  /\ starts_with is_trailing_space rest = false.
Proof.
  destruct rest as [|c r]; cbn; [split; reflexivity|]. intros H.
  destruct (char_classes c) as (_ & _ & _ & Hn & _). destruct (Hn H). split; assumption.
Qed.

Lemma trail_stops trail rest :
  all_chars is_trailing_space trail = true -> at_terminator rest = true ->
  starts_with isdigit (trail ++ rest) = false.
Proof.
  intros Ht Hr. destruct trail as [|c t]; cbn in *.
  - apply terminator_stops. exact Hr.
  - apply andb_true_iff in Ht. destruct Ht as [Hc _].
    destruct (char_classes c) as (_ & _ & Hs & _). apply Hs. exact Hc.
Qed.

Lemma bitrate_fits_int v :
  MIN_BITRATE <= v <= ABS_MAX_BITRATE -> to_int v = v.
Proof.
  unfold MIN_BITRATE, ABS_MAX_BITRATE. intros H. apply Facts.to_int_id.
  unfold int_range, INT_MIN, INT_MAX. lia.
Qed.

(** What [strtol] and the checks of [parse_long] do on a number without
    sign followed by trailing space and the terminator. *)
Lemma parse_digits_tail digits trail rest str :
  digits <> "" ->
  all_chars isdigit digits = true ->
  all_chars is_trailing_space trail = true ->
  at_terminator rest = true ->
  MIN_BITRATE <= decimal_value digits <= ABS_MAX_BITRATE ->
  (let '(magnitude, count, tail) := read_digits (digits ++ trail ++ rest) 0 0 in
   match count with
   | O => {| value := 0; endptr := str; converted := false; erange := false |}
   | S _ =>
       if magnitude <? LONG_MIN then
         {| value := LONG_MIN; endptr := tail; converted := true; erange := true |}
       else if LONG_MAX <? magnitude then
         {| value := LONG_MAX; endptr := tail; converted := true; erange := true |}
       else
         {| value := magnitude; endptr := tail; converted := true; erange := false |}
   end)
  = {| value := decimal_value digits; endptr := trail ++ rest;
       converted := true; erange := false |}.
Proof.
  intros Hne Hd Ht Hr Hrange.
  rewrite (read_digits_app digits (trail ++ rest) Hd (trail_stops _ _ Ht Hr)).
  destruct digits as [|c ds]; [contradiction|]. cbn [length Nat.add].
  fold (decimal_value (String c ds)).
  unfold MIN_BITRATE, ABS_MAX_BITRATE, LONG_MIN, LONG_MAX in *.
  destruct (_ <? - 2 ^ 63) eqn:E1; [apply Z.ltb_lt in E1; lia|].
  destruct (2 ^ 63 - 1 <? _) eqn:E2; [apply Z.ltb_lt in E2; lia|].
  reflexivity.
Qed.

Lemma accepted_parses s v : accepted s v -> parse_bitrate (Some s) = v.
Proof.
  intros (lead & plus & digits & trail & rest & Hs & Hlead & Hplus & Hne
          & Hd & Ht & Hr & Hv & Hrange).
  assert (Hfirst : exists c tl, plus ++ digits ++ trail ++ rest = String c tl
                                /\ isspace c = false /\ Ascii.eqb c NUL = false).
  { destruct Hplus as [->| ->].
    - destruct digits as [|c ds]; [contradiction|]. exists c. eexists.
      split; [reflexivity|]. cbn in Hd. apply andb_true_iff in Hd.
      destruct Hd as [Hc _]. destruct (char_classes c) as (Hdig & _).
      destruct (Hdig Hc) as (? & _ & _ & _ & ?). split; assumption.
    - exists "+"%char. eexists. split; [reflexivity|]. split; reflexivity. }
  destruct Hfirst as (c & tl & Hbody & Hcs & Hcn).
  assert (Hterm : at_terminator s = false).
  { rewrite Hs, Hbody. destruct lead as [|l ls]; cbn; [exact Hcn|].
    cbn in Hlead. apply andb_true_iff in Hlead. destruct Hlead as [Hl _].
    destruct (char_classes l) as (_ & Hsp & _). apply Hsp. exact Hl. }
  assert (Hskip : skip_isspace s = plus ++ digits ++ trail ++ rest).
  { rewrite Hs. apply skip_isspace_app; [exact Hlead|]. rewrite Hbody. exact Hcs. }
  assert (Hstr : strtol s
                 = {| value := v; endptr := trail ++ rest;
                      converted := true; erange := false |}).
  { unfold strtol. rewrite Hskip. subst v. destruct Hplus as [->| ->].
    - cbn [append]. destruct digits as [|d ds]; [contradiction|].
      cbn [append]. pose proof Hd as Hd'. cbn in Hd'.
      apply andb_true_iff in Hd'. destruct Hd' as [Hc _].
      destruct (char_classes d) as (Hdig & _).
      destruct (Hdig Hc) as (_ & _ & Hm & Hp & _). rewrite Hm, Hp.
      change (String d (ds ++ trail ++ rest)) with (String d ds ++ trail ++ rest).
      apply parse_digits_tail; assumption.
    - cbn [append]. cbn [Ascii.eqb Bool.eqb].
      apply parse_digits_tail; assumption. }
  unfold parse_bitrate, parse_long. rewrite Hterm, Hstr.
  cbn [erange converted endptr value orb negb].
  rewrite (skip_trailing_app trail rest Ht (proj2 (terminator_stops rest Hr))).
  rewrite Hr. cbn [negb].
  assert (Hin : (v <? MIN_BITRATE) || (ABS_MAX_BITRATE <? v) = false).
  { apply orb_false_iff. split; apply Z.ltb_ge; lia. }
  rewrite Hin. apply bitrate_fits_int. exact Hrange.
Qed.

(** What a successful [strtol], followed by the checks of [parse_long],
    says about the text after the leading space and the sign. *)
Lemma digits_tail_parsed body str r :
  r = (let '(magnitude, count, tail) := read_digits body 0 0 in
       match count with
       | O => {| value := 0; endptr := str; converted := false;
                 erange := false |}
       | S _ =>
           if magnitude <? LONG_MIN then
             {| value := LONG_MIN; endptr := tail; converted := true;
                erange := true |}
           else if LONG_MAX <? magnitude then
             {| value := LONG_MAX; endptr := tail; converted := true;
                erange := true |}
           else
             {| value := magnitude; endptr := tail; converted := true;
                erange := false |}
       end) ->
  erange r || negb (converted r) = false ->
  negb (at_terminator (skip_trailing (endptr r))) = false ->
  exists digits trail rest,
    body = digits ++ trail ++ rest
    /\ digits <> ""
    /\ all_chars isdigit digits = true
    /\ all_chars is_trailing_space trail = true
    /\ at_terminator rest = true
    /\ value r = decimal_value digits.
Proof.
  intros Hr He Ht.
  destruct (read_digits_split body 0 0%nat) as (digits & Hb & Hd & Hrd & _).
  rewrite Hrd in Hr. set (tail := snd (read_digits body 0 0)) in *.
  destruct digits as [|c ds].
  - cbn in Hr. subst r. discriminate.
  - cbn [length Nat.add] in Hr. fold (decimal_value (String c ds)) in Hr.
    destruct (skip_trailing_split tail) as (trail & Htail & Htrail).
    exists (String c ds), trail, (skip_trailing tail).
    destruct (_ <? LONG_MIN) eqn:E1; [subst r; discriminate|].
    destruct (LONG_MAX <? _) eqn:E2; [subst r; discriminate|].
    subst r. cbn [endptr value] in *.
    apply negb_false_iff in Ht.
    split; [rewrite <- Htail; exact Hb|]. split; [discriminate|].
    repeat split; assumption.
Qed.

Lemma parses_accepted s v :
  parse_bitrate (Some s) = v -> v <> -1 -> accepted s v.
Proof.
  unfold parse_bitrate, parse_long. intros Hp Hne.
  destruct (at_terminator s) eqn:Eterm; [congruence|].
  remember (strtol s) as r eqn:Hr.
  destruct (erange r || negb (converted r)) eqn:E1; [congruence|].
  destruct (negb (at_terminator (skip_trailing (endptr r)))) eqn:E2;
    [congruence|].
  destruct ((value r <? MIN_BITRATE) || (ABS_MAX_BITRATE <? value r)) eqn:E3;
    [congruence|].
  apply orb_false_iff in E3. destruct E3 as [Hlo Hhi].
  apply Z.ltb_ge in Hlo. apply Z.ltb_ge in Hhi.
  rewrite bitrate_fits_int in Hp by lia. subst v.
  unfold strtol in Hr.
  destruct (skip_isspace_split s) as (lead & Hs & Hlead).
  destruct (skip_isspace s) as [|c body] eqn:Eskip.
  - cbn in Hr. subst r. discriminate.
  - destruct (Ascii.eqb c "-") eqn:Eminus;
      [|destruct (Ascii.eqb c "+") eqn:Eplus].
    + (* a minus sign: the value is not positive *)
      exfalso.
      destruct (read_digits_split body 0 0%nat) as (digits & _ & Hd & Hrd & _).
      rewrite Hrd in Hr.
      pose proof (digits_onto_nonneg digits Hd 0 ltac:(lia)) as Hnn.
      destruct (0 + length digits)%nat; [subst r; discriminate|].
      unfold MIN_BITRATE in Hlo.
      destruct (_ <? LONG_MIN) eqn:F1; [subst r; discriminate|].
      destruct (LONG_MAX <? _) eqn:F2; [subst r; discriminate|].
      subst r. cbn [value] in Hlo. lia.
    + (* a plus sign *)
      destruct (digits_tail_parsed body s r Hr E1 E2)
        as (digits & trail & rest & Hb & Hdne & Hd & Ht & Hrest & Hval).
      destruct (char_classes c) as (_ & _ & _ & _ & Hpl).
      destruct (Hpl Eplus) as (_ & _ & ->).
      exists lead, "+", digits, trail, rest.
      split; [rewrite Hs, Hb; reflexivity|].
      repeat split; first [assumption | lia | right; reflexivity].
    + (* no sign *)
      destruct (digits_tail_parsed (String c body) s r Hr E1 E2)
        as (digits & trail & rest & Hb & Hdne & Hd & Ht & Hrest & Hval).
      exists lead, "", digits, trail, rest.
      split; [rewrite Hs, Hb; reflexivity|].
      repeat split; first [assumption | lia | left; reflexivity].
Qed.

(** C9, as amended.  [parse_bitrate] returns [v], other than -1, exactly
    for the strings made of white space that [strtol] skips (space, [\t],
    [\n], [\v], [\f], [\r]), an optional ['+'], one or more decimal digits
    denoting [v], then spaces, tabs, newlines or carriage returns up to the
    terminator, with [300 000 <= v <= 30 000 000]; for every other string,
    and for [NULL], it returns -1. *)
Theorem parse_bitrate_accepts_exactly :
  (forall (s : string) (v : Z),
     (parse_bitrate (Some s) = v /\ v <> -1) <-> accepted s v)
  /\ (forall s : string,
        (forall v, ~ accepted s v) -> parse_bitrate (Some s) = -1)
  /\ parse_bitrate None = -1.
Proof.
  split; [|split; [|reflexivity]].
  - intros s v. split.
    + intros [Hp Hne]. apply parses_accepted; assumption.
    + intros Hacc. split; [apply accepted_parses; exact Hacc|].
      destruct Hacc as (_ & _ & _ & _ & _ & _ & _ & _ & _ & _ & _ & _ & _ & Hlo & _).
      unfold MIN_BITRATE in Hlo. lia.
  - intros s Hnone. destruct (Z.eq_dec (parse_bitrate (Some s)) (-1)) as [H|H];
      [exact H|].
    exfalso. apply (Hnone (parse_bitrate (Some s))).
    apply parses_accepted; [reflexivity|exact H].
Qed.

(** A line of the file as [getline] returns it, and the rejections the
    specification lists. *)
Lemma parse_bitrate_accepts_exactly_witness :
  parse_bitrate (Some ("6000000" ++ String "010"%char "")) = 6000000
  /\ parse_bitrate (Some "") = -1
  /\ parse_bitrate (Some "fast") = -1
  /\ parse_bitrate (Some "6000000bps") = -1
  /\ parse_bitrate (Some "299999") = -1
  /\ parse_bitrate (Some "30000001") = -1.
Proof.
  split.
  - apply (proj1 parse_bitrate_accepts_exactly).
    exists "", "", "6000000", (String "010"%char ""), "".
    unfold MIN_BITRATE, ABS_MAX_BITRATE.
    repeat split;
      first [reflexivity | discriminate | left; reflexivity
            | vm_compute; discriminate].
  - repeat split; reflexivity.
Defined.

(** C9 as stated fails: a line that begins with a space is not a decimal
    integer followed by optional white space, signed or not, and
    [parse_bitrate] returns its value all the same, because [strtol] skips
    leading white space. *)
Lemma parse_bitrate_skips_leading_space :
  parse_bitrate (Some " 500000") = 500000
  /\ ~ decimal_then_space " 500000" 500000.
Proof.
  split; [reflexivity|].
  intros (sign & digits & trail & Hs & Hsign & Hne & Hd & _).
  destruct digits as [|c ds]; [contradiction|].
  destruct Hsign as [->|[->| ->]]; cbn in Hs; try discriminate.
  injection Hs as <- _. discriminate.
Qed.

End ParseFacts.

(** ** Further properties of the runner and of the algorithms *)

Section EqualBounds.

Import Balancer Trace Scenario CInt BitrateConst Facts.

(** With [min_bitrate = max_bitrate = B] every decision of every algorithm
    is [B] rounded down to a multiple of 100 000, whatever the samples. *)
Theorem equal_bounds_pin_decisions :
  forall (a : BalancerAlgorithm) (cfg : BalancerConfig) (s0 : state_t a)
         (inputs : list BalancerInput) (B : Z),
    In a all_variants ->
    init a cfg = Some s0 ->
    min_bitrate cfg = B -> max_bitrate cfg = B -> int_range B ->
    Forall (fun o => new_bitrate o = round_100k B) (run a s0 inputs).
Proof.
  intros a cfg s0 inputs B Hin Hinit Hlo Hhi HB.
  destruct Hin as [<-|[<-|[<-|[]]]].
  - apply run_Forall with
      (Inv := fun s : Adaptive.AdaptiveState =>
                BitrateControl.min_bitrate (Adaptive.ctx s) = B
                /\ BitrateControl.max_bitrate (Adaptive.ctx s) = B).
    + intros s i [Hl Hh]. cbn [step Adaptive.balancer_adaptive].
      rewrite AdaptiveFacts.adaptive_step_ctx,
        AdaptiveFacts.adaptive_step_new_bitrate.
      split; [split; [rewrite <- Hl|rewrite <- Hh]; reflexivity|].
      destruct (AdaptiveFacts.bitrate_update_returns (Adaptive.ctx s)
                  (buffer_size i) (rtt i) (send_rate_mbps i) (timestamp i)
                  (pkt_loss_total i) (pkt_retrans_total i)) as [_ Hnew].
      cbv zeta in Hnew. rewrite Hnew. f_equal.
      pose proof (AdaptiveFacts.bitrate_update_cur_bounds (Adaptive.ctx s)
                    (buffer_size i) (rtt i) (send_rate_mbps i) (timestamp i)
                    (pkt_loss_total i) (pkt_retrans_total i)) as Hcur.
      rewrite Hl, Hh in Hcur. specialize (Hcur HB HB ltac:(lia)). lia.
    + unfold init, Adaptive.balancer_adaptive, Adaptive.adaptive_init in Hinit.
      injection Hinit as <-. split; assumption.
  - apply run_Forall with
      (Inv := fun s : Aimd.AimdState =>
                Aimd.min_bitrate s = B /\ Aimd.max_bitrate s = B).
    + intros s i [Hl Hh]. cbn [step Aimd.balancer_aimd].
      split; [split; [rewrite <- Hl|rewrite <- Hh]; reflexivity|].
      rewrite AimdFacts.aimd_step_new_bitrate. f_equal.
      pose proof (AimdFacts.aimd_step_cur_bounds s i) as Hcur.
      rewrite Hl, Hh in Hcur. specialize (Hcur ltac:(lia)). lia.
    + unfold init, Aimd.balancer_aimd, Aimd.aimd_init in Hinit.
      injection Hinit as <-. split; assumption.
  - apply run_Forall with
      (Inv := fun s : Fixed.FixedState => Fixed.fixed_bitrate s = round_100k B).
    + intros s i Hs. cbn [step Fixed.balancer_fixed Fixed.fixed_step fst snd].
      split; [exact Hs|]. cbn [new_bitrate]. exact Hs.
    + unfold init, Fixed.balancer_fixed, Fixed.fixed_init in Hinit.
      injection Hinit as <-. cbn [Fixed.fixed_bitrate]. rewrite Hhi. reflexivity.
Qed.

(** Bounds of 3000 kbps on both sides, as in the test of that name: ten
    good samples all decide 3 000 000. *)
Lemma equal_bounds_pin_decisions_witness :
  Forall (fun o => new_bitrate o = round_100k 3000000)
    (run Adaptive.balancer_adaptive
       {| Adaptive.ctx := context_with 3000000 3000000 2000 |}
       (map (fun k => sample 10 30.0 5.0 (500 * k)) [1; 2; 3; 4; 5; 6; 7; 8; 9; 10])).
Proof.
  apply (equal_bounds_pin_decisions Adaptive.balancer_adaptive
           (config_with 3000000 3000000 2000)).
  - left. reflexivity.
  - reflexivity.
  - reflexivity.
  - reflexivity.
  - unfold int_range, INT_MIN, INT_MAX. lia.
Defined.

(** The fixed algorithm answers every sample with [max_bitrate] rounded
    down, keeps its state, reports a zero throughput and echoes the
    sample's RTT and buffer size; scenario S1 (max 4000 kbps) decides
    4 000 000 twice. *)
Theorem fixed_is_constant :
  (forall cfg s0 i,
     Fixed.fixed_init cfg = Some s0 ->
     fst (Fixed.fixed_step s0 i) = s0
     /\ new_bitrate (snd (Fixed.fixed_step s0 i)) = round_100k (max_bitrate cfg)
     /\ throughput (snd (Fixed.fixed_step s0 i)) = 0.0%float
     /\ out_rtt (snd (Fixed.fixed_step s0 i)) = CDouble.to_int (rtt i)
     /\ bs (snd (Fixed.fixed_step s0 i)) = buffer_size i)
  /\ map new_bitrate
       (run Fixed.balancer_fixed
          {| Fixed.fixed_bitrate := round_100k 4000000 |}
          [sample 5 20.0 4.0 1000; sample 200 600.0 1.0 2000])
     = [4000000; 4000000].
Proof.
  split; [|reflexivity].
  intros cfg s0 i Hinit. unfold Fixed.fixed_init in Hinit.
  injection Hinit as <-. repeat split.
Qed.

End EqualBounds.

Section RunnerSelection.

Import Balancer Registry Runner Trace Scenario CInt BitrateConst Facts.

Local Open Scope string_scope.

(** [balancer_runner_init] with an override that the registry does not know
    fails with -1 and leaves no algorithm selected; without an override, a
    configured name that the registry does not know falls back to the
    default algorithm. *)
Theorem runner_init_selects_algorithm :
  forall runner cfg latency pkt_size,
    (forall override,
       balancer_find (Some override) = None ->
       fst (balancer_runner_init runner cfg (Some override) latency pkt_size)
       = -1
       /\ algo (snd (balancer_runner_init runner cfg (Some override)
                       latency pkt_size)) = None
       /\ config (snd (balancer_runner_init runner cfg (Some override)
                         latency pkt_size)) = config runner)
    /\ (balancer_find (Some (Config.balancer cfg)) = None ->
        fst (balancer_runner_init runner cfg None latency pkt_size) = 0
        /\ balancer_runner_get_name
             (snd (balancer_runner_init runner cfg None latency pkt_size))
           = "adaptive").
Proof.
  intros runner cfg latency pkt_size. split.
  - intros override Hnone. unfold balancer_runner_init. rewrite Hnone.
    repeat split.
  - intros Hnone. unfold balancer_runner_init. rewrite Hnone. split; reflexivity.
Qed.

Lemma runner_init_selects_algorithm_witness :
  fst (balancer_runner_init blank_runner Config.config_init_defaults
         (Some "bbr") 2000 1316) = -1.
Proof.
  apply (proj1 (runner_init_selects_algorithm blank_runner
                  Config.config_init_defaults 2000 1316) "bbr").
  reflexivity.
Defined.

Lemma runner_step_bound (a : BalancerAlgorithm) (s : state_t a) cfg input :
  balancer_runner_step {| algo := Some a; state := Some s; config := cfg |} input
  = Some ({| algo := Some a; state := Some (fst (step a s input));
             config := cfg |},
          snd (step a s input)).
Proof.
  cbn [balancer_runner_step algo state config].
  destruct (step a s input); reflexivity.
Qed.

Lemma update_bounds_bound (a : BalancerAlgorithm) (s : state_t a) cfg lo hi :
  balancer_runner_update_bounds
    {| algo := Some a; state := Some s; config := cfg |} lo hi
  = {| algo := Some a; state := init a (set_bounds cfg lo hi);
       config := set_bounds cfg lo hi |}.
Proof. reflexivity. Qed.

(** After [balancer_runner_update_bounds] with [0 <= min <= max], the first
    decision of a runner that holds one of the three algorithms lies within
    the new bounds (up to the rounding of the lower one) and is a multiple
    of 100 000. *)
Theorem first_decision_after_update_bounds :
  forall (a : BalancerAlgorithm) (s : state_t a) (cfg : BalancerConfig)
         (min_br max_br : Z) (input : BalancerInput),
    In a all_variants ->
    0 <= min_br <= max_br -> max_br <= INT_MAX ->
    exists runner' out,
      balancer_runner_step
        (balancer_runner_update_bounds
           {| algo := Some a; state := Some s; config := cfg |} min_br max_br)
        input
      = Some (runner', out)
      /\ rounded_and_bounded min_br max_br out.
Proof.
  intros a s cfg min_br max_br input Hin Hb Hmax.
  set (cfg' := set_bounds cfg min_br max_br).
  assert (Hb' : 0 <= min_bitrate cfg' <= max_bitrate cfg') by exact Hb.
  rewrite update_bounds_bound. fold cfg'.
  destruct Hin as [<-|[<-|[<-|[]]]].
  - cbn [init Adaptive.balancer_adaptive]. unfold Adaptive.adaptive_init.
    rewrite (runner_step_bound Adaptive.balancer_adaptive).
    eexists. eexists. split; [reflexivity|].
    exact (Forall_inv
             (adaptive_rounded_and_bounded cfg' _ [input] eq_refl Hb' Hmax)).
  - cbn [init Aimd.balancer_aimd]. unfold Aimd.aimd_init.
    rewrite (runner_step_bound Aimd.balancer_aimd).
    eexists. eexists. split; [reflexivity|].
    exact (Forall_inv (aimd_rounded_and_bounded cfg' _ [input] eq_refl Hb')).
  - cbn [init Fixed.balancer_fixed]. unfold Fixed.fixed_init.
    rewrite (runner_step_bound Fixed.balancer_fixed).
    eexists. eexists. split; [reflexivity|].
    exact (Forall_inv (fixed_rounded_and_bounded cfg' _ [input] eq_refl Hb')).
Qed.

(** Scenario S5, the tick after the update: the adaptive runner, given the
    bounds 1 000 000 and 3 000 000, decides 3 000 000 on a good sample. *)
Lemma first_decision_after_update_bounds_witness :
  exists runner' out,
    balancer_runner_step
      (balancer_runner_update_bounds
         {| algo := Some Adaptive.balancer_adaptive;
            state := Some {| Adaptive.ctx := context_with 500000 6000000 2000 |};
            config := config_with 500000 6000000 2000 |}
         1000000 3000000)
      (sample 10 30.0 5.0 1000)
    = Some (runner', out)
    /\ rounded_and_bounded 1000000 3000000 out.
Proof.
  apply (first_decision_after_update_bounds Adaptive.balancer_adaptive).
  - left. reflexivity.
  - lia.
  - unfold INT_MAX. lia.
Defined.

End RunnerSelection.

(** ** [strtol] and [parse_long] under any bounds *)

Section LongFacts.
Import Parse Grammar LongGrammar CInt.
Local Open Scope string_scope.
Local Open Scope Z_scope.

Lemma sign_first sign digits tail :
  (sign = "" \/ sign = "+" \/ sign = "-") ->
  digits <> "" -> all_chars isdigit digits = true ->
  exists c rest, sign ++ digits ++ tail = String c rest
                 /\ isspace c = false /\ Ascii.eqb c NUL = false.
Proof.
  intros Hsign Hne Hd. destruct Hsign as [->|[->| ->]].
  - destruct digits as [|c ds]; [contradiction|]. exists c. eexists.
    split; [reflexivity|]. cbn in Hd. apply andb_true_iff in Hd.
    destruct Hd as [Hc _]. destruct (char_classes c) as (Hdig & _).
    destruct (Hdig Hc) as (? & _ & _ & _ & ?). split; assumption.
  - exists "+"%char. eexists. split; [reflexivity|]. split; reflexivity.
  - exists "-"%char. eexists. split; [reflexivity|]. split; reflexivity.
Qed.

(** [strtol] on white space, an optional sign, digits and a tail that does
    not go on with a digit. *)
Lemma strtol_number lead sign digits tail :
  all_chars isspace lead = true ->
  (sign = "" \/ sign = "+" \/ sign = "-") ->
  digits <> "" -> all_chars isdigit digits = true ->
  starts_with isdigit tail = false ->
  strtol (lead ++ sign ++ digits ++ tail)
  = strtol_answer (signed_value sign digits) tail.
Proof.
  intros Hlead Hsign Hne Hd Htail.
  destruct (sign_first sign digits tail Hsign Hne Hd) as (c & r & Hbody & Hcs & _).
  unfold strtol.
  rewrite (skip_isspace_app lead (sign ++ digits ++ tail) Hlead)
    by (rewrite Hbody; exact Hcs).
  assert (Hlen : exists n, (0 + length digits)%nat = S n).
  { destruct digits as [|d ds]; [contradiction|]. cbn. eexists. reflexivity. }
  destruct Hlen as [n Hlen].
  destruct Hsign as [->|[->| ->]]; unfold signed_value.
  - cbn [append String.eqb]. destruct digits as [|d ds]; [contradiction|].
    cbn [append]. pose proof Hd as Hd'. cbn in Hd'.
    apply andb_true_iff in Hd'. destruct Hd' as [Hc _].
    destruct (char_classes d) as (Hdig & _).
    destruct (Hdig Hc) as (_ & _ & Hm & Hp & _). rewrite Hm, Hp.
    change (String d (ds ++ tail)) with (String d ds ++ tail).
    rewrite (read_digits_app _ _ Hd Htail), Hlen. reflexivity.
  - cbn [append]. cbn [Ascii.eqb Bool.eqb String.eqb].
    rewrite (read_digits_app _ _ Hd Htail), Hlen. reflexivity.
  - cbn [append]. cbn [Ascii.eqb Bool.eqb String.eqb].
    rewrite (read_digits_app _ _ Hd Htail), Hlen. reflexivity.
Qed.

(** Conversely: whatever [strtol] converts has that form. *)
Lemma strtol_converted s :
  converted (strtol s) = true ->
  exists lead sign digits,
    s = lead ++ sign ++ digits ++ endptr (strtol s)
    /\ all_chars isspace lead = true
    /\ (sign = "" \/ sign = "+" \/ sign = "-")
    /\ digits <> "" /\ all_chars isdigit digits = true
    /\ starts_with isdigit (endptr (strtol s)) = false
    /\ strtol s = strtol_answer (signed_value sign digits) (endptr (strtol s)).
Proof.
  intros Hconv.
  destruct (skip_isspace_split s) as (lead & Hs & Hlead).
  assert (Hgen : forall sign body,
            (sign = "" \/ sign = "+" \/ sign = "-") ->
            skip_isspace s = sign ++ body ->
            strtol s
            = (let '(magnitude, count, rest) := read_digits body 0 0%nat in
               match count with
               | O => {| value := 0; endptr := s; converted := false;
                         erange := false |}
               | S _ => strtol_answer
                          (if String.eqb sign "-" then - magnitude else magnitude)
                          rest
               end) ->
            exists lead sign digits,
              s = lead ++ sign ++ digits ++ endptr (strtol s)
              /\ all_chars isspace lead = true
              /\ (sign = "" \/ sign = "+" \/ sign = "-")
              /\ digits <> "" /\ all_chars isdigit digits = true
              /\ starts_with isdigit (endptr (strtol s)) = false
              /\ strtol s
                 = strtol_answer (signed_value sign digits) (endptr (strtol s))).
  { intros sign body Hsign Hskip Hst.
    destruct (read_digits_split body 0 0%nat) as (digits & Hb & Hd & Hrd & Hstop).
    rewrite Hrd in Hst. set (tail := snd (read_digits body 0 0)) in *.
    destruct digits as [|c ds].
    - cbn in Hst. rewrite Hst in Hconv. discriminate.
    - cbn [length Nat.add] in Hst.
      fold (decimal_value (String c ds)) in Hst.
      assert (Hend : endptr (strtol s) = tail).
      { rewrite Hst. unfold strtol_answer.
        destruct (_ <? LONG_MIN); [reflexivity|].
        destruct (LONG_MAX <? _); reflexivity. }
      exists lead, sign, (String c ds). rewrite Hend.
      split; [rewrite Hs at 1; rewrite Hskip, Hb; reflexivity|].
      split; [exact Hlead|]. split; [exact Hsign|]. split; [discriminate|].
      split; [exact Hd|]. split; [exact Hstop|]. exact Hst. }
  destruct (skip_isspace s) as [|c body] eqn:Eskip.
  - exfalso. unfold strtol in Hconv. rewrite Eskip in Hconv. discriminate.
  - destruct (Ascii.eqb c "-") eqn:Eminus;
      [|destruct (Ascii.eqb c "+") eqn:Eplus].
    + apply Ascii.eqb_eq in Eminus. subst c.
      apply (Hgen "-" body); [right; right; reflexivity|reflexivity|].
      unfold strtol. rewrite Eskip. cbn [Ascii.eqb Bool.eqb String.eqb].
      destruct (read_digits body 0 0) as [[m n] r]. destruct n; reflexivity.
    + apply Ascii.eqb_eq in Eplus. subst c.
      apply (Hgen "+" body); [right; left; reflexivity|reflexivity|].
      unfold strtol. rewrite Eskip. cbn [Ascii.eqb Bool.eqb String.eqb].
      destruct (read_digits body 0 0) as [[m n] r]. destruct n; reflexivity.
    + apply (Hgen "" (String c body)); [left; reflexivity|reflexivity|].
      unfold strtol. rewrite Eskip, Eminus, Eplus.
      cbn [String.eqb].
      destruct (read_digits (String c body) 0 0) as [[m n] r].
      destruct n; reflexivity.
Qed.

Lemma strtol_answer_exact exact tail :
  LONG_MIN <= exact <= LONG_MAX ->
  strtol_answer exact tail
  = {| value := exact; endptr := tail; converted := true; erange := false |}.
Proof.
  intros H. unfold strtol_answer.
  destruct (exact <? LONG_MIN) eqn:E1; [apply Z.ltb_lt in E1; lia|].
  destruct (LONG_MAX <? exact) eqn:E2; [apply Z.ltb_lt in E2; lia|].
  reflexivity.
Qed.

Lemma strtol_answer_erange exact tail :
  erange (strtol_answer exact tail) = false -> LONG_MIN <= exact <= LONG_MAX.
Proof.
  unfold strtol_answer.
  destruct (exact <? LONG_MIN) eqn:E1; [discriminate|].
  destruct (LONG_MAX <? exact) eqn:E2; [discriminate|].
  intros _. apply Z.ltb_ge in E1. apply Z.ltb_ge in E2. lia.
Qed.

Lemma parsed_parses s lo hi v : parsed s lo hi v -> parse_long (Some s) lo hi = Some v.
Proof.
  intros (lead & sign & digits & trail & rest & Hs & Hlead & Hsign & Hne
          & Hd & Ht & Hr & Hv & Hlong & Hrange).
  destruct (sign_first sign digits (trail ++ rest) Hsign Hne Hd)
    as (c & tl & Hbody & Hcs & Hcn).
  assert (Hterm : at_terminator s = false).
  { rewrite Hs, Hbody. destruct lead as [|l ls]; cbn; [exact Hcn|].
    cbn in Hlead. apply andb_true_iff in Hlead. destruct Hlead as [Hl _].
    destruct (char_classes l) as (_ & Hsp & _). apply Hsp. exact Hl. }
  unfold parse_long. rewrite Hterm, Hs.
  rewrite (strtol_number lead sign digits (trail ++ rest) Hlead Hsign Hne Hd
             (trail_stops _ _ Ht Hr)).
  rewrite <- Hv, (strtol_answer_exact v _ Hlong).
  cbn [erange converted endptr value orb negb].
  rewrite (skip_trailing_app trail rest Ht (proj2 (terminator_stops rest Hr))).
  rewrite Hr. cbn [negb].
  assert (Hin : (v <? lo) || (hi <? v) = false).
  { apply orb_false_iff. split; apply Z.ltb_ge; lia. }
  rewrite Hin. reflexivity.
Qed.

Lemma parses_parsed s lo hi v : parse_long (Some s) lo hi = Some v -> parsed s lo hi v.
Proof.
  unfold parse_long.
  destruct (at_terminator s) eqn:Eterm; [discriminate|].
  destruct (erange (strtol s) || negb (converted (strtol s))) eqn:E1;
    [discriminate|].
  destruct (negb (at_terminator (skip_trailing (endptr (strtol s))))) eqn:E2;
    [discriminate|].
  destruct ((value (strtol s) <? lo) || (hi <? value (strtol s))) eqn:E3;
    [discriminate|].
  intros [= <-].
  apply orb_false_iff in E1. destruct E1 as [Her Hconv].
  apply negb_false_iff in Hconv. apply negb_false_iff in E2.
  apply orb_false_iff in E3. destruct E3 as [Hlo Hhi].
  apply Z.ltb_ge in Hlo. apply Z.ltb_ge in Hhi.
  destruct (strtol_converted s Hconv)
    as (lead & sign & digits & Hs & Hlead & Hsign & Hne & Hd & _ & Hst).
  destruct (skip_trailing_split (endptr (strtol s))) as (trail & Htail & Htrail).
  rewrite Hst in Her. apply strtol_answer_erange in Her.
  assert (Hval : value (strtol s) = signed_value sign digits).
  { rewrite Hst at 1. rewrite (strtol_answer_exact _ _ Her). reflexivity. }
  exists lead, sign, digits, trail, (skip_trailing (endptr (strtol s))).
  split; [rewrite <- Htail; exact Hs|].
  rewrite Hval in *.
  repeat split; first [assumption | lia | reflexivity].
Qed.

(** [parse_long], as cli_options.c and ceracoder.c define it, stores [v]
    and returns 0 exactly for the strings made of white space that [strtol]
    skips, an optional sign, one or more decimal digits, then spaces, tabs,
    newlines or carriage returns up to the terminator, whose number fits a
    [long] and lies between [min_val] and [max_val]; on every other string,
    and on [NULL], it returns -1. *)
Theorem parse_long_accepts_exactly :
  (forall (s : string) (min_val max_val v : Z),
     parse_long (Some s) min_val max_val = Some v <-> parsed s min_val max_val v)
  /\ (forall min_val max_val, parse_long None min_val max_val = None).
Proof.
  split; [|reflexivity].
  intros s lo hi v. split; [apply parses_parsed|apply parsed_parses].
Qed.

(** The options [-l] and [-d] of cli_options.c: a latency is taken between
    100 and 10 000, a delay between -10 000 and 10 000, and either fits the
    [int] it is stored in. *)
Theorem cli_ranges :
  forall (optarg : string) (v : Z),
    (parse_long (Some optarg) MIN_SRT_LATENCY MAX_SRT_LATENCY = Some v ->
     100 <= v <= 10000 /\ to_int v = v)
    /\ (parse_long (Some optarg) (- MAX_AV_DELAY) MAX_AV_DELAY = Some v ->
        -10000 <= v <= 10000 /\ to_int v = v).
Proof.
  intros optarg v. split; intros H; apply parses_parsed in H;
    destruct H as (_ & _ & _ & _ & _ & _ & _ & _ & _ & _ & _ & _ & _ & _ & Hr);
    unfold MIN_SRT_LATENCY, MAX_SRT_LATENCY, MAX_AV_DELAY in Hr;
    (split; [lia|]); apply Facts.to_int_id;
    unfold int_range, INT_MIN, INT_MAX; lia.
Qed.

End LongFacts.

(** ** The encoder and the housekeeping timer *)

Section EncoderFacts.

Import CInt EncoderControl.

Lemma set_bitrates_absent enc requests :
  element enc = None -> set_bitrates enc requests = (enc, []).
Proof.
  intros Hnone. induction requests as [|b rest IH]; [reflexivity|].
  cbn [set_bitrates]. unfold encoder_control_set_bitrate. rewrite Hnone, IH.
  reflexivity.
Qed.

Lemma last_cons (l : list Z) : forall x d, last (x :: l) d = last l x.
Proof.
  induction l as [|y l IH]; intros x d; [reflexivity|].
  change (last (x :: y :: l) d) with (last (y :: l) d).
  rewrite (IH y d), (IH y x). reflexivity.
Qed.

Lemma set_bitrates_present requests :
  forall enc e,
    element enc = Some e ->
    set_bitrates enc requests
    = ({| element := Some e;
          bitrate_div := bitrate_div enc;
          current_bitrate := last requests (current_bitrate enc) |},
       map (fun b => cdiv b (bitrate_div enc))
         (changes (current_bitrate enc) requests)).
Proof.
  induction requests as [|b rest IH]; intros enc e He.
  - cbn. destruct enc; cbn in *. subst. reflexivity.
  - cbn [set_bitrates changes]. unfold encoder_control_set_bitrate. rewrite He.
    destruct (b =? current_bitrate enc) eqn:E; cbn [negb].
    + apply Z.eqb_eq in E. rewrite (IH enc e He), last_cons. subst b.
      reflexivity.
    + match goal with
      | |- context [set_bitrates ?x rest] => rewrite (IH x e eq_refl)
      end.
      cbn [bitrate_div current_bitrate map]. rewrite last_cons. reflexivity.
Qed.

Lemma changes_no_repeat requests :
  forall prev,
    no_repeat (changes prev requests) = true
    /\ (forall x l, changes prev requests = x :: l -> x <> prev)
    /\ (forall x, In x (changes prev requests) -> In x requests).
Proof.
  induction requests as [|b rest IH]; intros prev; cbn [changes].
  - repeat split; [discriminate|intros x []].
  - destruct (b =? prev) eqn:E.
    + destruct (IH prev) as (Hn & Hh & Hin). repeat split; try assumption.
      intros x Hx. right. apply Hin. exact Hx.
    + apply Z.eqb_neq in E. destruct (IH b) as (Hn & Hh & Hin).
      split; [|split].
      * cbn [no_repeat]. destruct (changes b rest) as [|y l] eqn:Ec;
          [reflexivity|].
        rewrite Hn, andb_true_r. apply negb_true_iff, Z.eqb_neq.
        intros ->. exact (Hh y l eq_refl eq_refl).
      * intros x l [= <- _]. exact E.
      * intros x [<-|Hx]; [left; reflexivity|right; apply Hin; exact Hx].
Qed.

(** [encoder_control_set_bitrate] writes a bitrate only when it differs
    from the one cached by the call before.  Over any sequence of calls on
    an encoder with an element, the values written are the quotients by
    [bitrate_div] of the requests that differ from their predecessor (the
    cache standing before the first), in order, and the cache ends at the
    last request; without an element nothing is written and nothing
    changes. *)
Theorem encoder_writes_only_changes :
  forall (enc : EncoderControl) (requests : list Z),
    (element enc = None -> set_bitrates enc requests = (enc, []))
    /\ (element enc <> None ->
        snd (set_bitrates enc requests)
        = map (fun b => cdiv b (bitrate_div enc))
            (changes (current_bitrate enc) requests)
        /\ current_bitrate (fst (set_bitrates enc requests))
           = last requests (current_bitrate enc)
        /\ bitrate_div (fst (set_bitrates enc requests)) = bitrate_div enc
        /\ no_repeat (changes (current_bitrate enc) requests) = true).
Proof.
  intros enc requests. split; [apply set_bitrates_absent|].
  intros He. destruct (element enc) as [e|] eqn:Ee; [|contradiction].
  rewrite (set_bitrates_present requests enc e Ee). cbn [fst snd].
  repeat split. apply changes_no_repeat.
Qed.

End EncoderFacts.

Section HostFacts.

Import CInt BitrateConst Balancer Runner EncoderControl Host Trace Facts.

Lemma variants_rounded_and_bounded (a : BalancerAlgorithm) cfg s0 inputs :
  In a all_variants -> init a cfg = Some s0 ->
  0 <= min_bitrate cfg <= max_bitrate cfg -> max_bitrate cfg <= INT_MAX ->
  Forall (rounded_and_bounded (min_bitrate cfg) (max_bitrate cfg))
    (run a s0 inputs).
Proof.
  intros Hin Hinit Hb Hmax. destruct Hin as [<-|[<-|[<-|[]]]].
  - exact (adaptive_rounded_and_bounded cfg s0 inputs Hinit Hb Hmax).
  - exact (aimd_rounded_and_bounded cfg s0 inputs Hinit Hb).
  - exact (fixed_rounded_and_bounded cfg s0 inputs Hinit Hb).
Qed.

(** The timer on a runner with a state and an encoder with an element:
    it returns, the balancer sees the ticks that carry a sample, and the
    encoder is asked for each decision in turn. *)
Lemma housekeeping_run (a : BalancerAlgorithm) cfg e ticks :
  forall (s : state_t a) enc q ts cnt,
    element enc = Some e ->
    exists g' effects,
      housekeeping
        {| encoder_ctrl := enc;
           balancer_runner := {| algo := Some a; state := Some s; config := cfg |};
           quit := q; prev_ack_ts := ts; prev_ack_count := cnt |} ticks
      = Some (g', effects)
      /\ encoder_writes effects
         = snd (set_bitrates enc (map new_bitrate (run a s (samples ticks)))).
Proof.
  induction ticks as [|tick rest IH]; intros s enc q ts cnt He.
  - eexists. eexists. split; reflexivity.
  - cbn [housekeeping samples]. unfold connection_housekeeping, sample_of.
    destruct (bstats tick) as [stats|].
    + cbn [encoder_ctrl balancer_runner]. unfold encoder_control_available.
      rewrite He. cbn [Z.eqb negb]. unfold do_bitrate_update.
      destruct (negb (snddata_ret tick =? 0) || (snddata tick <? 0)).
      * match goal with
        | |- context [housekeeping ?g rest] =>
            match g with
            | {| encoder_ctrl := _; balancer_runner := _; quit := ?q';
                 prev_ack_ts := ?ts'; prev_ack_count := ?cnt' |} =>
                destruct (IH s enc q' ts' cnt' He) as (g' & effects & Hrun & Hw)
            end
        end.
        rewrite Hrun. eexists. eexists. split; [reflexivity|].
        cbn [encoder_writes no_effects encoder_write]. exact Hw.
      * cbn [balancer_runner encoder_ctrl quit prev_ack_ts prev_ack_count].
        rewrite runner_step_bound.
        set (i := {| buffer_size := snddata tick; rtt := msRTT stats;
                     send_rate_mbps := mbpsSendRate stats; timestamp := now tick;
                     pkt_loss_total := pktSndLossTotal stats;
                     pkt_retrans_total := pktRetransTotal stats |}).
        cbn [run map set_bitrates].
        destruct (encoder_control_set_bitrate enc (new_bitrate (snd (step a s i))))
          as [[ret enc'] written] eqn:Eset.
        assert (He' : element enc' = Some e).
        { unfold encoder_control_set_bitrate in Eset. rewrite He in Eset.
          destruct (negb _) in Eset; injection Eset as _ <- _;
            [reflexivity|exact He]. }
        match goal with
        | |- context [housekeeping ?g rest] =>
            match g with
            | {| encoder_ctrl := _; balancer_runner := _; quit := ?q';
                 prev_ack_ts := ?ts'; prev_ack_count := ?cnt' |} =>
                destruct (IH (fst (step a s i)) enc' q' ts' cnt' He')
                  as (g' & effects & Hrun & Hw)
            end
        end.
        rewrite Hrun. eexists. eexists. split; [reflexivity|].
        cbn [encoder_writes encoder_write]. rewrite Hw.
        destruct (set_bitrates enc' _) as [enc'' later]. cbn [snd].
        destruct written; reflexivity.
    + destruct (IH s enc q ts cnt He) as (g' & effects & Hrun & Hw).
      rewrite Hrun. eexists. eexists. split; [reflexivity|].
      cbn [encoder_writes no_effects encoder_write]. exact Hw.
Qed.

Lemma quotients_no_repeat d l :
  0 < d -> Forall (fun x => (d | x)) l -> no_repeat l = true ->
  no_repeat (map (fun b => cdiv b d) l) = true.
Proof.
  intros Hd Hall. induction l as [|x l IH]; [reflexivity|].
  intros Hn. destruct l as [|y l]; [reflexivity|].
  cbn [no_repeat map] in *. apply andb_true_iff in Hn. destruct Hn as [Hxy Hn].
  apply Forall_cons_iff in Hall. destruct Hall as [Hx Hall].
  rewrite (IH Hall Hn), andb_true_r.
  apply negb_true_iff, Z.eqb_neq. apply negb_true_iff, Z.eqb_neq in Hxy.
  apply Forall_inv in Hall. destruct Hx as [kx ->]. destruct Hall as [ky ->].
  unfold cdiv. rewrite !Z.quot_mul by lia. intros ->. apply Hxy. reflexivity.
Qed.

(** From the balancer to the encoder.  With a runner freshly initialised
    for one of the three algorithms under bounds [0 <= min <= max], and an
    encoder element that counts in bps or in kbps, the housekeeping timer
    returns on every sequence of ticks; every value it writes to the
    encoder is, in bps, a multiple of 100 000 between [min] rounded down and
    [max] (the division by 1000 loses nothing); and no value is written
    twice in a row. *)
Theorem housekeeping_feeds_encoder :
  forall (a : BalancerAlgorithm) (cfg : BalancerConfig) (s0 : state_t a)
         (enc : EncoderControl) (q ts cnt : Z) (ticks : list Tick),
    In a all_variants ->
    init a cfg = Some s0 ->
    0 <= min_bitrate cfg <= max_bitrate cfg ->
    max_bitrate cfg <= INT_MAX ->
    element enc <> None ->
    bitrate_div enc = 1 \/ bitrate_div enc = 1000 ->
    exists g' effects,
      housekeeping
        {| encoder_ctrl := enc;
           balancer_runner :=
             {| algo := Some a; state := Some s0; config := cfg |};
           quit := q; prev_ack_ts := ts; prev_ack_count := cnt |} ticks
      = Some (g', effects)
      /\ Forall (fun w =>
                   (100000 | w * bitrate_div enc)
                   /\ round_100k (min_bitrate cfg) <= w * bitrate_div enc
                      <= max_bitrate cfg)
           (encoder_writes effects)
      /\ no_repeat (encoder_writes effects) = true.
Proof.
  intros a cfg s0 enc q ts cnt ticks Hin Hinit Hb Hmax He Hdiv.
  destruct (element enc) as [e|] eqn:Ee; [|contradiction].
  destruct (housekeeping_run a cfg e ticks s0 enc q ts cnt Ee)
    as (g' & effects & Hrun & Hw).
  exists g', effects. split; [exact Hrun|].
  rewrite Hw, (set_bitrates_present _ enc e Ee). cbn [snd].
  set (decisions := map new_bitrate (run a s0 (samples ticks))).
  pose proof (variants_rounded_and_bounded a cfg s0 (samples ticks)
                Hin Hinit Hb Hmax) as Hrb.
  assert (Hdec : Forall (fun d => (100000 | d)
                                  /\ round_100k (min_bitrate cfg) <= d
                                     <= max_bitrate cfg) decisions).
  { unfold decisions. apply Forall_map.
    eapply Forall_impl; [|exact Hrb]. intros o (H1 & H2 & _). split; assumption. }
  destruct (changes_no_repeat decisions (current_bitrate enc))
    as (Hnr & _ & Hsub).
  assert (Hch : Forall (fun d => (100000 | d)
                                 /\ round_100k (min_bitrate cfg) <= d
                                    <= max_bitrate cfg)
                  (changes (current_bitrate enc) decisions)).
  { apply Forall_forall. intros x Hx.
    exact (proj1 (Forall_forall _ _) Hdec x (Hsub x Hx)). }
  assert (Hdvd : forall d, (100000 | d) -> (bitrate_div enc | d)).
  { intros d [k ->]. destruct Hdiv as [-> | ->].
    - apply Z.divide_1_l.
    - exists (k * 100). lia. }
  assert (Hpos : 0 < bitrate_div enc) by (destruct Hdiv as [-> | ->]; lia).
  split.
  - apply Forall_map. eapply Forall_impl; [|exact Hch].
    intros d [Hd Hr]. cbv beta.
    destruct (Hdvd d Hd) as [k Hk].
    assert (Hq : cdiv d (bitrate_div enc) * bitrate_div enc = d).
    { unfold cdiv. rewrite Hk, Z.quot_mul by lia. reflexivity. }
    rewrite Hq. split; assumption.
  - apply quotients_no_repeat; [exact Hpos| |exact Hnr].
    eapply Forall_impl; [|exact Hch]. intros d [Hd _]. apply Hdvd. exact Hd.
Qed.

End HostFacts.

Section HostExamples.

Import CInt BitrateConst Balancer Runner EncoderControl Host Trace Scenario
  Samples.

(** Three ticks of the adaptive runner under the bounds 500 000 and
    6 000 000 in front of an encoder that counts in kbps. *)
Lemma housekeeping_feeds_encoder_witness :
  exists g' effects,
    housekeeping
      {| encoder_ctrl := kbps_encoder;
         balancer_runner :=
           {| algo := Some Adaptive.balancer_adaptive;
              state := Some {| Adaptive.ctx := context_with 500000 6000000 2000 |};
              config := config_with 500000 6000000 2000 |};
         quit := 0; prev_ack_ts := 0; prev_ack_count := 0 |}
      [tick_at 1000 1; tick_at 1020 2; tick_at 1040 3]
    = Some (g', effects)
    /\ Forall (fun w =>
                 (100000 | w * bitrate_div kbps_encoder)
                 /\ round_100k (min_bitrate (config_with 500000 6000000 2000))
                    <= w * bitrate_div kbps_encoder
                    <= max_bitrate (config_with 500000 6000000 2000))
         (encoder_writes effects)
    /\ no_repeat (encoder_writes effects) = true.
Proof.
  apply (housekeeping_feeds_encoder Adaptive.balancer_adaptive
           (config_with 500000 6000000 2000)).
  - left. reflexivity.
  - reflexivity.
  - cbn. lia.
  - cbn. unfold INT_MAX. lia.
  - discriminate.
  - right. reflexivity.
Defined.

(** Without an encoder element the timer never consults the balancer:
    whatever the ticks, the runner and the encoder structure stay as they
    were and nothing is written, even where the runner has no state. *)
Theorem housekeeping_without_encoder :
  forall (g : Globals) (ticks : list Tick),
    element (encoder_ctrl g) = None ->
    exists g',
      housekeeping g ticks = Some (g', map (fun _ => no_effects) ticks)
      /\ balancer_runner g' = balancer_runner g
      /\ encoder_ctrl g' = encoder_ctrl g.
Proof.
  intros g ticks. revert g.
  induction ticks as [|tick rest IH]; intros g He.
  - exists g. repeat split.
  - cbn [housekeeping map]. unfold connection_housekeeping.
    destruct (bstats tick) as [stats|].
    + cbn [encoder_ctrl]. unfold encoder_control_available. rewrite He.
      cbn [Z.eqb negb].
      match goal with
      | |- context [housekeeping ?g1 rest] =>
          destruct (IH g1 He) as (g' & Hrun & Hr & Henc)
      end.
      rewrite Hrun. exists g'. split; [reflexivity|]. split; assumption.
    + destruct (IH g He) as (g' & Hrun & Hr & Henc).
      rewrite Hrun. exists g'. split; [reflexivity|]. split; assumption.
Qed.

Lemma housekeeping_without_encoder_witness :
  exists g',
    housekeeping (globals_with no_encoder blank_runner)
      [tick_at 1000 1; tick_at 1020 2]
    = Some (g', map (fun _ => no_effects) [tick_at 1000 1; tick_at 1020 2])
    /\ balancer_runner g' = balancer_runner (globals_with no_encoder blank_runner)
    /\ encoder_ctrl g' = encoder_ctrl (globals_with no_encoder blank_runner).
Proof.
  apply (housekeeping_without_encoder (globals_with no_encoder blank_runner)).
  reflexivity.
Defined.

End HostExamples.

Section AckTimeout.

Import CInt Balancer Runner EncoderControl Host.

Lemma do_bitrate_update_keeps g stats ctime ret bs_now g' e :
  do_bitrate_update g stats ctime ret bs_now = Some (g', e) ->
  quit g' = quit g /\ prev_ack_ts g' = prev_ack_ts g
  /\ prev_ack_count g' = prev_ack_count g.
Proof.
  unfold do_bitrate_update.
  destruct (negb (ret =? 0) || (bs_now <? 0)).
  - intros [= <- _]. repeat split.
  - destruct (balancer_runner_step _ _) as [[r' out]|]; [|discriminate].
    destruct (encoder_control_set_bitrate _ _) as [[c enc'] w].
    intros [= <- _]. repeat split.
Qed.

(** The connection time-out of [connection_housekeeping].  A run that
    finds [quit] at 0 raises it exactly when the statistics are at hand,
    the ACK counter is not 0 and is the one seen before, and more than
    6000 ms (modulo 2^64) have passed since the run that last saw it
    change.  So there is no time-out before the first ACK, none in a run
    that sees a new ACK, and none while the statistics cannot be read. *)
Theorem ack_timeout_needs_silence :
  forall (g g' : Globals) (tick : Tick) (e : Effects),
    connection_housekeeping g tick = Some (g', e) ->
    quit g = 0 ->
    (quit g' = 0 \/ quit g' = 1)
    /\ (quit g' = 1 <->
        exists stats,
          bstats tick = Some stats
          /\ to_uint64 (pktRecvACKTotal stats) = prev_ack_count g
          /\ prev_ack_count g <> 0
          /\ SRT_ACK_TIMEOUT < to_uint64 (now tick - prev_ack_ts g)).
Proof.
  intros g g' tick e Hrun Hq. unfold connection_housekeeping in Hrun.
  destruct (bstats tick) as [stats|].
  - set (acks := to_uint64 (pktRecvACKTotal stats)) in *.
    match type of Hrun with
    | (if _ then do_bitrate_update ?g1 _ _ _ _ else _) = _ =>
        assert (Hg1 : quit g' = quit g1);
          [|cbn [quit] in Hg1]
    end.
    { destruct (negb _) in Hrun.
      - apply do_bitrate_update_keeps in Hrun. apply Hrun.
      - injection Hrun as <- _. reflexivity. }
    rewrite Hg1, Hq. unfold stop. cbn [Z.eqb].
    destruct (acks =? prev_ack_count g) eqn:Eacks; cbn [negb].
    + apply Z.eqb_eq in Eacks.
      destruct (prev_ack_count g =? 0) eqn:Ez; cbn [negb andb].
      * apply Z.eqb_eq in Ez. split; [left; reflexivity|].
        split; [discriminate|]. intros (st & _ & _ & Hnz & _). contradiction.
      * apply Z.eqb_neq in Ez.
        destruct (SRT_ACK_TIMEOUT <? to_uint64 (now tick - prev_ack_ts g)) eqn:Et.
        -- apply Z.ltb_lt in Et. split; [right; reflexivity|].
           split; [|reflexivity]. intros _. exists stats. repeat split; assumption.
        -- apply Z.ltb_ge in Et. split; [left; reflexivity|].
           split; [discriminate|]. intros (st & [= <-] & _ & _ & Hlt). lia.
    + apply Z.eqb_neq in Eacks.
      replace (now tick - now tick) with 0 by lia.
      change (SRT_ACK_TIMEOUT <? to_uint64 0) with false.
      rewrite andb_false_r. split; [left; reflexivity|].
      split; [discriminate|]. intros (st & [= <-] & Heq & _). contradiction.
  - injection Hrun as <- _. rewrite Hq. split; [left; reflexivity|].
    split; [discriminate|]. intros (st & Hst & _). discriminate.
Qed.

End AckTimeout.

(** ** The bitrate file, start-up and reload *)

Section BitrateFileFacts.

Import CInt BitrateConst Parse Grammar Balancer Runner BitrateFile.

Lemma parse_bitrate_cases line :
  (parse_bitrate (Some line) = -1 /\ forall v, ~ accepted line v)
  \/ (accepted line (parse_bitrate (Some line))
      /\ MIN_BITRATE <= parse_bitrate (Some line) <= ABS_MAX_BITRATE).
Proof.
  destruct (Z.eq_dec (parse_bitrate (Some line)) (-1)) as [H|H].
  - left. split; [exact H|]. intros v Hv.
    pose proof (accepted_parses line v Hv) as Hp.
    destruct Hv as (_ & _ & _ & _ & _ & _ & _ & _ & _ & _ & _ & _ & _ & Hlo & _).
    unfold MIN_BITRATE in Hlo. lia.
  - right. pose proof (parses_accepted line _ eq_refl H) as Hacc.
    split; [exact Hacc|].
    destruct Hacc as (_ & _ & _ & _ & _ & _ & _ & _ & _ & _ & _ & _ & _ & Hr).
    exact Hr.
Qed.

(** [read_bitrate_file] returns 0 exactly when the file opens and each of
    its first two lines, as [getline] cuts them, is a string that
    [parse_bitrate] accepts; the runner is then given the first number as
    its minimum and the second as its maximum, both between 300 000 and
    30 000 000 and in no required order.  In every other case the function
    returns -1 (no file) or -2 and leaves the runner as it was; what
    follows the second line is never read. *)
Theorem read_bitrate_file_accepts :
  forall (file : option string) (runner : BalancerRunner),
    (fst (read_bitrate_file file runner) = 0 <->
     exists content line0 rest0 line1 rest1 v0 v1,
       file = Some content
       /\ getline content = Some (line0, rest0)
       /\ getline rest0 = Some (line1, rest1)
       /\ accepted line0 v0 /\ accepted line1 v1)
    /\ (forall content line0 rest0 line1 rest1 v0 v1,
          file = Some content ->
          getline content = Some (line0, rest0) ->
          getline rest0 = Some (line1, rest1) ->
          accepted line0 v0 -> accepted line1 v1 ->
          read_bitrate_file file runner
          = (0, balancer_runner_update_bounds runner v0 v1))
    /\ (fst (read_bitrate_file file runner) <> 0 ->
        snd (read_bitrate_file file runner) = runner
        /\ (fst (read_bitrate_file file runner) = -1
            \/ fst (read_bitrate_file file runner) = -2)
        /\ (fst (read_bitrate_file file runner) = -1 <-> file = None)).
Proof.
  intros file runner.
  assert (Hfwd : forall content line0 rest0 line1 rest1 v0 v1,
            file = Some content ->
            getline content = Some (line0, rest0) ->
            getline rest0 = Some (line1, rest1) ->
            accepted line0 v0 -> accepted line1 v1 ->
            read_bitrate_file file runner
            = (0, balancer_runner_update_bounds runner v0 v1)).
  { intros content line0 rest0 line1 rest1 v0 v1 -> H0 H1 A0 A1.
    unfold read_bitrate_file. rewrite H0, H1.
    rewrite (accepted_parses _ _ A0), (accepted_parses _ _ A1).
    destruct A0 as (_ & _ & _ & _ & _ & _ & _ & _ & _ & _ & _ & _ & _ & L0 & _).
    destruct A1 as (_ & _ & _ & _ & _ & _ & _ & _ & _ & _ & _ & _ & _ & L1 & _).
    unfold MIN_BITRATE in *.
    destruct (v0 <? 0) eqn:E0; [apply Z.ltb_lt in E0; lia|].
    destruct (v1 <? 0) eqn:E1; [apply Z.ltb_lt in E1; lia|].
    reflexivity. }
  split; [|split; [exact Hfwd|]].
  - split.
    + unfold read_bitrate_file. destruct file as [content|]; [|discriminate].
      destruct (getline content) as [[line0 rest0]|] eqn:G0; [|discriminate].
      destruct (parse_bitrate_cases line0) as [[H0 _]|[A0 R0]].
      { rewrite H0. cbn. discriminate. }
      destruct (parse_bitrate (Some line0) <? 0) eqn:E0; [discriminate|].
      destruct (getline rest0) as [[line1 rest1]|] eqn:G1; [|discriminate].
      destruct (parse_bitrate_cases line1) as [[H1 _]|[A1 R1]].
      { rewrite H1. cbn. discriminate. }
      intros _. exists content, line0, rest0, line1, rest1.
      exists (parse_bitrate (Some line0)), (parse_bitrate (Some line1)).
      split; [reflexivity|]. split; [exact G0|]. split; [exact G1|].
      split; assumption.
    + intros (content & line0 & rest0 & line1 & rest1 & v0 & v1
              & Hf & H0 & H1 & A0 & A1).
      rewrite (Hfwd _ _ _ _ _ _ _ Hf H0 H1 A0 A1). reflexivity.
  - assert (Hfail : forall content : string,
              snd (-2, runner) = runner
              /\ (fst (-2, runner) = -1 \/ fst (-2, runner) = -2)
              /\ (fst (-2, runner) = -1 <-> Some content = @None string)).
    { intros content. cbn [fst snd]. split; [reflexivity|].
      split; [right; reflexivity|]. split; intros H; discriminate H. }
    unfold read_bitrate_file. destruct file as [content|].
    + destruct (getline content) as [[line0 rest0]|];
        [|intros _; apply Hfail].
      destruct (parse_bitrate (Some line0) <? 0); [intros _; apply Hfail|].
      destruct (getline rest0) as [[line1 rest1]|]; [|intros _; apply Hfail].
      destruct (parse_bitrate (Some line1) <? 0); [intros _; apply Hfail|].
      cbn [fst]. intros H. contradiction.
    + intros _. cbn [fst snd]. split; [reflexivity|].
      split; [left; reflexivity|]. split; reflexivity.
Qed.

End BitrateFileFacts.

Section ConfigLoadReturns.

Import ConfigFile.

Variable atof : string -> float.

Lemma fgets_read_shorter room stream :
  (length (snd (fgets_read room stream)) <= length stream)%nat.
Proof.
  revert stream. induction room as [|room IH]; intros stream; cbn [fgets_read].
  - cbn. lia.
  - destruct stream as [|c rest]; [cbn; lia|].
    destruct (Ascii.eqb c newline); [cbn; lia|].
    specialize (IH rest). destruct (fgets_read room rest) as [l r].
    cbn in *. lia.
Qed.

Lemma fgets_read_cons room c rest :
  fgets_read (S room) (String c rest)
  = if Ascii.eqb c newline then (String c EmptyString, rest)
    else let '(line, remaining) := fgets_read room rest in
         (String c line, remaining).
Proof. reflexivity. Qed.

Lemma fgets_shorter stream line remaining :
  fgets 512 stream = Some (line, remaining) ->
  (length remaining < length stream)%nat.
Proof.
  unfold fgets. destruct stream as [|c rest]; [discriminate|].
  change (512 - 1)%nat with (S 510). rewrite fgets_read_cons.
  destruct (Ascii.eqb c newline); cbv iota.
  - intros [= _ <-]. cbn. lia.
  - pose proof (fgets_read_shorter 510 rest) as H.
    destruct (fgets_read 510 rest) as [l r]. cbv iota. intros [= _ <-].
    cbn in *. lia.
Qed.

Lemma config_load_loop_returns fuel :
  forall cfg section stream,
    (length stream <= fuel)%nat ->
    exists cfg', config_load_loop atof fuel cfg section stream = Some cfg'.
Proof.
  induction fuel as [|fuel IH]; intros cfg section stream Hlen.
  - destruct stream; [|cbn in Hlen; lia]. exists cfg. reflexivity.
  - cbn [config_load_loop].
    destruct (fgets 512 stream) as [[line remaining]|] eqn:E;
      [|exists cfg; reflexivity].
    apply fgets_shorter in E.
    destruct (config_line atof cfg section line) as [cfg' section'].
    apply IH. lia.
Qed.

Lemma config_load_returns cfg file :
  exists ret cfg', config_load atof cfg file = Some (ret, cfg')
                   /\ (ret = 0 \/ (ret = -1 /\ cfg' = cfg /\ file = None)).
Proof.
  unfold config_load. destruct file as [content|].
  - destruct (config_load_loop_returns (length content) cfg "general" content
                (le_n _)) as [cfg' H].
    rewrite H. exists 0, cfg'. split; [reflexivity|left; reflexivity].
  - exists (-1), cfg. split; [reflexivity|right; repeat split].
Qed.

End ConfigLoadReturns.

Section StartupFacts.

Import CInt Balancer Runner EncoderControl Host.

Variable atof : string -> float.

Lemma runner_init_forgets r r' cfg override latency pkt_size :
  fst (balancer_runner_init r cfg override latency pkt_size) <> -1 ->
  balancer_runner_init r cfg override latency pkt_size
  = balancer_runner_init r' cfg override latency pkt_size.
Proof.
  unfold balancer_runner_init.
  destruct (match Registry.balancer_find _ with Some _ => _ | None => _ end);
    [reflexivity|].
  cbn [fst]. intros H. contradiction.
Qed.

(** At start-up the bounds of the bitrate file do not reach the balancer:
    [main] reads the file into the runner before [balancer_runner_init]
    fills the runner from the configuration.  Whenever [main] gets through
    with a bitrate file, it reaches the very state it reaches without one:
    bounds, first encoder bitrate and all. *)
Theorem startup_discards_bitrate_file :
  forall (opts_srt_latency : Z) (opts_balancer_name : option string)
         (opts_reduced_pkt_size : Z) (config_file : option (option string))
         (bitrate_file : option string) (pipeline : GstPipeline)
         (started : Started),
    main_configure atof opts_srt_latency opts_balancer_name
      opts_reduced_pkt_size config_file (Some bitrate_file) pipeline
    = Some started ->
    main_configure atof opts_srt_latency opts_balancer_name
      opts_reduced_pkt_size config_file None pipeline
    = Some started
    /\ min_bitrate (config (runner started))
       = Config.config_bitrate_bps (Config.min_bitrate (g_config started))
    /\ max_bitrate (config (runner started))
       = Config.config_bitrate_bps (Config.max_bitrate (g_config started)).
Proof.
  intros lat name red cf bf pipeline started. unfold main_configure.
  destruct (match cf with Some _ => _ | None => _ end) as [cfg|]; [|discriminate].
  destruct (BitrateFile.read_bitrate_file bf zero_runner) as [ret r].
  destruct (ret =? 0); [|discriminate].
  set (latency := choose_latency lat (Config.srt_latency cfg)).
  set (pkt := if negb (red =? 0) then _ else _).
  destruct (balancer_runner_init r cfg name latency pkt) as [ret' r'] eqn:Einit.
  destruct (ret' =? 0) eqn:Eret; cbn [negb]; [|discriminate].
  apply Z.eqb_eq in Eret. subst ret'.
  assert (Hsame : balancer_runner_init zero_runner cfg name latency pkt = (0, r')).
  { rewrite <- Einit. symmetry. apply runner_init_forgets.
    rewrite Einit. cbn. discriminate. }
  rewrite Hsame. cbn [Z.eqb negb].
  destruct (encoder_control_init pipeline) as [c enc].
  destruct (if negb (encoder_control_available enc =? 0) then _ else _)
    as [enc' written].
  intros [= <-]. split; [reflexivity|]. cbn [runner g_config].
  unfold balancer_runner_init in Einit.
  destruct (match Registry.balancer_find _ with Some _ => _ | None => _ end)
    as [a|]; [|discriminate].
  destruct (init a _); [|discriminate Einit].
  injection Einit as <-. split; reflexivity.
Qed.

(** What a [SIGHUP] changes in the balancer.  The reload of [stall_check]
    always returns.  It keeps the algorithm of the runner and every field
    of its configuration but the two bounds: a new [balancer], latency,
    step or interval in the file stays without effect on the runner.  When
    the configuration file opens, the bounds are its [min_bitrate] and
    [max_bitrate] times 1000 in [int], and the bitrate file is not read. *)
Theorem reload_changes_bounds_only :
  forall (cfg : Config.BelacoderConfig) (r : BalancerRunner)
         (config_file bitrate_file : option (option string)),
    exists cfg' r',
      reload atof cfg r config_file bitrate_file = Some (cfg', r')
      /\ algo r' = algo r
      /\ config r'
         = set_bounds (config r) (min_bitrate (config r'))
             (max_bitrate (config r'))
      /\ (forall content,
            config_file = Some (Some content) ->
            ConfigFile.config_load atof cfg (Some content) = Some (0, cfg')
            /\ r' = balancer_runner_update_bounds r
                      (Config.config_bitrate_bps (Config.min_bitrate cfg'))
                      (Config.config_bitrate_bps (Config.max_bitrate cfg'))).
Proof.
  intros cfg r cf bf.
  assert (Hub : forall x lo hi,
            algo (balancer_runner_update_bounds x lo hi) = algo x
            /\ config (balancer_runner_update_bounds x lo hi)
               = set_bounds (config x) lo hi).
  { intros [[a|] st c] lo hi; cbn in *; [destruct st|]; split; reflexivity. }
  assert (Hid : forall x : BalancerRunner,
            config x = set_bounds (config x) (min_bitrate (config x))
                         (max_bitrate (config x))).
  { intros x. destruct (config x). reflexivity. }
  assert (Hbf : forall f x,
            algo (snd (BitrateFile.read_bitrate_file f x)) = algo x
            /\ config (snd (BitrateFile.read_bitrate_file f x))
               = set_bounds (config x)
                   (min_bitrate (config (snd (BitrateFile.read_bitrate_file f x))))
                   (max_bitrate (config (snd (BitrateFile.read_bitrate_file f x))))).
  { intros f x. unfold BitrateFile.read_bitrate_file.
    destruct f as [content|]; [|split; [reflexivity|apply Hid]].
    destruct (BitrateFile.getline content) as [[l0 r0]|];
      [|split; [reflexivity|apply Hid]].
    destruct (_ <? 0); [split; [reflexivity|apply Hid]|].
    destruct (BitrateFile.getline r0) as [[l1 r1]|];
      [|split; [reflexivity|apply Hid]].
    destruct (_ <? 0); [split; [reflexivity|apply Hid]|].
    cbn [snd]. destruct (Hub x (Parse.parse_bitrate (Some l0))
                           (Parse.parse_bitrate (Some l1))) as [Ha Hc].
    split; [exact Ha|]. rewrite Hc. reflexivity. }
  unfold reload. destruct cf as [f|].
  - destruct (config_load_returns atof cfg f) as (ret & cfg' & Hload & Hret).
    rewrite Hload. destruct Hret as [-> | (-> & -> & ->)].
    + cbn [Z.eqb negb].
      set (r1 := balancer_runner_update_bounds r _ _).
      exists cfg', r1. split; [destruct bf; reflexivity|].
      destruct (Hub r (Config.config_bitrate_bps (Config.min_bitrate cfg'))
                  (Config.config_bitrate_bps (Config.max_bitrate cfg')))
        as [Ha Hc].
      split; [exact Ha|]. split; [fold r1 in Hc; rewrite Hc; reflexivity|].
      intros content [= ->]. split; [exact Hload|reflexivity].
    + cbn [Z.eqb negb]. destruct bf as [f|].
      * eexists. eexists. split; [reflexivity|].
        destruct (Hbf f r) as [Ha Hc]. split; [exact Ha|].
        split; [exact Hc|]. intros content H. discriminate.
      * exists cfg, r. split; [reflexivity|]. split; [reflexivity|].
        split; [apply Hid|]. intros content H. discriminate.
  - destruct bf as [f|]; cbn [negb].
    + eexists. eexists. split; [reflexivity|].
      destruct (Hbf f r) as [Ha Hc]. split; [exact Ha|].
      split; [exact Hc|]. intros content H. discriminate.
    + exists cfg, r. split; [reflexivity|]. split; [reflexivity|].
      split; [apply Hid|]. intros content H. discriminate.
Qed.

End StartupFacts.

Section StartupExamples.

Import CInt Balancer Runner EncoderControl Host Samples.

Local Open Scope string_scope.

(** The connection of a host that saw its fifth ACK at 1000 ms times out
    in the run at 8000 ms. *)
Lemma ack_timeout_needs_silence_witness :
  (quit {| encoder_ctrl := no_encoder; balancer_runner := zero_runner;
           quit := 1; prev_ack_ts := 1000; prev_ack_count := 5 |} = 0
   \/ quit {| encoder_ctrl := no_encoder; balancer_runner := zero_runner;
              quit := 1; prev_ack_ts := 1000; prev_ack_count := 5 |} = 1)
  /\ (quit {| encoder_ctrl := no_encoder; balancer_runner := zero_runner;
              quit := 1; prev_ack_ts := 1000; prev_ack_count := 5 |} = 1
      <-> exists stats,
            bstats (tick_at 8000 5) = Some stats
            /\ to_uint64 (pktRecvACKTotal stats) = 5
            /\ 5 <> 0
            /\ SRT_ACK_TIMEOUT < to_uint64 (now (tick_at 8000 5) - 1000)).
Proof.
  apply (ack_timeout_needs_silence
           {| encoder_ctrl := no_encoder; balancer_runner := zero_runner;
              quit := 0; prev_ack_ts := 1000; prev_ack_count := 5 |}
           {| encoder_ctrl := no_encoder; balancer_runner := zero_runner;
              quit := 1; prev_ack_ts := 1000; prev_ack_count := 5 |}
           (tick_at 8000 5) no_effects).
  - reflexivity.
  - reflexivity.
Defined.

(** A start with the bitrate file [1000000], [3000000] and no
    configuration file ends with the default bounds, 300 000 and
    6 000 000. *)
Lemma startup_discards_bitrate_file_witness :
  exists started,
    main_configure atof_unused 2000 None 0 None
      (Some (Some ("1000000" ++ String ConfigFile.newline
                     ("3000000" ++ String ConfigFile.newline ""))))
      ["venc_kbps"]
    = Some started
    /\ main_configure atof_unused 2000 None 0 None None ["venc_kbps"]
       = Some started
    /\ min_bitrate (config (runner started)) = 300000
    /\ max_bitrate (config (runner started)) = 6000000.
Proof.
  eexists. split; [reflexivity|].
  apply (startup_discards_bitrate_file atof_unused 2000 None 0 None
           (Some ("1000000" ++ String ConfigFile.newline
                    ("3000000" ++ String ConfigFile.newline "")))
           ["venc_kbps"]).
  reflexivity.
Defined.

End StartupExamples.

(** ** The direction of the adaptive controller's response *)

Section LadderFacts.

Import CInt BitrateConst BitrateControl Ladder Facts.

(** The arm that [Ladder.taken] reads from the outcome of a tick is the arm
    [bitrate_update] took. *)
Lemma ladder_decides ctx bs_now r sr ts l rt :
  let out := bitrate_update ctx bs_now r sr ts l rt in
  let ctx' := fst (fst out) in
  let branch := taken ctx ctx' (snd out) ts in
  cur_bitrate ctx'
  = to_int
      (min_max
         match branch with
         | Emergency => min_bitrate ctx
         | Heavy =>
             to_int64
               (cur_bitrate ctx
                - to_int64 (decr_step ctx
                            + cdiv (cur_bitrate ctx) BITRATE_DECR_SCALE))
         | Light => to_int64 (cur_bitrate ctx - decr_step ctx)
         | Grow =>
             to_int64
               (cur_bitrate ctx
                + to_int64 (incr_step ctx
                            + cdiv (cur_bitrate ctx) BITRATE_INCR_SCALE))
         | Hold => cur_bitrate ctx
         end (min_bitrate ctx) (max_bitrate ctx))
  /\ next_bitrate_incr ctx'
     = match branch with
       | Grow => to_uint64 (ts + incr_interval ctx)
       | Emergency | Heavy | Light | Hold => next_bitrate_incr ctx
       end
  /\ next_bitrate_decr ctx'
     = match branch with
       | Emergency => to_uint64 (ts + decr_interval ctx)
       | Heavy => to_uint64 (ts + decr_fast_interval ctx)
       | Light => to_uint64 (ts + decr_interval ctx)
       | Grow | Hold => next_bitrate_decr ctx
       end
  /\ incr_step ctx' = incr_step ctx /\ decr_step ctx' = decr_step ctx
  /\ min_bitrate ctx' = min_bitrate ctx /\ max_bitrate ctx' = max_bitrate ctx.
Proof. repeat split; reflexivity. Qed.

Lemma wrap_signed_id bits x :
  0 < bits -> - 2 ^ (bits - 1) <= x < 2 ^ (bits - 1) ->
  wrap_signed bits x = x.
Proof.
  intros Hb Hx. unfold wrap_signed.
  assert (H2 : 2 ^ bits = 2 * 2 ^ (bits - 1)).
  { replace bits with (1 + (bits - 1)) at 1 by lia.
    rewrite Z.pow_add_r by lia. reflexivity. }
  rewrite H2. rewrite Z.mod_small by lia. lia.
Qed.

Lemma to_int64_id x : - 2 ^ 63 <= x < 2 ^ 63 -> to_int64 x = x.
Proof. intros H. apply wrap_signed_id; [lia|exact H]. Qed.

Lemma cdiv_bounds x d : 0 <= x -> 0 < d -> 0 <= cdiv x d <= x.
Proof.
  intros Hx Hd. unfold cdiv. rewrite Z.quot_div_nonneg by lia.
  split; [apply Z.div_pos; lia|]. apply Z.div_le_upper_bound; [lia|]. nia.
Qed.

Lemma ladder_step_outcome :
  forall (ctx : BitrateContext) (bs_now : Z) (r sr : float) (ts l rt : Z),
    well_formed ctx ->
    let out := bitrate_update ctx bs_now r sr ts l rt in
    let ctx' := fst (fst out) in
    let cur := cur_bitrate ctx in
    let cur' := cur_bitrate ctx' in
    well_formed ctx'
    /\ match taken ctx ctx' (snd out) ts with
       | Emergency => cur' = min_bitrate ctx /\ cur' < cur
       | Heavy =>
           cur' = Z.max (min_bitrate ctx) (cur - (decr_step ctx + cdiv cur 10))
           /\ cur' <= cur /\ (min_bitrate ctx < cur -> cur' < cur)
       | Light =>
           cur' = Z.max (min_bitrate ctx) (cur - decr_step ctx)
           /\ cur' <= cur /\ (min_bitrate ctx < cur -> cur' < cur)
       | Grow =>
           cur' = Z.min (max_bitrate ctx) (cur + incr_step ctx + cdiv cur 30)
           /\ cur <= cur' /\ (cur < max_bitrate ctx -> cur < cur')
           /\ next_bitrate_incr ctx' = to_uint64 (ts + incr_interval ctx)
       | Hold =>
           cur' = cur
           /\ next_bitrate_incr ctx' = next_bitrate_incr ctx
           /\ next_bitrate_decr ctx' = next_bitrate_decr ctx
       end.
Proof.
  intros ctx bs_now r sr ts l rt Hwf out ctx' cur cur'.
  destruct (ladder_decides ctx bs_now r sr ts l rt)
    as (Hcur & Hincr & Hdecr & Hi & Hd & Hlo & Hhi).
  fold out ctx' in Hcur, Hincr, Hdecr, Hi, Hd, Hlo, Hhi. fold cur' cur in Hcur.
  destruct Hwf as (Hmin & Hmc & Hcm & Hmax & Hinc & Hdec). fold cur in Hmc, Hcm.
  unfold INT_MAX, BITRATE_DECR_SCALE, BITRATE_INCR_SCALE in *.
  pose proof (cdiv_bounds cur 10 ltac:(lia) ltac:(lia)) as H10.
  pose proof (cdiv_bounds cur 30 ltac:(lia) ltac:(lia)) as H30.
  assert (Hclamp : forall x,
            - 2 ^ 62 <= x <= 2 ^ 62 ->
            to_int (min_max x (min_bitrate ctx) (max_bitrate ctx))
            = Z.max (min_bitrate ctx) (Z.min x (max_bitrate ctx))).
  { intros x Hx. unfold min_max, MAX, MIN.
    rewrite to_int_id.
    - destruct (x <? max_bitrate ctx) eqn:E1;
        [apply Z.ltb_lt in E1|apply Z.ltb_ge in E1];
        match goal with
        | |- context [if ?c then _ else _] => destruct c eqn:E2
        end;
        first [apply Z.ltb_lt in E2|apply Z.ltb_ge in E2]; lia.
    - unfold int_range, INT_MIN, INT_MAX.
      destruct (x <? max_bitrate ctx) eqn:E1;
        [apply Z.ltb_lt in E1|apply Z.ltb_ge in E1];
        match goal with
        | |- context [if ?c then _ else _] => destruct c eqn:E2
        end;
        first [apply Z.ltb_lt in E2|apply Z.ltb_ge in E2]; lia. }
  assert (Hbranch : taken ctx ctx' (snd out) ts = Emergency -> min_bitrate ctx < cur).
  { unfold taken. cbv zeta.
    destruct (min_bitrate ctx <? cur_bitrate ctx) eqn:E.
    - intros _. apply Z.ltb_lt in E. exact E.
    - cbn [andb].
      repeat match goal with
             | |- context [if ?c then _ else _] => destruct c
             end; discriminate. }
  destruct (taken ctx ctx' (snd out) ts) eqn:Et.
  - specialize (Hbranch eq_refl).
    rewrite Hclamp in Hcur by lia.
    assert (Hc : cur' = min_bitrate ctx) by lia.
    split; [|lia].
    unfold well_formed, INT_MAX. rewrite Hlo, Hhi, Hi, Hd. fold cur'. lia.
  - rewrite (to_int64_id (decr_step ctx + cdiv cur 10)) in Hcur by lia.
    rewrite to_int64_id in Hcur by lia.
    rewrite Hclamp in Hcur by lia.
    split; [|lia].
    unfold well_formed, INT_MAX. rewrite Hlo, Hhi, Hi, Hd. fold cur'. lia.
  - rewrite to_int64_id in Hcur by lia.
    rewrite Hclamp in Hcur by lia.
    split; [|lia].
    unfold well_formed, INT_MAX. rewrite Hlo, Hhi, Hi, Hd. fold cur'. lia.
  - rewrite (to_int64_id (incr_step ctx + cdiv cur 30)) in Hcur by lia.
    rewrite to_int64_id in Hcur by lia.
    rewrite Hclamp in Hcur by lia.
    split; [|split; [lia|split; [lia|split; [lia|exact Hincr]]]].
    unfold well_formed, INT_MAX. rewrite Hlo, Hhi, Hi, Hd. fold cur'. lia.
  - rewrite Hclamp in Hcur by lia.
    split; [|split; [lia|split; assumption]].
    unfold well_formed, INT_MAX. rewrite Hlo, Hhi, Hi, Hd. fold cur'. lia.
Qed.

(** Which way the adaptive controller moves.  On a context with ordered,
    non-negative bounds and positive steps, the arm of the decision ladder
    that a tick takes fixes the new bitrate exactly, without overflow:
    - the emergency arm commits the minimum, below the bitrate before;
    - the heavy arm commits [cur - (decr_step + cur/10)] and the light arm
      [cur - decr_step], neither below the minimum: the bitrate goes down
      unless it was at the minimum;
    - the growth arm commits [cur + incr_step + cur/30], capped at the
      maximum: the bitrate goes up unless it was at the maximum, and the
      next increase is due [incr_interval] ms later;
    - otherwise the bitrate and both deadlines stay.
    The context stays well formed. *)
Theorem adaptive_response_direction :
  forall (ctx : BitrateContext) (bs_now : Z) (r sr : float) (ts l rt : Z),
    well_formed ctx ->
    let out := bitrate_update ctx bs_now r sr ts l rt in
    let ctx' := fst (fst out) in
    let cur := cur_bitrate ctx in
    let cur' := cur_bitrate ctx' in
    well_formed ctx'
    /\ match taken ctx ctx' (snd out) ts with
       | Emergency => cur' = min_bitrate ctx /\ cur' < cur
       | Heavy =>
           cur' = Z.max (min_bitrate ctx) (cur - (decr_step ctx + cdiv cur 10))
           /\ cur' <= cur /\ (min_bitrate ctx < cur -> cur' < cur)
       | Light =>
           cur' = Z.max (min_bitrate ctx) (cur - decr_step ctx)
           /\ cur' <= cur /\ (min_bitrate ctx < cur -> cur' < cur)
       | Grow =>
           cur' = Z.min (max_bitrate ctx) (cur + incr_step ctx + cdiv cur 30)
           /\ cur <= cur' /\ (cur < max_bitrate ctx -> cur < cur')
           /\ next_bitrate_incr ctx' = to_uint64 (ts + incr_interval ctx)
       | Hold =>
           cur' = cur
           /\ next_bitrate_incr ctx' = next_bitrate_incr ctx
           /\ next_bitrate_decr ctx' = next_bitrate_decr ctx
       end.
Proof. exact ladder_step_outcome. Qed.

End LadderFacts.

Section GrowthDeadline.

Import CInt BitrateConst BitrateControl Balancer Ladder Facts Trace.




End GrowthDeadline.

Section AimdEmergency.

Import CInt BitrateConst Balancer Aimd Facts.

(** The emergency of the AIMD algorithm.  A sample whose RTT reaches a
    third of the SRT latency ([latency / 3] in [int]) has the step commit
    [min_bitrate] itself, whatever the bitrate and the deadlines were, and
    whichever way the bounds are ordered; the decision is [min_bitrate]
    rounded down, and the next decrease is due [decr_interval] ms later.
    (The timestamp is taken not to wrap [uint64_t].) *)
Theorem aimd_emergency_commits_min :
  forall (state : AimdState) (input : BalancerInput),
    CDouble.ge (rtt input) (CDouble.of_int (cdiv (srt_latency state) 3)) = true ->
    0 <= decr_interval state ->
    0 <= timestamp input ->
    timestamp input + decr_interval state < UINT64_MOD ->
    cur_bitrate (fst (aimd_step state input)) = min_bitrate state
    /\ new_bitrate (snd (aimd_step state input)) = round_100k (min_bitrate state)
    /\ next_decr (fst (aimd_step state input))
       = timestamp input + decr_interval state
    /\ next_incr (fst (aimd_step state input)) = next_incr state.
Proof.
  intros state input Hem Hd Hts Hwrap.
  assert (Hsum : to_uint64 (timestamp input + decr_interval state)
                 = timestamp input + decr_interval state)
    by (apply to_uint64_id; lia).
  assert (Hlate : (timestamp input + decr_interval state <? timestamp input)
                  = false) by (apply Z.ltb_ge; lia).
  assert (Hcur : cur_bitrate (fst (aimd_step state input)) = min_bitrate state).
  { unfold aimd_step. cbv zeta. cbn [fst cur_bitrate].
    rewrite Hem, Hsum, Hlate. cbn [orb andb negb].
    unfold MAX, MIN.
    repeat match goal with
           | |- context [if ?c then _ else _] => destruct c eqn:?
           end;
      rewrite ?Z.ltb_lt, ?Z.ltb_ge in *; lia. }
  split; [exact Hcur|]. split.
  - rewrite AimdFacts.aimd_step_new_bitrate, Hcur. reflexivity.
  - unfold aimd_step. cbv zeta. cbn [fst next_decr next_incr].
    rewrite Hem, Hsum, Hlate. cbn [orb andb negb]. split; reflexivity.
Qed.

End AimdEmergency.

Section LadderExamples.

Import CInt BitrateConst BitrateControl Balancer Ladder Trace Scenario.

Lemma init_well_formed min_br max_br latency pkt_size i d ii di :
  0 <= min_br <= max_br -> max_br <= INT_MAX ->
  i <= INT_MAX -> d <= INT_MAX ->
  well_formed (bitrate_context_init min_br max_br latency pkt_size i d ii di).
Proof.
  intros Hb Hmax Hi Hd. unfold well_formed, bitrate_context_init.
  cbn [BitrateControl.min_bitrate BitrateControl.max_bitrate cur_bitrate
       incr_step decr_step].
  unfold BITRATE_INCR_MIN, BITRATE_DECR_MIN, INT_MAX in *.
  destruct (0 <? i) eqn:Ei; destruct (0 <? d) eqn:Ed;
    rewrite ?Z.ltb_lt, ?Z.ltb_ge in *; lia.
Qed.

(** A congested first sample (RTT 700 ms under a latency of 2000 ms) on the
    context that [adaptive_init] builds. *)
Lemma adaptive_response_direction_witness :
  well_formed
    (fst (fst (bitrate_update (context_with 500000 6000000 2000)
                 200 700.0 5.0 1000 0 0)))
  /\ match taken (context_with 500000 6000000 2000)
             (fst (fst (bitrate_update (context_with 500000 6000000 2000)
                          200 700.0 5.0 1000 0 0)))
             (snd (bitrate_update (context_with 500000 6000000 2000)
                     200 700.0 5.0 1000 0 0)) 1000 with
     | Emergency =>
         cur_bitrate
           (fst (fst (bitrate_update (context_with 500000 6000000 2000)
                        200 700.0 5.0 1000 0 0))) = 500000
     | _ => False
     end.
Proof.
  pose proof (adaptive_response_direction (context_with 500000 6000000 2000)
                200 700.0 5.0 1000 0 0
                (init_well_formed 500000 6000000 2000 1316 30000 100000 500 200
                   ltac:(lia) ltac:(unfold INT_MAX; lia)
                   ltac:(unfold INT_MAX; lia) ltac:(unfold INT_MAX; lia)))
    as [Hwf Hdir].
  split; [exact Hwf|]. vm_compute. reflexivity.
Defined.


(** An RTT of 700 ms under a latency of 2000 ms, on the AIMD state for the
    bounds 500 000 and 6 000 000. *)
Lemma aimd_emergency_commits_min_witness :
  Aimd.cur_bitrate
    (fst (Aimd.aimd_step (aimd_state_with 500000 6000000 2000)
            (sample 10 700.0 5.0 1000))) = 500000
  /\ new_bitrate
       (snd (Aimd.aimd_step (aimd_state_with 500000 6000000 2000)
               (sample 10 700.0 5.0 1000))) = round_100k 500000
  /\ Aimd.next_decr
       (fst (Aimd.aimd_step (aimd_state_with 500000 6000000 2000)
               (sample 10 700.0 5.0 1000))) = 1000 + 200
  /\ Aimd.next_incr
       (fst (Aimd.aimd_step (aimd_state_with 500000 6000000 2000)
               (sample 10 700.0 5.0 1000))) = 0.
Proof.
  apply (aimd_emergency_commits_min (aimd_state_with 500000 6000000 2000)
           (sample 10 700.0 5.0 1000)).
  - vm_compute. reflexivity.
  - cbn. lia.
  - cbn. lia.
  - cbn. unfold UINT64_MOD. lia.
Defined.

End LadderExamples.

(** ** The appsink callback: what reaches SRT *)

Section PacketizerFacts.

Import CInt Packetizer.

Variable srt_pkt_size : Z.
Hypothesis size_positive : 0 < srt_pkt_size.

Lemma MIN_spec a b : MIN a b = Z.min a b.
Proof.
  unfold MIN. destruct (a <? b) eqn:E;
    [apply Z.ltb_lt in E|apply Z.ltb_ge in E]; lia.
Qed.

Lemma firstn_length_Z (data : list Byte.byte) k :
  0 <= k <= Z.of_nat (List.length data) ->
  Z.of_nat (List.length (firstn (Z.to_nat k) data)) = k.
Proof. intros H. rewrite List.length_firstn. lia. Qed.

(** The loop on any network: it ends, every packet it hands over is full,
    and the byte count is kept. *)
Lemma send_loop_general (net : nat -> Z) (data : list Byte.byte) fuel :
  forall sample_sz st,
    0 <= sample_sz <= Z.of_nat (List.length data) ->
    Z.of_nat (List.length (pkt st)) <= srt_pkt_size ->
    sample_sz
    + (if Z.of_nat (List.length (pkt st)) =? srt_pkt_size then 2 else 1)
    <= Z.of_nat fuel ->
    exists code st' new,
      send_loop fuel srt_pkt_size net data sample_sz st = Some (code, st')
      /\ calls st' = calls st ++ new
      /\ Forall (fun c => Z.of_nat (List.length (fst c)) = srt_pkt_size) new
      /\ Z.of_nat (List.length (pkt st')) <= srt_pkt_size
      /\ (code = GST_FLOW_OK ->
          Z.of_nat (List.length (pkt st')) < srt_pkt_size
          /\ Forall (fun c => snd c = srt_pkt_size) new
          /\ quit st' = quit st
          /\ srt_pkt_size * Z.of_nat (List.length new)
             + Z.of_nat (List.length (pkt st'))
             = Z.of_nat (List.length (pkt st)) + sample_sz)
      /\ (code = GST_FLOW_ERROR ->
          Z.of_nat (List.length (pkt st')) = srt_pkt_size /\ quit st' <> 0).
Proof.
  induction fuel as [|fuel IH]; intros sample_sz st Hsz Hlen Hfuel.
  - destruct (_ =? _) in Hfuel; lia.
  - cbn [send_loop]. set (len := Z.of_nat (List.length (pkt st))) in *.
    rewrite MIN_spec. set (copy := Z.min (srt_pkt_size - len) sample_sz).
    assert (Hcopy : 0 <= copy <= sample_sz) by (unfold copy; lia).
    destruct (copy <? 0) eqn:Eneg; [apply Z.ltb_lt in Eneg; lia|].
    set (pkt1 := pkt st ++ firstn (Z.to_nat copy) data).
    assert (Hlen1 : Z.of_nat (List.length pkt1) = len + copy).
    { unfold pkt1. rewrite List.length_app, Nat2Z.inj_add, firstn_length_Z by lia.
      reflexivity. }
    destruct (len + copy =? srt_pkt_size) eqn:Efull.
    + apply Z.eqb_eq in Efull.
      destruct (net (List.length (calls st)) =? srt_pkt_size) eqn:Enb; cbn [negb].
      * apply Z.eqb_eq in Enb.
        destruct (sample_sz - copy =? 0) eqn:Edone.
        -- apply Z.eqb_eq in Edone.
           eexists. eexists. exists [(pkt1, net (List.length (calls st)))].
           split; [reflexivity|]. cbn [calls pkt quit List.length].
           split; [reflexivity|].
           split; [constructor; [cbn [fst]; lia|constructor]|].
           split; [lia|]. split.
           ++ intros _. split; [lia|].
              split; [constructor; [exact Enb|constructor]|].
              split; [reflexivity|]. fold len. lia.
           ++ discriminate.
        -- apply Z.eqb_neq in Edone.
           assert (Hfuel' : sample_sz - copy + 1 <= Z.of_nat fuel).
           { destruct (len =? srt_pkt_size) eqn:El;
               [apply Z.eqb_eq in El|apply Z.eqb_neq in El]; unfold copy in *; lia. }
           destruct (IH (sample_sz - copy)
                       {| pkt := [];
                          calls := calls st ++ [(pkt1, net (List.length (calls st)))];
                          quit := quit st |})
             as (code & st' & new & Hrun & Hcalls & Hfull & Hpend & Hok & Herr).
           { lia. }
           { cbn [pkt List.length]. lia. }
           { cbn [pkt List.length].
             destruct (Z.of_nat 0 =? srt_pkt_size) eqn:E0;
               [apply Z.eqb_eq in E0; lia|]. exact Hfuel'. }
           exists code, st', ((pkt1, net (List.length (calls st))) :: new).
           split; [exact Hrun|]. cbn [calls pkt quit] in *.
           split; [rewrite Hcalls, <- app_assoc; reflexivity|].
           split; [constructor; [cbn [fst]; lia|exact Hfull]|].
           split; [exact Hpend|]. split; [|exact Herr].
           intros Hc. destruct (Hok Hc) as (H1 & H2 & H3 & H4).
           split; [exact H1|]. split; [constructor; [exact Enb|exact H2]|].
           split; [exact H3|]. cbn [List.length] in *. fold len. lia.
      * eexists. eexists. exists [(pkt1, net (List.length (calls st)))].
        split; [reflexivity|]. cbn [calls pkt quit].
        split; [reflexivity|].
        split; [constructor; [cbn [fst]; lia|constructor]|].
        split; [lia|]. split; [discriminate|].
        intros _. split; [lia|]. unfold Host.stop.
        destruct (quit st =? 0) eqn:Eq; [discriminate|].
        apply Z.eqb_neq in Eq. exact Eq.
    + apply Z.eqb_neq in Efull.
      assert (Hall : copy = sample_sz) by (unfold copy in *; lia).
      replace (sample_sz - copy) with 0 by lia. cbn [Z.eqb].
      eexists. eexists. exists []. split; [reflexivity|].
      cbn [calls pkt quit List.length]. rewrite app_nil_r.
      split; [reflexivity|]. split; [constructor|]. split; [lia|].
      split; [|discriminate]. intros _. split; [lia|].
      split; [constructor|]. split; [reflexivity|]. fold len. lia.
Qed.

(** The loop on a network that takes every packet, from an empty buffer:
    each further packet is filled from the first byte of the sample
    again. *)
Lemma send_loop_restarts (data : list Byte.byte) k :
  forall fuel r sent q,
    0 <= r < srt_pkt_size ->
    0 < Z.of_nat k * srt_pkt_size + r <= Z.of_nat (List.length data) ->
    (k < fuel)%nat ->
    send_loop fuel srt_pkt_size (reliable srt_pkt_size) data
      (Z.of_nat k * srt_pkt_size + r) {| pkt := []; calls := sent; quit := q |}
    = Some (GST_FLOW_OK,
            {| pkt := firstn (Z.to_nat r) data;
               calls := sent
                        ++ repeat (firstn (Z.to_nat srt_pkt_size) data,
                                   srt_pkt_size) k;
               quit := q |}).
Proof.
  induction k as [|k IH]; intros fuel r sent q Hr Hsz Hfuel;
    (destruct fuel as [|fuel]; [lia|]); cbn [send_loop pkt calls quit List.length].
  - rewrite MIN_spec. change (Z.of_nat 0) with 0 in *.
    replace (0 * srt_pkt_size + r) with r in * by lia.
    replace (Z.min (srt_pkt_size - 0) r) with r by lia.
    destruct (r <? 0) eqn:E; [apply Z.ltb_lt in E; lia|].
    destruct (0 + r =? srt_pkt_size) eqn:E1; [apply Z.eqb_eq in E1; lia|].
    replace (r - r) with 0 by lia. cbn [Z.eqb app repeat].
    rewrite app_nil_r. reflexivity.
  - rewrite MIN_spec. change (Z.of_nat 0) with 0.
    set (sz := Z.of_nat (S k) * srt_pkt_size + r) in *.
    assert (Hsz' : sz = srt_pkt_size + (Z.of_nat k * srt_pkt_size + r))
      by (unfold sz; lia).
    assert (Hk : 0 <= Z.of_nat k * srt_pkt_size) by nia.
    replace (Z.min (srt_pkt_size - 0) sz) with srt_pkt_size by lia.
    destruct (srt_pkt_size <? 0) eqn:E; [apply Z.ltb_lt in E; lia|].
    replace (0 + srt_pkt_size) with srt_pkt_size by lia.
    rewrite Z.eqb_refl. unfold reliable at 1. rewrite Z.eqb_refl. cbn [negb app].
    replace (sz - srt_pkt_size) with (Z.of_nat k * srt_pkt_size + r) by lia.
    destruct (Z.of_nat k * srt_pkt_size + r =? 0) eqn:Ez.
    + apply Z.eqb_eq in Ez. assert (Hr0 : r = 0) by lia.
      assert (Hk0 : k = 0%nat) by nia. subst r k. reflexivity.
    + apply Z.eqb_neq in Ez. rewrite IH by lia.
      rewrite <- app_assoc. reflexivity.
Qed.

End PacketizerFacts.

Section PacketizerTheorems.

Import CInt Packetizer.

(** [new_buf_cb] on any network, for a positive packet size and a sample
    shorter than 2^31 bytes: the callback returns; every packet it hands
    to [srt_client_send] has exactly [srt_pkt_size] bytes; when it returns
    [GST_FLOW_OK] every one of them was taken, fewer than [srt_pkt_size]
    bytes stay behind, and as many bytes were handed over or stay behind as
    were there before or came with the sample; when it returns
    [GST_FLOW_ERROR] on a sample, [quit] is raised and the packet that was
    refused stays in the buffer for the next call. *)
Theorem new_buf_cb_full_packets :
  forall (srt_pkt_size : Z) (net : nat -> Z) (st : Sender)
         (data : list Byte.byte),
    0 < srt_pkt_size ->
    Z.of_nat (List.length (pkt st)) <= srt_pkt_size ->
    Z.of_nat (List.length data) <= INT_MAX ->
    exists code st' new,
      new_buf_cb srt_pkt_size net st (Some data) = Some (code, st')
      /\ calls st' = calls st ++ new
      /\ Forall (fun c => Z.of_nat (List.length (fst c)) = srt_pkt_size) new
      /\ Z.of_nat (List.length (pkt st')) <= srt_pkt_size
      /\ (code = GST_FLOW_OK ->
          Z.of_nat (List.length (pkt st')) < srt_pkt_size
          /\ Forall (fun c => snd c = srt_pkt_size) new
          /\ quit st' = quit st
          /\ srt_pkt_size * Z.of_nat (List.length new)
             + Z.of_nat (List.length (pkt st'))
             = Z.of_nat (List.length (pkt st)) + Z.of_nat (List.length data))
      /\ (code = GST_FLOW_ERROR ->
          Z.of_nat (List.length (pkt st')) = srt_pkt_size /\ quit st' <> 0).
Proof.
  intros n net st data Hn Hlen Hdata. unfold new_buf_cb.
  rewrite Facts.to_int_id by (unfold int_range, INT_MIN, INT_MAX in *; lia).
  apply send_loop_general; [exact Hn|lia|exact Hlen|].
  destruct (_ =? _); lia.
Qed.

(** Where the bytes of a sample come from.  On a network that takes every
    packet and from an empty buffer, a sample of [k * srt_pkt_size + r]
    bytes ([r < srt_pkt_size]) makes [new_buf_cb] hand over [k] packets that
    are all the first [srt_pkt_size] bytes of the sample, and keep its first
    [r] bytes: the source of the copy is never advanced.  A sample of
    exactly [srt_pkt_size] bytes therefore goes out unchanged, and of a
    longer one nothing past its first [srt_pkt_size] bytes is ever sent. *)
Theorem new_buf_cb_restarts_at_sample_start :
  forall (srt_pkt_size : Z) (sent : list (list Byte.byte * Z)) (q : Z)
         (data : list Byte.byte) (k : nat) (r : Z),
    0 < srt_pkt_size ->
    0 <= r < srt_pkt_size ->
    Z.of_nat (List.length data) = Z.of_nat k * srt_pkt_size + r ->
    Z.of_nat (List.length data) <= INT_MAX ->
    new_buf_cb srt_pkt_size (reliable srt_pkt_size)
      {| pkt := []; calls := sent; quit := q |} (Some data)
    = Some (GST_FLOW_OK,
            {| pkt := firstn (Z.to_nat r) data;
               calls := sent
                        ++ repeat (firstn (Z.to_nat srt_pkt_size) data,
                                   srt_pkt_size) k;
               quit := q |})
    /\ (k = 1%nat -> r = 0 -> firstn (Z.to_nat srt_pkt_size) data = data).
Proof.
  intros n sent q data k r Hn Hr Hlen Hmax. split.
  - unfold new_buf_cb.
    rewrite Facts.to_int_id by (unfold int_range, INT_MIN, INT_MAX in *; lia).
    destruct (Z.eq_dec (Z.of_nat (List.length data)) 0) as [Hz|Hnz].
    + assert (Hr0 : r = 0) by nia. assert (Hk0 : k = 0%nat) by nia.
      subst r k. destruct data; [|cbn in Hz; lia].
      cbn [List.length Z.of_nat send_loop pkt calls quit repeat firstn Z.to_nat app].
      rewrite MIN_spec, app_nil_r. replace (Z.min (n - 0) 0) with 0 by lia.
      cbn [Z.ltb Z.compare Z.add Z.sub Z.opp Z.eqb firstn Z.to_nat].
      destruct n; [lia|reflexivity|lia].
    + rewrite Hlen. apply send_loop_restarts; [exact Hn|exact Hr|lia|].
      assert (Z.of_nat k <= Z.of_nat (List.length data)) by nia. lia.
  - intros -> ->. apply firstn_all2. lia.
Qed.

End PacketizerTheorems.

Section PacketizerExamples.

Import CInt Packetizer Samples.

(** Six bytes into an empty buffer, with packets of four. *)
Lemma new_buf_cb_full_packets_witness :
  exists code st' new,
    new_buf_cb 4 (reliable 4) {| pkt := []; calls := []; quit := 0 |}
      (Some six_bytes)
    = Some (code, st')
    /\ calls st' = [] ++ new
    /\ Forall (fun c => Z.of_nat (List.length (fst c)) = 4) new
    /\ Z.of_nat (List.length (pkt st')) <= 4
    /\ (code = GST_FLOW_OK ->
        Z.of_nat (List.length (pkt st')) < 4
        /\ Forall (fun c => snd c = 4) new
        /\ quit st' = 0
        /\ 4 * Z.of_nat (List.length new) + Z.of_nat (List.length (pkt st'))
           = Z.of_nat 0 + Z.of_nat 6)
    /\ (code = GST_FLOW_ERROR ->
        Z.of_nat (List.length (pkt st')) = 4 /\ quit st' <> 0).
Proof.
  apply (new_buf_cb_full_packets 4 (reliable 4)
           {| pkt := []; calls := []; quit := 0 |} six_bytes).
  - lia.
  - cbn. lia.
  - cbn. unfold INT_MAX. lia.
Defined.

(** The same sample: one packet with its bytes 1 to 4 goes out, and the
    buffer keeps its bytes 1 and 2, not 5 and 6. *)
Lemma new_buf_cb_restarts_at_sample_start_witness :
  new_buf_cb 4 (reliable 4) {| pkt := []; calls := []; quit := 0 |}
    (Some six_bytes)
  = Some (GST_FLOW_OK,
          {| pkt := [Byte.x01; Byte.x02];
             calls := [([Byte.x01; Byte.x02; Byte.x03; Byte.x04], 4)];
             quit := 0 |}).
Proof.
  apply (proj1 (new_buf_cb_restarts_at_sample_start 4 [] 0 six_bytes 1 2
                  ltac:(lia) ltac:(lia) eq_refl
                  ltac:(cbn; unfold INT_MAX; lia))).
Defined.

End PacketizerExamples.

(** ** The PTS fix-up *)

Section PtsFacts.

Import CInt PtsFixup.

Lemma to_uint64_small z : 0 <= z < 2 ^ 63 -> to_uint64 z = z.
Proof.
  intros H. apply Facts.to_uint64_id. unfold UINT64_MOD.
  change (2 ^ 64) with (2 * 2 ^ 63). lia.
Qed.

Lemma pow_62_63 : 2 ^ 63 = 2 * 2 ^ 62 /\ 2 ^ 62 = 2 * 2 ^ 61
                  /\ 2 ^ 61 = 2048 * 2 ^ 50 /\ 0 < 2 ^ 50.
Proof. repeat split; reflexivity. Qed.

Lemma quot_mul_bounds x p :
  0 < p ->
  (0 <= x -> Z.quot x p = x / p /\ 0 <= Z.quot x p <= x
             /\ 0 <= Z.quot x p * p <= x)
  /\ (x <= 0 -> x <= Z.quot x p <= 0 /\ x <= Z.quot x p * p <= 0).
Proof.
  intros Hp.
  assert (Hnn : forall y, 0 <= y -> 0 <= y / p <= y /\ 0 <= y / p * p <= y).
  { intros y Hy. pose proof (Z.div_pos y p Hy Hp).
    pose proof (Z.mul_div_le y p Hp). nia. }
  split.
  - intros Hx. rewrite Z.quot_div_nonneg by lia.
    split; [reflexivity|]. apply Hnn. exact Hx.
  - intros Hx.
    assert (Hq : Z.quot x p = - (- x / p)).
    { rewrite <- (Z.quot_div_nonneg (- x) p) by lia.
      rewrite <- Z.quot_opp_l by lia. f_equal. lia. }
    rewrite Hq. destruct (Hnn (- x) ltac:(lia)). nia.
Qed.

(** The increment of [cb_ptsfixup] for a positive period and no overflow. *)
Lemma ptsfixup_step st pts_in fr p :
  0 < pts st < 2 ^ 62 -> 0 <= pts_in < 2 ^ 62 ->
  average_period (period st) (to_int64 pts_in) (prev_pts st) = p ->
  0 < p < 2 ^ 61 ->
  let diff := pts_in - pts st in
  let incr := cdiv (cdiv diff 2 + p) p * p in
  cb_ptsfixup st pts_in fr
  = Some (if 0 <? incr
          then ({| pts := pts st + incr; period := p; prev_pts := pts_in |},
                {| buffer_pts := pts st + incr; droppable := false |})
          else ({| pts := pts st; period := p; prev_pts := pts_in |},
                {| buffer_pts := pts_in; droppable := true |}))
  /\ (0 < incr <-> -1 <= diff)
  /\ (-1 <= diff ->
      1 <= cdiv (cdiv diff 2 + p) p /\ (diff < 2 * p -> incr = p)).
Proof.
  intros Hpts Hin Hp Hpr diff incr.
  destruct pow_62_63 as (P63 & P62 & _).
  set (h := cdiv diff 2) in *.
  assert (Hh : - 2 ^ 61 <= h <= 2 ^ 61
               /\ (0 <= h <-> -1 <= diff) /\ (diff < 2 * p -> h < p)).
  { unfold h, cdiv. pose proof (Z.quot_rem diff 2 ltac:(lia)) as Hqr.
    pose proof (Z.rem_bound_abs diff 2 ltac:(lia)) as Hab.
    assert (Hsign : 0 <= diff -> 0 <= Z.rem diff 2)
      by (intros; apply Z.rem_nonneg; lia).
    assert (Hsign' : diff <= 0 -> Z.rem diff 2 <= 0)
      by (intros; apply Z.rem_nonpos; lia).
    unfold diff in *. lia. }
  destruct Hh as (Hhb & Hh0 & Hhp).
  destruct (quot_mul_bounds (h + p) p ltac:(lia)) as [Hnn Hneg].
  fold (cdiv (h + p) p) in Hnn, Hneg. set (q := cdiv (h + p) p) in *.
  assert (Hq : - 2 ^ 62 <= q <= 2 ^ 62 /\ - 2 ^ 62 <= q * p <= 2 ^ 62).
  { destruct (Z_le_gt_dec 0 (h + p)) as [H|H].
    - specialize (Hnn H). lia.
    - specialize (Hneg ltac:(lia)). lia. }
  assert (Hsign : (0 <= h -> 1 <= q /\ p <= q * p)
                  /\ (h < 0 -> q * p <= 0)).
  { split.
    - intros H0. destruct (Hnn ltac:(lia)) as (Hdiv & _).
      assert (1 <= (h + p) / p) by (apply Z.div_le_lower_bound; lia).
      rewrite Hdiv. nia.
    - intros Hn. destruct (Z_le_gt_dec 0 (h + p)) as [H|H].
      + destruct (Hnn H) as (Hdiv & _).
        rewrite Hdiv, Z.div_small by lia. lia.
      + specialize (Hneg ltac:(lia)). lia. }
  destruct Hsign as [Hpos Hnonpos].
  split; [|split].
  - unfold cb_ptsfixup.
    destruct (pts st =? 0) eqn:E0; [apply Z.eqb_eq in E0; lia|].
    rewrite (to_int64_id pts_in) in * by lia. rewrite Hp.
    destruct (p =? 0) eqn:Ep; [apply Z.eqb_eq in Ep; lia|].
    rewrite (to_int64_id (pts_in - pts st)) by lia. fold diff. fold h.
    rewrite (to_int64_id (h + p)) by lia. fold q.
    rewrite (to_int64_id q) by lia. rewrite (to_int64_id (q * p)) by lia.
    fold incr. destruct (0 <? incr) eqn:Ei; [|reflexivity].
    apply Z.ltb_lt in Ei.
    rewrite to_uint64_small by (unfold incr in *; lia). reflexivity.
  - unfold incr. split.
    + intros Hi. apply Hh0. destruct (Z_le_gt_dec 0 h); [assumption|].
      specialize (Hnonpos ltac:(lia)). lia.
    + intros Hd. specialize (Hpos (proj2 Hh0 Hd)). lia.
  - intros Hd. pose proof (proj2 Hh0 Hd) as H0.
    split; [apply Hpos; exact H0|]. intros Hlt. unfold incr.
    destruct (Hnn ltac:(lia)) as (Hdiv & _).
    assert (Hone : (h + p) / p = 1).
    { symmetry. apply (Z.div_unique (h + p) p 1 h); [|lia].
      left. split; [exact H0|]. apply Hhp. exact Hlt. }
    rewrite Hdiv, Hone. lia.
Qed.

(** The rolling average on a frame that comes exactly one period after the
    one before. *)
Lemma average_period_on_time p input prev :
  0 <= p < 2 ^ 50 -> - 2 ^ 62 <= prev <= 2 ^ 62 -> input - prev = p ->
  average_period p input prev
  = p + (if (3 * p) mod 1000 =? 500 then 1 else 0).
Proof.
  intros Hp Hprev Hd. destruct pow_62_63 as (P63 & P62 & P61 & P50).
  unfold average_period, AVG_ROUNDING, AVG_PREV, AVG_MULT, AVG_WEIGHT.
  change (cdiv 1000 2) with 500. change (1000 - 3) with 997. rewrite Hd.
  rewrite (to_int64_id p) by lia.
  rewrite (to_int64_id (p * 997)) by lia.
  rewrite (to_int64_id (p * 3)) by lia.
  rewrite (to_int64_id (p * 997 + 500)) by lia.
  rewrite (to_int64_id (p * 3 + 500)) by lia.
  unfold cdiv. rewrite !Z.quot_div_nonneg by lia.
  pose proof (Z.div_mod (3 * p) 1000 ltac:(lia)) as Hdm.
  pose proof (Z.mod_pos_bound (3 * p) 1000 ltac:(lia)) as Hb.
  set (a := 3 * p / 1000) in *. set (b := (3 * p) mod 1000) in *.
  assert (Ha : 0 <= a) by (apply Z.div_pos; lia).
  assert (H1 : (p * 997 + 500) / 1000
               = p - a - (if 500 <? b then 1 else 0)).
  { destruct (500 <? b) eqn:E; [apply Z.ltb_lt in E|apply Z.ltb_ge in E];
      symmetry.
    - apply (Z.div_unique _ 1000 _ (1500 - b)); lia.
    - apply (Z.div_unique _ 1000 _ (500 - b)); lia. }
  assert (H2 : (p * 3 + 500) / 1000 = a + (if 500 <=? b then 1 else 0)).
  { destruct (500 <=? b) eqn:E; [apply Z.leb_le in E|apply Z.leb_gt in E];
      symmetry.
    - apply (Z.div_unique _ 1000 _ (b - 500)); lia.
    - apply (Z.div_unique _ 1000 _ (b + 500)); lia. }
  rewrite H1, H2.
  assert (Hsum : p - a - (if 500 <? b then 1 else 0)
                 + (a + (if 500 <=? b then 1 else 0))
                 = p + (if b =? 500 then 1 else 0)).
  { destruct (500 <? b) eqn:E1; destruct (500 <=? b) eqn:E2;
      destruct (b =? 500) eqn:E3;
      rewrite ?Z.ltb_lt, ?Z.ltb_ge, ?Z.leb_le, ?Z.leb_gt, ?Z.eqb_eq, ?Z.eqb_neq
        in *; lia. }
  rewrite Hsum. apply to_int64_id. destruct (b =? 500); lia.
Qed.

(** What [cb_ptsfixup] does to a frame once the frame rate is known, for a
    positive averaged period [p] and time stamps below 2^62 ns.  With
    [diff] the input PTS minus the last output PTS: a frame at least 2 ns
    behind is flagged droppable and keeps its PTS; any other frame is
    stamped with the last output PTS plus a positive multiple of [p], so
    the output PTS always goes up; and a frame no more than two periods
    ahead ([-1 <= diff < 2 p]) is stamped exactly one period after the
    last. *)
Theorem ptsfixup_advances_by_periods :
  forall (st : PtsState) (pts_in : Z) (fr : option (Z * Z)) (p : Z),
    0 < pts st < 2 ^ 62 -> 0 <= pts_in < 2 ^ 62 ->
    average_period (period st) (to_int64 pts_in) (prev_pts st) = p ->
    0 < p < 2 ^ 61 ->
    let diff := pts_in - pts st in
    (diff <= -2 ->
     cb_ptsfixup st pts_in fr
     = Some ({| pts := pts st; period := p; prev_pts := pts_in |},
             {| buffer_pts := pts_in; droppable := true |}))
    /\ (-1 <= diff ->
        exists k,
          1 <= k
          /\ cb_ptsfixup st pts_in fr
             = Some ({| pts := pts st + k * p; period := p; prev_pts := pts_in |},
                     {| buffer_pts := pts st + k * p; droppable := false |})
          /\ (diff < 2 * p -> k = 1)).
Proof.
  intros st pts_in fr p Hpts Hin Hp Hpr diff.
  destruct (ptsfixup_step st pts_in fr p Hpts Hin Hp Hpr)
    as (Hrun & Hpos & Hone).
  fold diff in Hrun, Hpos, Hone. split.
  - intros Hd. rewrite Hrun.
    destruct (0 <? _) eqn:E; [apply Z.ltb_lt in E; apply Hpos in E; lia|].
    reflexivity.
  - intros Hd. exists (cdiv (cdiv diff 2 + p) p).
    pose proof (proj2 Hpos Hd) as Hi. destruct (Hone Hd) as [Hk H1].
    split; [exact Hk|]. split.
    + rewrite Hrun. apply Z.ltb_lt in Hi. rewrite Hi. reflexivity.
    + intros Hlt. specialize (H1 Hlt). nia.
Qed.

(** A regular stream keeps its time stamps.  When the last frame went out
    with its own PTS [t] and the period stands at [p], a frame that comes
    exactly [p] later goes out with its own PTS as well and leaves the
    period at [p], provided [3 p] is not 500 modulo 1000 (then the rounding
    of the average moves the period to [p + 1]). *)
Theorem ptsfixup_keeps_regular_stream :
  forall (t p : Z) (fr : option (Z * Z)),
    0 < t -> 0 < p < 2 ^ 50 -> t + p < 2 ^ 62 ->
    (3 * p) mod 1000 <> 500 ->
    cb_ptsfixup {| pts := t; period := p; prev_pts := t |} (t + p) fr
    = Some ({| pts := t + p; period := p; prev_pts := t + p |},
            {| buffer_pts := t + p; droppable := false |}).
Proof.
  intros t p fr Ht Hp Htp Hmod.
  destruct pow_62_63 as (P63 & P62 & P61 & P50).
  assert (Havg : average_period p (to_int64 (t + p)) t = p).
  { rewrite to_int64_id by lia.
    rewrite average_period_on_time by lia.
    destruct (_ =? 500) eqn:E; [apply Z.eqb_eq in E; contradiction|lia]. }
  destruct (ptsfixup_step {| pts := t; period := p; prev_pts := t |} (t + p) fr p)
    as (Hrun & _ & Hone); cbn [pts period prev_pts] in *;
    try lia; try exact Havg.
  rewrite Hrun. rewrite (proj2 (Hone ltac:(lia))) by lia.
  assert (Hi : (0 <? p) = true) by (apply Z.ltb_lt; lia).
  rewrite Hi. reflexivity.
Qed.

End PtsFacts.

Section PtsExamples.

Import CInt PtsFixup.

(** 30 frames per second: a frame 33 ms after the last output is stamped
    one period after it. *)
Lemma ptsfixup_advances_by_periods_witness :
  exists k,
    1 <= k
    /\ cb_ptsfixup {| pts := 1000000; period := 33333333; prev_pts := 1000000 |}
         34000000 None
       = Some ({| pts := 1000000 + k * 33332333; period := 33332333;
                  prev_pts := 34000000 |},
               {| buffer_pts := 1000000 + k * 33332333; droppable := false |})
    /\ (34000000 - 1000000 < 2 * 33332333 -> k = 1).
Proof.
  apply (proj2 (ptsfixup_advances_by_periods
                  {| pts := 1000000; period := 33333333; prev_pts := 1000000 |}
                  34000000 None 33332333
                  ltac:(cbn; lia) ltac:(lia) eq_refl ltac:(lia))).
  cbn. lia.
Defined.

Lemma ptsfixup_keeps_regular_stream_witness :
  cb_ptsfixup {| pts := 1000000000; period := 33333333; prev_pts := 1000000000 |}
    (1000000000 + 33333333) None
  = Some ({| pts := 1000000000 + 33333333; period := 33333333;
             prev_pts := 1000000000 + 33333333 |},
          {| buffer_pts := 1000000000 + 33333333; droppable := false |}).
Proof.
  apply (ptsfixup_keeps_regular_stream 1000000000 33333333 None);
    [lia|lia|lia|].
  vm_compute. discriminate.
Defined.

End PtsExamples.

(** ** The configuration file *)

Section TrimFacts.

Import Parse Grammar ConfigFile.
Local Open Scope string_scope.

Lemma strip_end_cons c rest :
  strip_end (String c rest)
  = match strip_end rest with
    | EmptyString => if isspace c then EmptyString else String c EmptyString
    | String _ _ as kept => String c kept
    end.
Proof. reflexivity. Qed.

Lemma strip_end_split s :
  exists trail, s = strip_end s ++ trail /\ all_chars isspace trail = true.
Proof.
  induction s as [|c rest IH]; [exists ""; split; reflexivity|].
  rewrite strip_end_cons. destruct IH as (trail & Hs & Ht).
  destruct (strip_end rest) as [|d kept].
  - cbn [append] in Hs. subst trail. destruct (isspace c) eqn:E.
    + exists (String c rest). split; [reflexivity|]. cbn. rewrite E. exact Ht.
    + exists rest. split; [reflexivity|exact Ht].
  - exists trail. split; [|exact Ht]. cbn [append]. f_equal. exact Hs.
Qed.

Lemma strip_end_last s :
  forall t c, strip_end s = t ++ String c "" -> isspace c = false.
Proof.
  induction s as [|a rest IH]; intros t c.
  - destruct t; discriminate.
  - rewrite strip_end_cons. destruct (strip_end rest) as [|d kept].
    + destruct (isspace a) eqn:E; [destruct t; discriminate|].
      destruct t as [|x t]; cbn [append].
      * intros [= <-]. exact E.
      * intros [= _ H]. destruct t; discriminate.
    + destruct t as [|x t]; cbn [append]; [discriminate|].
      intros [= _ H]. apply (IH t c). exact H.
Qed.

Lemma strip_end_idem s : strip_end (strip_end s) = strip_end s.
Proof.
  induction s as [|a rest IH]; [reflexivity|].
  rewrite strip_end_cons. destruct (strip_end rest) as [|d kept] eqn:E.
  - destruct (isspace a) eqn:Ea; [reflexivity|].
    rewrite strip_end_cons. cbn [strip_end]. rewrite Ea. reflexivity.
  - rewrite strip_end_cons, IH. reflexivity.
Qed.

(** [trim] takes off the white space at both ends and nothing else: the
    string is its trimmed form between two runs of white space; the trimmed
    form neither begins nor ends with white space; and trimming it again
    changes nothing. *)
Theorem trim_strips_both_ends :
  forall s : string,
    (exists lead trail,
       s = lead ++ trim s ++ trail
       /\ all_chars isspace lead = true /\ all_chars isspace trail = true)
    /\ starts_with isspace (trim s) = false
    /\ (forall t c, trim s = t ++ String c "" -> isspace c = false)
    /\ trim (trim s) = trim s.
Proof.
  intros s. unfold trim.
  destruct (skip_isspace_split s) as (lead & Hs & Hlead).
  pose proof (skip_isspace_stops s) as Hstop.
  destruct (skip_isspace s) as [|c rest] eqn:E.
  - repeat split.
    + exists lead, "". repeat split; assumption.
    + intros t c H. destruct t; discriminate.
  - cbn [starts_with] in Hstop.
    destruct (strip_end_split rest) as (trail & Hr & Htrail).
    split; [|split; [|split]].
    + exists lead, trail. split; [|split; assumption].
      rewrite Hs at 1. f_equal. cbn [append]. f_equal. exact Hr.
    + exact Hstop.
    + intros t x H. destruct t as [|y t]; cbn [append] in H.
      * injection H as <- H. exact Hstop.
      * injection H as _ H. apply (strip_end_last rest t x). exact H.
    + cbn [skip_isspace]. rewrite Hstop, strip_end_idem. reflexivity.
Qed.

End TrimFacts.

Section ConfigLoadFacts.

Import CInt Parse Grammar Config ConfigFile.
Local Open Scope string_scope.

Variable atof : string -> float.

Lemma determines_compose {A : Type} (p : BelacoderConfig -> A) F G :
  determines p F -> determines p G -> determines p (fun c => G (F c)).
Proof.
  intros [oF HF] [oG HG]. exists (later_of oF oG). intros c.
  rewrite HG, HF. destruct oG, oF; reflexivity.
Qed.

Lemma fieldwise_compose F G :
  fieldwise F -> fieldwise G -> fieldwise (fun c => G (F c)).
Proof.
  unfold fieldwise.
  intros (F1 & F2 & F3 & F4 & F5 & F6 & F7 & F8 & F9 & F10 & F11 & F12 & F13 & Fs)
         (G1 & G2 & G3 & G4 & G5 & G6 & G7 & G8 & G9 & G10 & G11 & G12 & G13 & Gs).
  repeat (split; [apply determines_compose; assumption|]).
  intros c. rewrite Gs, Fs. reflexivity.
Qed.

Ltac solve_determines :=
  first [ exists None; intros c; reflexivity
        | eexists (Some _); intros c; reflexivity ].

Lemma fieldwise_id : fieldwise (fun c => c).
Proof. unfold fieldwise. repeat (split; [solve_determines|]). reflexivity. Qed.

Lemma parse_line_fieldwise section key val :
  fieldwise (fun cfg => parse_line atof cfg section key val).
Proof.
  unfold parse_line, set_adaptive, set_aimd.
  repeat match goal with
         | |- context [if String.eqb ?a ?b then _ else _] =>
             destruct (String.eqb a b)
         end;
    unfold fieldwise; repeat (split; [solve_determines|]); reflexivity.
Qed.

Lemma config_line_fieldwise section line :
  exists F section',
    fieldwise F
    /\ forall cfg, config_line atof cfg section line = (F cfg, section').
Proof.
  unfold config_line. destruct (trim (c_str line)) as [|first after_first].
  - exists (fun c => c), section. split; [apply fieldwise_id|reflexivity].
  - destruct (Ascii.eqb first "#" || Ascii.eqb first ";").
    { exists (fun c => c), section. split; [apply fieldwise_id|reflexivity]. }
    destruct (Ascii.eqb first "[").
    { destruct (split_at "]" after_first) as [[inside after]|].
      - exists (fun c => c), (strncpy 63 inside).
        split; [apply fieldwise_id|reflexivity].
      - exists (fun c => c), section. split; [apply fieldwise_id|reflexivity]. }
    destruct (split_at "=" (String first after_first)) as [[before after]|].
    + exists (fun cfg => parse_line atof cfg section (trim before) (trim after)),
        section.
      split; [apply parse_line_fieldwise|reflexivity].
    + exists (fun c => c), section. split; [apply fieldwise_id|reflexivity].
Qed.

Lemma config_load_loop_fieldwise fuel :
  forall section stream,
    (length stream <= fuel)%nat ->
    exists F,
      fieldwise F
      /\ forall cfg, config_load_loop atof fuel cfg section stream = Some (F cfg).
Proof.
  induction fuel as [|fuel IH]; intros section stream Hlen.
  - destruct stream; [|cbn in Hlen; lia].
    exists (fun c => c). split; [apply fieldwise_id|reflexivity].
  - cbn [config_load_loop].
    destruct (fgets 512 stream) as [[line remaining]|] eqn:E.
    + apply fgets_shorter in E.
      destruct (config_line_fieldwise section line) as (F & section' & HF & Hline).
      destruct (IH section' remaining ltac:(lia)) as (G & HG & Hloop).
      exists (fun c => G (F c)). split; [apply fieldwise_compose; assumption|].
      intros cfg. rewrite Hline. apply Hloop.
    + exists (fun c => c). split; [apply fieldwise_id|reflexivity].
Qed.

Lemma fieldwise_assign F :
  fieldwise F -> exists ov, forall cfg, F cfg = assign ov cfg.
Proof.
  unfold fieldwise, determines.
  intros ([o1 H1] & [o2 H2] & [o3 H3] & [o4 H4] & [o5 H5] & [o6 H6] & [o7 H7]
          & [o8 H8] & [o9 H9] & [o10 H10] & [o11 H11] & [o12 H12] & [o13 H13]
          & Hs).
  exists {| o_min_bitrate := o1; o_max_bitrate := o2; o_balancer := o3;
            o_srt_latency := o4; o_adaptive_incr_step := o5;
            o_adaptive_decr_step := o6; o_adaptive_incr_interval := o7;
            o_adaptive_decr_interval := o8; o_loss_threshold := o9;
            o_aimd_incr_step := o10; o_decr_mult := o11;
            o_aimd_incr_interval := o12; o_aimd_decr_interval := o13 |}.
  intros cfg. unfold assign. cbn [o_min_bitrate o_max_bitrate o_balancer
    o_srt_latency o_adaptive_incr_step o_adaptive_decr_step
    o_adaptive_incr_interval o_adaptive_decr_interval o_loss_threshold
    o_aimd_incr_step o_decr_mult o_aimd_incr_interval o_aimd_decr_interval].
  rewrite <- H1, <- H2, <- H3, <- H4, <- H5, <- H6, <- H7, <- H8, <- H9,
    <- H10, <- H11, <- H12, <- H13, <- Hs.
  destruct (F cfg) as [a b c d e [f g h i j] [k l m n]]. reflexivity.
Qed.

Lemma assign_idem ov cfg : assign ov (assign ov cfg) = assign ov cfg.
Proof.
  destruct ov as [o1 o2 o3 o4 o5 o6 o7 o8 o9 o10 o11 o12 o13].
  unfold assign. cbn.
  f_equal; [| | | |f_equal|f_equal];
    match goal with
    | |- pick ?o _ = _ => destruct o; reflexivity
    end.
Qed.

(** Lines that hold no ['='] change nothing. *)
Lemma free_of_split c s : free_of c s = true -> split_at c s = None.
Proof.
  induction s as [|d rest IH]; [reflexivity|]. cbn [free_of split_at].
  intros H. apply andb_true_iff in H. destruct H as [Hd Hr].
  apply negb_true_iff in Hd. rewrite Hd, (IH Hr). reflexivity.
Qed.

Lemma free_of_skip c s : free_of c s = true -> free_of c (skip_isspace s) = true.
Proof.
  induction s as [|d rest IH]; [reflexivity|]. cbn [skip_isspace].
  destruct (isspace d); [|tauto]. cbn [free_of]. intros H.
  apply andb_true_iff in H. apply IH, H.
Qed.

Lemma free_of_strip c s : free_of c s = true -> free_of c (strip_end s) = true.
Proof.
  induction s as [|d rest IH]; [reflexivity|]. rewrite strip_end_cons.
  cbn [free_of]. intros H. apply andb_true_iff in H. destruct H as [Hd Hr].
  specialize (IH Hr). destruct (strip_end rest).
  - destruct (isspace d); [reflexivity|]. cbn [free_of]. rewrite Hd. reflexivity.
  - cbn [free_of] in *. rewrite Hd. exact IH.
Qed.

Lemma free_of_trim c s : free_of c s = true -> free_of c (trim s) = true.
Proof.
  intros H. unfold trim. pose proof (free_of_skip c s H) as Hs.
  destruct (skip_isspace s) as [|d rest]; [reflexivity|].
  cbn [free_of] in *. apply andb_true_iff in Hs. destruct Hs as [Hd Hr].
  rewrite Hd. apply free_of_strip. exact Hr.
Qed.

Lemma free_of_c_str c s : free_of c s = true -> free_of c (c_str s) = true.
Proof.
  induction s as [|d rest IH]; [reflexivity|]. cbn [c_str free_of].
  intros H. apply andb_true_iff in H. destruct H as [Hd Hr].
  destruct (Ascii.eqb d NUL); [reflexivity|]. cbn [free_of].
  rewrite Hd. apply IH, Hr.
Qed.

Lemma free_of_fgets_read c room :
  forall s, free_of c s = true ->
            free_of c (fst (fgets_read room s)) = true
            /\ free_of c (snd (fgets_read room s)) = true.
Proof.
  induction room as [|room IH]; intros s H; [split; [reflexivity|exact H]|].
  destruct s as [|d rest]; [split; reflexivity|].
  rewrite fgets_read_cons. cbn [free_of] in H. apply andb_true_iff in H.
  destruct H as [Hd Hr]. destruct (Ascii.eqb d newline).
  - cbn [fst snd free_of]. rewrite Hd. split; [reflexivity|exact Hr].
  - destruct (IH rest Hr) as [H1 H2]. destruct (fgets_read room rest) as [l r].
    cbn [fst snd free_of] in *. rewrite Hd. split; assumption.
Qed.

Lemma fgets_free_of c stream line remaining :
  fgets 512 stream = Some (line, remaining) -> free_of c stream = true ->
  free_of c line = true /\ free_of c remaining = true.
Proof.
  unfold fgets. destruct stream as [|c0 rest0]; [discriminate|].
  intros E Hfree.
  assert (Heq : fgets_read (512 - 1) (String c0 rest0) = (line, remaining)).
  { apply (f_equal (fun o => match o with
                             | Some x => x
                             | None => (line, remaining)
                             end)) in E. exact E. }
  destruct (free_of_fgets_read c (512 - 1) _ Hfree) as [Hl Hr].
  rewrite Heq in Hl, Hr. split; assumption.
Qed.

Lemma config_line_without_equals cfg section line :
  free_of "=" line = true ->
  fst (config_line atof cfg section line) = cfg.
Proof.
  intros H. unfold config_line.
  pose proof (free_of_trim "=" _ (free_of_c_str "=" _ H)) as Ht.
  destruct (trim (c_str line)) as [|first after_first]; [reflexivity|].
  destruct (Ascii.eqb first "#" || Ascii.eqb first ";"); [reflexivity|].
  destruct (Ascii.eqb first "[").
  { destruct (split_at "]" after_first) as [[inside after]|]; reflexivity. }
  rewrite (free_of_split "=" _ Ht). reflexivity.
Qed.

Lemma config_load_loop_without_equals fuel :
  forall cfg section stream,
    (length stream <= fuel)%nat -> free_of "=" stream = true ->
    config_load_loop atof fuel cfg section stream = Some cfg.
Proof.
  induction fuel as [|fuel IH]; intros cfg section stream Hlen Hfree.
  - destruct stream; [reflexivity|cbn in Hlen; lia].
  - cbn [config_load_loop].
    destruct (fgets 512 stream) as [[line remaining]|] eqn:E; [|reflexivity].
    pose proof (fgets_shorter _ _ _ E) as Hshort.
    destruct (fgets_free_of "=" _ _ _ E Hfree) as [Hl Hr].
    pose proof (config_line_without_equals cfg section line Hl) as Hsame.
    destruct (config_line atof cfg section line) as [cfg' section'].
    cbn [fst] in Hsame. subst cfg'. apply IH; [lia|exact Hr].
Qed.

(** What a configuration file does to the configuration.  [config_load]
    returns 0 on every file that opens, whatever it holds.  The file fixes,
    by itself, which fields are assigned and with which values; every other
    field, and the stream id, keeps the value it had before the call (not
    its default).  Loading the same file once more therefore changes
    nothing, and a file without any ['='] leaves the configuration as it
    was. *)
Theorem config_load_assigns_fields :
  forall content : string,
    (exists ov : Overrides,
       forall cfg,
         config_load atof cfg (Some content) = Some (0, assign ov cfg))
    /\ (forall cfg cfg',
          config_load atof cfg (Some content) = Some (0, cfg') ->
          config_load atof cfg' (Some content) = Some (0, cfg'))
    /\ (free_of "=" content = true ->
        forall cfg, config_load atof cfg (Some content) = Some (0, cfg)).
Proof.
  intros content.
  destruct (config_load_loop_fieldwise (length content) "general" content
              (le_n _)) as (F & HF & Hloop).
  destruct (fieldwise_assign F HF) as (ov & Hov).
  assert (Hload : forall cfg,
            config_load atof cfg (Some content) = Some (0, assign ov cfg)).
  { intros cfg. unfold config_load. rewrite Hloop, Hov. reflexivity. }
  split; [exists ov; exact Hload|]. split.
  - intros cfg cfg' H. rewrite Hload in H. injection H as <-.
    rewrite Hload, assign_idem. reflexivity.
  - intros Hfree cfg. unfold config_load.
    rewrite config_load_loop_without_equals by (try apply le_n; exact Hfree).
    reflexivity.
Qed.

End ConfigLoadFacts.

Section ConfigLineFacts.

Import CInt Parse Grammar LongGrammar Config ConfigFile.
Local Open Scope string_scope.

Variable atof : string -> float.

Lemma append_assoc (a b c : string) : (a ++ b) ++ c = a ++ b ++ c.
Proof. induction a as [|x a IH]; [reflexivity|]. cbn. rewrite IH. reflexivity. Qed.

Lemma space_not_nul sp : all_chars isspace sp = true -> free_of NUL sp = true.
Proof.
  induction sp as [|c sp IH]; [reflexivity|]. cbn [all_chars free_of].
  intros H. apply andb_true_iff in H. destruct H as [Hc Hs].
  destruct (char_classes c) as (_ & Hn & _). rewrite (Hn Hc), (IH Hs).
  reflexivity.
Qed.

Lemma free_of_app c a b :
  free_of c (a ++ b) = free_of c a && free_of c b.
Proof.
  induction a as [|x a IH]; [reflexivity|]. cbn [append free_of].
  rewrite IH, andb_assoc. reflexivity.
Qed.

Lemma c_str_free s : free_of NUL s = true -> c_str s = s.
Proof.
  induction s as [|c s IH]; [reflexivity|]. cbn [free_of c_str].
  intros H. apply andb_true_iff in H. destruct H as [Hc Hs].
  apply negb_true_iff in Hc. rewrite Hc, (IH Hs). reflexivity.
Qed.

Lemma skip_isspace_lead sp s :
  all_chars isspace sp = true -> skip_isspace (sp ++ s) = skip_isspace s.
Proof.
  induction sp as [|c sp IH]; [reflexivity|]. cbn [all_chars append skip_isspace].
  intros H. apply andb_true_iff in H. destruct H as [Hc Hs].
  rewrite Hc. apply IH, Hs.
Qed.

Lemma strip_end_space sp :
  all_chars isspace sp = true -> strip_end sp = "".
Proof.
  induction sp as [|c sp IH]; [reflexivity|]. cbn [all_chars].
  intros H. apply andb_true_iff in H. destruct H as [Hc Hs].
  rewrite strip_end_cons, (IH Hs), Hc. reflexivity.
Qed.

Lemma strip_end_app a b :
  strip_end (a ++ b)
  = match strip_end b with
    | EmptyString => strip_end a
    | String _ _ as kept => a ++ kept
    end.
Proof.
  induction a as [|x a IH]; cbn [append].
  - destruct (strip_end b); reflexivity.
  - rewrite !strip_end_cons, IH. destruct (strip_end b) as [|y kept].
    + reflexivity.
    + destruct a; reflexivity.
Qed.

Lemma trim_fixed s c rest :
  trim s = s -> s = String c rest ->
  isspace c = false /\ strip_end rest = rest.
Proof.
  intros Ht ->. unfold trim in Ht. cbn [skip_isspace] in Ht.
  destruct (isspace c) eqn:E.
  - exfalso.
    pose proof (skip_isspace_split rest) as (lead & Hr & _).
    assert (Hlen : (length (skip_isspace rest) <= length rest)%nat).
    { rewrite Hr at 2. clear. induction lead; cbn; lia. }
    destruct (skip_isspace rest) as [|d k] eqn:Es; [discriminate|].
    injection Ht as _ Hk.
    pose proof (strip_end_split k) as (trail & Hk' & _).
    assert (Hlen' : (length (strip_end k) <= length k)%nat).
    { rewrite Hk' at 2. clear. induction (strip_end k); cbn; lia. }
    rewrite Hk in Hlen'. cbn in Hlen. lia.
  - injection Ht as Hr. split; [reflexivity|exact Hr].
Qed.

Lemma split_at_first c a b :
  free_of c a = true -> split_at c (a ++ String c b) = Some (a, b).
Proof.
  induction a as [|x a IH]; cbn [append split_at free_of].
  - rewrite Ascii.eqb_refl. reflexivity.
  - intros H. apply andb_true_iff in H. destruct H as [Hx Ha].
    apply negb_true_iff in Hx. rewrite Hx, (IH Ha). reflexivity.
Qed.

Lemma space_free_of_equals sp :
  all_chars isspace sp = true -> free_of "=" sp = true.
Proof.
  induction sp as [|c sp IH]; [reflexivity|]. cbn [all_chars free_of].
  intros H. apply andb_true_iff in H. destruct H as [Hc Hs].
  rewrite (IH Hs), andb_true_r. apply negb_true_iff.
  destruct (Ascii.eqb c "=") eqn:E; [|reflexivity].
  apply Ascii.eqb_eq in E. subst c. discriminate.
Qed.

(** A [key = value] line.  White space before the key, around the ['=']
    and at the end of the line (the newline included) is ignored; the key
    is the text before the first ['=']; the value is all that follows it,
    up to the end of the line: [config_line] hands [parse_line] exactly
    [key] and [val], within the section in force, and keeps that section.
    (The key begins with none of ['#'], [';'], ['['] and holds no ['='];
    neither holds a [NUL] byte.) *)
Theorem config_line_key_value :
  forall (cfg : BelacoderConfig) (section lead key sp1 sp2 val trail : string),
    all_chars isspace lead = true -> all_chars isspace sp1 = true ->
    all_chars isspace sp2 = true -> all_chars isspace trail = true ->
    plain_start key = true -> trim key = key -> trim val = val ->
    free_of "=" key = true -> free_of NUL key = true ->
    free_of NUL val = true ->
    config_line atof cfg section
      (lead ++ key ++ sp1 ++ "=" ++ sp2 ++ val ++ trail)
    = (parse_line atof cfg section key val, section).
Proof.
  intros cfg section lead key sp1 sp2 val trail Hlead Hsp1 Hsp2 Htrail
         Hplain Hkey Hval Hkeq Hknul Hvnul.
  destruct key as [|k0 krest]; [discriminate|].
  destruct (trim_fixed _ k0 krest Hkey eq_refl) as [Hk0 Hkrest].
  (* the value part of the line, stripped at its end *)
  assert (Hafter : strip_end (sp2 ++ val ++ trail)
                   = match val with
                     | EmptyString => EmptyString
                     | String _ _ => sp2 ++ val
                     end
                   /\ trim match val with
                           | EmptyString => EmptyString
                           | String _ _ => sp2 ++ val
                           end = val).
  { destruct val as [|v0 vrest].
    - cbn [append]. split; [|reflexivity].
      rewrite strip_end_app, (strip_end_space trail Htrail).
      apply strip_end_space. exact Hsp2.
    - destruct (trim_fixed _ v0 vrest Hval eq_refl) as [Hv0 Hvrest].
      assert (Hv : strip_end (String v0 vrest ++ trail) = String v0 vrest).
      { rewrite strip_end_app, (strip_end_space trail Htrail).
        rewrite strip_end_cons, Hvrest, Hv0. destruct vrest; reflexivity. }
      split.
      + rewrite strip_end_app, Hv. reflexivity.
      + unfold trim. rewrite skip_isspace_lead by exact Hsp2.
        cbn [skip_isspace]. rewrite Hv0, Hvrest. reflexivity. }
  destruct Hafter as [Hstrip Htrimval].
  set (kept := match val with
               | EmptyString => EmptyString
               | String _ _ => sp2 ++ val
               end) in *.
  unfold config_line.
  rewrite c_str_free.
  2:{ rewrite !free_of_app. rewrite (space_not_nul _ Hlead), Hknul,
        (space_not_nul _ Hsp1), (space_not_nul _ Hsp2), Hvnul,
        (space_not_nul _ Htrail). reflexivity. }
  assert (Htrim : trim (lead ++ String k0 krest ++ sp1 ++ "=" ++ sp2 ++ val ++ trail)
                  = String k0 krest ++ sp1 ++ String "=" kept).
  { unfold trim. rewrite skip_isspace_lead by exact Hlead.
    cbn [append skip_isspace]. rewrite Hk0. f_equal.
    rewrite strip_end_app.
    assert (Hrest : strip_end (sp1 ++ String "=" (sp2 ++ val ++ trail))
                    = sp1 ++ String "=" kept).
    { rewrite strip_end_app, strip_end_cons, Hstrip.
      change (isspace "=") with false. destruct kept, sp1; reflexivity. }
    rewrite Hrest. destruct sp1; reflexivity. }
  rewrite Htrim. cbn [append]. cbn [plain_start] in Hplain.
  apply negb_true_iff in Hplain. apply orb_false_iff in Hplain.
  destruct Hplain as [Hplain Hbr]. rewrite Hplain, Hbr.
  change (String k0 (krest ++ sp1 ++ String "=" kept))
    with (String k0 krest ++ sp1 ++ String "=" kept).
  rewrite <- append_assoc, split_at_first.
  2:{ rewrite free_of_app, Hkeq, (space_free_of_equals _ Hsp1). reflexivity. }
  rewrite Htrimval.
  assert (Hk : trim (String k0 krest ++ sp1) = String k0 krest).
  { unfold trim. cbn [append skip_isspace]. rewrite Hk0. f_equal.
    rewrite strip_end_app, (strip_end_space _ Hsp1). exact Hkrest. }
  rewrite Hk. reflexivity.
Qed.

(** What the keys store.  Each of the ten integer keys stores [atoi] of its
    value, and [balancer] stores the first 31 characters of its value;
    nothing checks the value against a range.  [atoi] reads an optional
    sign and the digits at the head of the value and ignores what follows,
    so a text after the number does no harm; and it reads a value that does
    not begin with a number as 0. *)
Theorem integer_keys_store_atoi :
  Forall (fun entry =>
            let '(section, key, field) := entry in
            forall cfg val, field (parse_line atof cfg section key val) = atoi val)
    integer_keys
  /\ (forall cfg val,
        balancer (parse_line atof cfg "general" "balancer" val) = strncpy 31 val)
  /\ (forall val, converted (strtol val) = false -> atoi val = 0)
  /\ (forall sign digits tail,
        (sign = "" \/ sign = "+" \/ sign = "-") ->
        digits <> "" -> all_chars isdigit digits = true ->
        starts_with isdigit tail = false ->
        int_range (signed_value sign digits) ->
        atoi (sign ++ digits ++ tail) = signed_value sign digits).
Proof.
  split; [|split; [|split]].
  - unfold integer_keys. repeat constructor.
  - reflexivity.
  - intros val Hc. unfold atoi, strtol in *.
    destruct (match skip_isspace val with
              | EmptyString => _
              | String c rest => _
              end) as [negative s2].
    destruct (read_digits s2 0 0) as [[m n] r]. destruct n; [reflexivity|].
    cbv zeta in Hc.
    repeat match type of Hc with
           | context [if ?c then _ else _] => destruct c
           end; discriminate.
  - intros sign digits tail Hsign Hne Hd Htail Hrange. unfold atoi.
    change (sign ++ digits ++ tail) with ("" ++ sign ++ digits ++ tail).
    rewrite (strtol_number "" sign digits tail eq_refl Hsign Hne Hd Htail).
    rewrite strtol_answer_exact.
    + cbn [value]. apply Facts.to_int_id. exact Hrange.
    + unfold int_range, INT_MIN, INT_MAX, LONG_MIN, LONG_MAX in *. lia.
Qed.

(** Long lines are read in pieces.  [fgets] hands [config_load] at most 511
    bytes at a time: when the first 511 bytes of what is left hold no
    newline, they are processed as a line of their own, and what follows
    them, the rest of the same line, is processed as the next line. *)
Theorem config_load_splits_long_lines :
  forall (fuel : nat) (cfg : BelacoderConfig) (section head tail : string),
    length head = 511%nat -> free_of newline head = true ->
    config_load_loop atof (S fuel) cfg section (head ++ tail)
    = config_load_loop atof fuel
        (fst (config_line atof cfg section head))
        (snd (config_line atof cfg section head)) tail.
Proof.
  intros fuel cfg section head tail Hlen Hfree.
  assert (Hread : forall room h,
            length h = room -> free_of newline h = true ->
            fgets_read room (h ++ tail) = (h, tail)).
  { induction room as [|room IH]; intros h Hl Hf.
    - destruct h; [reflexivity|discriminate].
    - destruct h as [|c h]; [discriminate|]. cbn [append].
      rewrite fgets_read_cons. cbn [free_of] in Hf.
      apply andb_true_iff in Hf. destruct Hf as [Hc Hh].
      apply negb_true_iff in Hc. rewrite Hc.
      rewrite (IH h) by (try exact Hh; cbn in Hl; lia). reflexivity. }
  cbn [config_load_loop]. unfold fgets.
  destruct head as [|c h]; [discriminate|].
  change (String c h ++ tail) with (String c (h ++ tail)).
  change (String c (h ++ tail)) with (String c h ++ tail) at 2.
  rewrite (Hread (512 - 1)%nat (String c h) Hlen Hfree).
  destruct (config_line atof cfg section (String c h)) as [cfg' section'].
  reflexivity.
Qed.

End ConfigLineFacts.

Section RegistryLookup.

Import Balancer Registry.

(** Lookup in a registry.  Every algorithm of a registry is found under its
    own name, or an earlier entry of the same name is found in its place;
    where no two entries share a name, looking up the name of an entry
    gives that entry; and a name that no entry bears is not found. *)
Theorem registry_finds_every_entry :
  forall (registry : list BalancerAlgorithm),
    (forall a, In a registry ->
               exists b, find_in registry (name a) = Some b
                         /\ In b registry /\ name b = name a)
    /\ (NoDup (map name registry) ->
        forall a, In a registry -> find_in registry (name a) = Some a)
    /\ (forall wanted,
          ~ In wanted (map name registry) -> find_in registry wanted = None).
Proof.
  intros registry. split; [|split].
  - induction registry as [|x rest IH]; intros a []; cbn [find_in].
    + subst x. rewrite String.eqb_refl. exists a.
      split; [reflexivity|]. split; [left; reflexivity|reflexivity].
    + destruct (String.eqb (name x) (name a)) eqn:E.
      * exists x. split; [reflexivity|]. split; [left; reflexivity|].
        apply String.eqb_eq. exact E.
      * destruct (IH a H) as (b & Hb & Hin & Hn). exists b.
        split; [exact Hb|]. split; [right; exact Hin|exact Hn].
  - induction registry as [|x rest IH]; intros Hnd a []; cbn [find_in].
    + subst x. rewrite String.eqb_refl. reflexivity.
    + cbn [map] in Hnd. apply NoDup_cons_iff in Hnd. destruct Hnd as [Hx Hnd].
      destruct (String.eqb (name x) (name a)) eqn:E.
      * exfalso. apply String.eqb_eq in E. apply Hx. rewrite E.
        apply in_map. exact H.
      * apply IH; assumption.
  - induction registry as [|x rest IH]; intros wanted Hn; [reflexivity|].
    cbn [find_in]. cbn [map] in Hn.
    destruct (String.eqb (name x) wanted) eqn:E.
    + exfalso. apply String.eqb_eq in E. apply Hn. left. exact E.
    + apply IH. intros Hin. apply Hn. right. exact Hin.
Qed.

End RegistryLookup.

Section ConfigLineExamples.

Import CInt Parse Grammar Config ConfigFile Samples.

Local Open Scope string_scope.

(** The line of the usage text, comment and all: the value handed over is
    ["500    # Kbps"], which [atoi] reads as 500. *)
Lemma config_line_key_value_witness :
  config_line atof_unused config_init_defaults "general"
    ("  " ++ "min_bitrate" ++ " " ++ "=" ++ " " ++ "500    # Kbps"
     ++ String newline "")
  = (parse_line atof_unused config_init_defaults "general" "min_bitrate"
       "500    # Kbps", "general")
  /\ min_bitrate
       (parse_line atof_unused config_init_defaults "general" "min_bitrate"
          "500    # Kbps") = 500.
Proof.
  split; [|reflexivity].
  apply (config_line_key_value atof_unused config_init_defaults "general"
           "  " "min_bitrate" " " " " "500    # Kbps" (String newline ""));
    reflexivity.
Defined.

(** A comment of 511 bytes followed on the same line by [min_bitrate=1]:
    the assignment is carried out. *)
Lemma config_load_splits_long_lines_witness :
  config_load_loop atof_unused 600 config_init_defaults "general"
    (String "#" (filler 510 "x") ++ "min_bitrate=1" ++ String newline "")
  = config_load_loop atof_unused 599
      (fst (config_line atof_unused config_init_defaults "general"
              (String "#" (filler 510 "x"))))
      (snd (config_line atof_unused config_init_defaults "general"
              (String "#" (filler 510 "x"))))
      ("min_bitrate=1" ++ String newline "")
  /\ option_map min_bitrate
       (config_load_loop atof_unused 600 config_init_defaults "general"
          (String "#" (filler 510 "x") ++ "min_bitrate=1" ++ String newline ""))
     = Some 1.
Proof.
  split; [|vm_compute; reflexivity].
  apply (config_load_splits_long_lines atof_unused 599 config_init_defaults
           "general" (String "#" (filler 510 "x"))
           ("min_bitrate=1" ++ String newline ""));
    vm_compute; reflexivity.
Defined.

End ConfigLineExamples.

Section RunnerLifecycle.

Import Balancer Registry Runner Trace.

(** The state a runner needs.  [balancer_runner_step] hands the state to
    the algorithm without looking at it: it returns only on a runner with
    an algorithm and a state.  A [balancer_runner_init] that returns 0
    leaves a runner on which a step returns, and a step that returns leaves
    one on which the next step returns, with the same algorithm and
    configuration; after [balancer_runner_cleanup] no step returns, a
    second cleanup changes nothing and an update of the bounds does not
    bring the state back. *)
Theorem runner_needs_state :
  forall (r : BalancerRunner) (input : BalancerInput),
    (forall cfg override latency pkt_size,
       fst (balancer_runner_init r cfg override latency pkt_size) = 0 ->
       exists r' out,
         balancer_runner_step
           (snd (balancer_runner_init r cfg override latency pkt_size)) input
         = Some (r', out))
    /\ (forall r' out,
          balancer_runner_step r input = Some (r', out) ->
          (exists a s cfg,
             r = {| algo := Some a; state := Some s; config := cfg |})
          /\ (exists r'' out', balancer_runner_step r' input = Some (r'', out'))
          /\ algo r' = algo r /\ config r' = config r)
    /\ balancer_runner_step (balancer_runner_cleanup r) input = None
    /\ balancer_runner_cleanup (balancer_runner_cleanup r)
       = balancer_runner_cleanup r
    /\ (forall lo hi,
          balancer_runner_step
            (balancer_runner_update_bounds (balancer_runner_cleanup r) lo hi)
            input = None).
Proof.
  intros r input. split; [|split; [|split; [|split]]].
  - intros cfg override latency pkt_size. unfold balancer_runner_init.
    destruct (match balancer_find _ with Some _ => _ | None => _ end) as [a|];
      [|discriminate].
    destruct (init a _) as [s|] eqn:E; [|discriminate].
    intros _. cbn [snd]. rewrite runner_step_bound. eexists. eexists. reflexivity.
  - intros r' out. destruct r as [[a|] st cfg]; cbn in *; [|discriminate].
    destruct st as [s|]; [|discriminate].
    destruct (step a s input) as [s' o] eqn:E. intros [= <- <-].
    split; [exists a, s, cfg; reflexivity|].
    split; [|split; reflexivity].
    rewrite runner_step_bound. eexists. eexists. reflexivity.
  - destruct r as [[a|] st cfg]; reflexivity.
  - destruct r as [[a|] st cfg]; reflexivity.
  - intros lo hi. destruct r as [[a|] st cfg]; reflexivity.
Qed.

End RunnerLifecycle.
